(** * Publish/subscribe directory of [distributed/pubsub.py]

    A shallow embedding of the scheduler, worker and client extensions and of
    the [Pub] and [Sub] endpoints, followed by the properties of the
    specification that are settled against it.

    Conventions.
    - Topic names, worker addresses and client identities are strings.
    - A [defaultdict] is a finite map together with the rule that indexing a
      missing key stores the default under it before returning it.
    - Python code that mutates [self] and may raise is written in the monad
      [M S]: a function from the state to an outcome and the state left
      behind.  The state survives a raise, as it does in Python.
    - Iterating a Python [set] visits the elements in an unspecified order; the
      model fixes the order of [elements]. *)

From stdpp Require Import gmap strings list fin_maps fin_sets.

Open Scope string_scope.
Open Scope list_scope.

(** ** Exceptions and the state-and-exception monad *)

Inductive exn : Type :=
  | KeyError
  | CommClosedError
  | AssertionError
  | TimeoutError
  | NoContextError
  | RuntimeError.

#[global] Instance exn_eq_dec : EqDecision exn.
Proof. solve_decision. Defined.

Inductive outcome (A : Type) : Type :=
  | Returned (a : A)
  | Raised (e : exn).
Arguments Returned {A} a.
Arguments Raised {A} e.

Definition M (S A : Type) : Type := S → outcome A * S.

#[global] Instance M_ret {S} : MRet (M S) := λ A a s, (Returned a, s).

#[global] Instance M_bind {S} : MBind (M S) := λ A B f m s,
  match m s with
  | (Returned a, s') => f a s'
  | (Raised e, s') => (Raised e, s')
  end.

Definition raise {S A} (e : exn) : M S A := λ s, (Raised e, s).

Definition get_state {S} : M S S := λ s, (Returned s, s).

Definition modify {S} (f : S → S) : M S unit := λ s, (Returned tt, f s).

(** [try: m except (e1, e2, ...): h] *)
Definition try_except {S A} (m : M S A) (caught : exn → bool) (h : M S A) : M S A :=
  λ s, match m s with
       | (Returned a, s') => (Returned a, s')
       | (Raised e, s') => if caught e then h s' else (Raised e, s')
       end.

(** [for x in l: body x] *)
Fixpoint for_ {S A} (l : list A) (body : A → M S unit) : M S unit :=
  match l with
  | [] => mret tt
  | x :: l' => body x ;; for_ l' body
  end.

(** Truthiness of an optional keyword argument that carries a string:
    [None] and the empty string are false. *)
Definition as_truthy (o : option string) : option string :=
  match o with
  | Some s => if String.eqb s "" then None else Some s
  | None => None
  end.

Definition truthy (o : option string) : bool :=
  match as_truthy o with Some _ => true | None => false end.

(** ** Wire messages *)

Definition payload := string.

(** [to_serialize] only marks the payload for the transport. *)
Definition to_serialize (m : payload) : payload := m.

Record wire : Type := Wire {
  op : string;
  w_name : string;
  w_address : option string;
  w_publish : option bool;
  w_msg : option payload
}.

#[global] Instance wire_eq_dec : EqDecision wire.
Proof. solve_decision. Defined.

Definition ev_add_subscriber (name address : string) : wire :=
  Wire "pubsub-add-subscriber" name (Some address) None None.
Definition ev_remove_subscriber (name address : string) : wire :=
  Wire "pubsub-remove-subscriber" name (Some address) None None.
Definition ev_publish_scheduler (name : string) (publish : bool) : wire :=
  Wire "pubsub-publish-scheduler" name None (Some publish) None.
Definition ev_msg (name : string) (msg : payload) : wire :=
  Wire "pubsub-msg" name None None (Some msg).
Definition ev_bare (o name : string) : wire :=
  Wire o name None None None.

(** ** [defaultdict] *)

Section defaultdict.
Context {V : Type} (dflt : V).

(** [d[k]]: the value, and the dictionary after the access. *)
Definition dd_getitem (k : string) (d : gmap string V) : V * gmap string V :=
  match d !! k with
  | Some v => (v, d)
  | None => (dflt, <[k := dflt]> d)
  end.

End defaultdict.

(** ** [PubSubSchedulerExtension] *)

Module PubSubSchedulerExtension.

(** What the scheduler puts on a stream: [scheduler.worker_send(addr, m)] and
    [scheduler.client_comms[c].send(m)].  [worker_send] belongs to the
    scheduler; it hands the message to the worker's stream and does not
    raise. *)
Inductive send : Type :=
  | WorkerSend (addr : string) (m : wire)
  | ClientSend (c : string) (m : wire).

#[global] Instance send_eq_dec : EqDecision send.
Proof. solve_decision. Defined.

(** The three [defaultdict(set)] tables, the scheduler's [client_comms] (a
    plain dict; [false] is a comm that has been closed) and the messages sent
    so far, oldest first. *)
Record t : Type := Scheduler {
  publishers : gmap string (gset string);
  subscribers : gmap string (gset string);
  client_subscribers : gmap string (gset string);
  client_comms : gmap string bool;
  sent : list send
}.

Inductive table : Type := Publishers | Subscribers | ClientSubscribers.

Definition tbl (T : table) (s : t) : gmap string (gset string) :=
  match T with
  | Publishers => publishers s
  | Subscribers => subscribers s
  | ClientSubscribers => client_subscribers s
  end.

Definition set_tbl (T : table) (m : gmap string (gset string)) (s : t) : t :=
  match T with
  | Publishers =>
      Scheduler m (subscribers s) (client_subscribers s) (client_comms s) (sent s)
  | Subscribers =>
      Scheduler (publishers s) m (client_subscribers s) (client_comms s) (sent s)
  | ClientSubscribers =>
      Scheduler (publishers s) (subscribers s) m (client_comms s) (sent s)
  end.

(** [self.T[name]] *)
Definition getitem (T : table) (name : string) : M t (gset string) :=
  λ s, let '(v, m) := dd_getitem ∅ name (tbl T s) in (Returned v, set_tbl T m s).

(** [self.T[name].add(x)] *)
Definition set_add (T : table) (name x : string) : M t unit :=
  v ← getitem T name;
  modify (λ s, set_tbl T (<[name := {[x]} ∪ v]> (tbl T s)) s).

(** [self.T[name].remove(x)] *)
Definition set_remove (T : table) (name x : string) : M t unit :=
  v ← getitem T name;
  if decide (x ∈ v)
  then modify (λ s, set_tbl T (<[name := v ∖ {[x]}]> (tbl T s)) s)
  else raise KeyError.

(** [del self.T[name]] *)
Definition delitem (T : table) (name : string) : M t unit :=
  λ s, match tbl T s !! name with
       | Some _ => (Returned tt, set_tbl T (delete name (tbl T s)) s)
       | None => (Raised KeyError, s)
       end.

(** [name in self.T] *)
Definition contains (T : table) (name : string) : M t bool :=
  λ s, (Returned (bool_decide (is_Some (tbl T s !! name))), s).

Definition emit (x : send) : M t unit :=
  modify (λ s, Scheduler (publishers s) (subscribers s) (client_subscribers s)
                         (client_comms s) (sent s ++ [x])).

(** [self.scheduler.worker_send(addr, m)] *)
Definition worker_send (addr : string) (m : wire) : M t unit :=
  emit (WorkerSend addr m).

(** [self.scheduler.client_comms[c].send(m)] *)
Definition client_send (c : string) (m : wire) : M t unit :=
  s ← get_state;
  match client_comms s !! c with
  | None => raise KeyError
  | Some false => raise CommClosedError
  | Some true => emit (ClientSend c m)
  end.

Definition is_empty (v : gset string) : bool := bool_decide (v = ∅).

(** The value handed back to the publisher. *)
Record reply : Type := Reply {
  r_subscribers : gmap string (gmap string string);
  r_publish_scheduler : bool
}.

(** The handlers.  [name] is the topic; [add_publisher] is called with the
    address of the registering worker, the stream handlers with the keyword
    arguments of the event, of which [worker] and [client] may be absent. *)
Definition add_publisher (name worker : string) : M t reply :=
  set_add Publishers name worker;;
  subs ← getitem Subscribers name;
  known ← contains ClientSubscribers name;
  ps ← (if known : bool
        then cs ← getitem ClientSubscribers name; mret (bool_decide (0 < size cs))
        else mret false);
  mret (Reply (gset_to_gmap ∅ subs) ps).

Definition add_subscriber (name : string) (worker client : option string) : M t unit :=
  match as_truthy worker with
  | Some w =>
      set_add Subscribers name w;;
      pubs ← getitem Publishers name;
      for_ (elements pubs) (λ pub, worker_send pub (ev_add_subscriber name w))
  | None =>
      match as_truthy client with
      | Some c =>
          pubs ← getitem Publishers name;
          for_ (elements pubs) (λ pub, worker_send pub (ev_publish_scheduler name true));;
          set_add ClientSubscribers name c
      | None => mret tt
      end
  end.

(** [not self.subscribers[name] and not self.publishers[name]], evaluated
    left to right with short circuit. *)
Definition no_workers_left (name : string) : M t bool :=
  subs ← getitem Subscribers name;
  if is_empty subs
  then pubs ← getitem Publishers name; mret (is_empty pubs)
  else mret false.

Definition drop_topic (name : string) : M t unit :=
  delitem Subscribers name;;
  delitem Publishers name.

(** The check that ends both removals:
    [if not self.subscribers[name] and not self.publishers[name]: del ...]. *)
Definition finish_removal (name : string) : M t unit :=
  dead ← no_workers_left name;
  if dead : bool then drop_topic name else mret tt.

Definition remove_publisher (name : string) (worker : option string) : M t unit :=
  pubs ← getitem Publishers name;
  match worker with
  | Some w =>
      if decide (w ∈ pubs)
      then set_remove Publishers name w;; finish_removal name
      else mret tt
  | None => mret tt
  end.

Definition remove_subscriber (name : string) (worker client : option string) : M t unit :=
  match as_truthy worker with
  | Some w =>
      set_remove Subscribers name w;;
      pubs ← getitem Publishers name;
      for_ (elements pubs) (λ pub, worker_send pub (ev_remove_subscriber name w))
  | None =>
      match as_truthy client with
      | Some c =>
          set_remove ClientSubscribers name c;;
          cs ← getitem ClientSubscribers name;
          if is_empty cs
          then
            delitem ClientSubscribers name;;
            pubs ← getitem Publishers name;
            for_ (elements pubs)
                 (λ pub, worker_send pub (ev_publish_scheduler name false))
          else mret tt
      | None => mret tt
      end
  end;;
  finish_removal name.

Definition caught (e : exn) : bool :=
  match e with KeyError | CommClosedError => true | _ => false end.

Definition handle_message (name : string) (msg : payload)
    (worker client : option string) : M t unit :=
  cs ← getitem ClientSubscribers name;
  for_ (elements cs) (λ c,
    try_except (client_send c (ev_msg name msg)) caught
               (remove_subscriber name None (Some c)));;
  if truthy client
  then
    subs ← getitem Subscribers name;
    for_ (elements subs) (λ sub, worker_send sub (ev_msg name msg))
  else mret tt.

(** The stream handlers registered by [__init__], by operation name. *)
Inductive handler : Type :=
  | H_add_subscriber
  | H_remove_publisher
  | H_remove_subscriber
  | H_handle_message.

Definition registered_stream_handlers : gmap string handler :=
  <["pubsub-add-subscriber" := H_add_subscriber]>
  (<["pubsub-remove-publisher" := H_remove_publisher]>
  (<["pubsub-remove-subscriber" := H_remove_subscriber]>
  (<["pubsub-msg" := H_handle_message]> ∅))).

(** [self.scheduler.stream_handlers.update({...})] on the table [base] the
    scheduler already has. *)
Definition stream_handlers (base : gmap string handler) : gmap string handler :=
  registered_stream_handlers ∪ base.

(** The state right after [__init__]. *)
Definition init (comms : gmap string bool) : t := Scheduler ∅ ∅ ∅ comms [].

(** The directory operations, and the states they lead to.  A handler that
    raises leaves the state it had reached. *)
Inductive request : Type :=
  | AddPublisher (name worker : string)
  | AddSubscriber (name : string) (worker client : option string)
  | RemovePublisher (name : string) (worker : option string)
  | RemoveSubscriber (name : string) (worker client : option string)
  | HandleMessage (name : string) (msg : payload) (worker client : option string).

Definition serve (r : request) : M t unit :=
  match r with
  | AddPublisher name worker => add_publisher name worker;; mret tt
  | AddSubscriber name worker client => add_subscriber name worker client
  | RemovePublisher name worker => remove_publisher name worker
  | RemoveSubscriber name worker client => remove_subscriber name worker client
  | HandleMessage name msg worker client => handle_message name msg worker client
  end.

Definition serve_all (rs : list request) (s : t) : t :=
  foldl (λ s r, (serve r s).2) s rs.

Definition reachable (s : t) : Prop :=
  ∃ comms rs, s = serve_all rs (init comms).

(** A topic is present when one of the tables has it as a key; it is
    advertised when one of its three sets has a member. *)
Definition present (topic : string) (s : t) : Prop :=
  is_Some (publishers s !! topic) ∨ is_Some (subscribers s !! topic) ∨
  is_Some (client_subscribers s !! topic).

Definition advertised (topic : string) (s : t) : Prop :=
  publishers s !!! topic ≠ ∅ ∨ subscribers s !!! topic ≠ ∅ ∨
  client_subscribers s !!! topic ≠ ∅.

(** The party a removal names is registered under the topic. *)
Definition names_member (r : request) (s : t) : Prop :=
  match r with
  | RemovePublisher name (Some w) => w ∈ publishers s !!! name
  | RemoveSubscriber name worker client =>
      match as_truthy worker, as_truthy client with
      | Some w, _ => w ∈ subscribers s !!! name
      | None, Some c => c ∈ client_subscribers s !!! name
      | None, None => True
      end
  | _ => False
  end.

Definition topic_of (r : request) : string :=
  match r with
  | AddPublisher name _ | AddSubscriber name _ _ | RemovePublisher name _
  | RemoveSubscriber name _ _ | HandleMessage name _ _ _ => name
  end.

(** Bookkeeping used to state what an operation leaves behind. *)
Definition add_sent (out : list send) (s : t) : t :=
  Scheduler (publishers s) (subscribers s) (client_subscribers s)
            (client_comms s) (sent s ++ out).

Definition touch (T : table) (name : string) (s : t) : t :=
  set_tbl T (<[name := tbl T s !!! name]> (tbl T s)) s.

Definition snapshot (name : string) (s : t) : reply :=
  Reply (gset_to_gmap ∅ (subscribers s !!! name))
        (bool_decide (0 < size (client_subscribers s !!! name))).

Definition client_of (x : send) : option (string * wire) :=
  match x with ClientSend c m => Some (c, m) | WorkerSend _ _ => None end.

Definition can_send (s : t) (c : string) : Prop := client_comms s !! c = Some true.

#[global] Instance can_send_dec s c : Decision (can_send s c).
Proof. unfold can_send. apply _. Defined.

(** What the specification asks of a removal: once it has been processed, a
    topic without publishers and without worker subscribers has no entry in
    either table. *)
Definition drops_unused (r : request) (s : t) : Prop :=
  let s' := (serve r s).2 in
  publishers s' !!! topic_of r = ∅ → subscribers s' !!! topic_of r = ∅ →
  publishers s' !! topic_of r = None ∧ subscribers s' !! topic_of r = None.

(** The operations never read [sent]: run on a state with another history
    of messages, a framed computation does the same to the tables and appends
    the same messages. *)
Definition with_sent (l : list send) (s : t) : t :=
  Scheduler (publishers s) (subscribers s) (client_subscribers s) (client_comms s) l.

Definition framed {A} (m : M t A) : Prop :=
  ∀ s, ∃ out,
    sent (m s).2 = sent s ++ out ∧
    ∀ l, m (with_sent l s) = ((m s).1, with_sent (l ++ out) (m s).2).

(** Two states with the same tables and the same client streams. *)
Definition same_tables (s s' : t) : Prop :=
  publishers s = publishers s' ∧ subscribers s = subscribers s' ∧
  client_subscribers s = client_subscribers s' ∧ client_comms s = client_comms s'.

(** What the loop of [handle_message] may put on the wire. *)
Definition relay_outcome (name : string) (msg : payload) (x : send) : Prop :=
  (∃ c, x = ClientSend c (ev_msg name msg)) ∨
  (∃ pub, x = WorkerSend pub (ev_publish_scheduler name false)).

End PubSubSchedulerExtension.

(** ** The process that hosts endpoints

    A worker or client process: its heap of [Pub] objects, the state of the
    worker's [PubSubWorkerExtension], the callbacks queued on the event loop
    and everything the process has put on a channel.  Objects are named by
    their heap index; the weak sets of the extension hold such indices.
    Reclamation of objects is not part of the model. *)

Module Endpoint.

Inductive channel : Type :=
  | ControlRPC                      (* [scheduler.pubsub_add_publisher(...)] *)
  | Direct (addr : string)          (* [worker.send_to_worker(addr, ...)] *)
  | BatchedStream                   (* [worker.batched_stream.send(...)] *)
  | SchedulerComm (c : string).     (* [client.scheduler_comm.send(...)] *)

#[global] Instance channel_eq_dec : EqDecision channel.
Proof. solve_decision. Defined.

(** A [Pub] object.  [worker] and [client] hold the address of the worker,
    respectively the identity of the client, the object is bound to. *)
Record pub : Type := MkPub {
  subscribers : gmap string (gmap string string);
  worker : option string;
  client : option string;
  name : string;
  _started : bool;
  _buffer : list payload
}.

Inductive callback : Type :=
  | CbStart (p : nat)                       (* [self._start] *)
  | CbRegister (topic : string) (p : nat)   (* [pubsub.publishers[name].add, self] *)
  | CbPut (p : nat) (msg : payload)         (* [self._put, msg] *)
  | CbResume (p : nat) (r : PubSubSchedulerExtension.reply).
                                            (* [_start], woken with the reply *)

(** One entry of the outbox: the [Pub] whose method sent it, the channel and
    the message. *)
Record sending : Type := Sending {
  origin : nat;
  via : channel;
  body : wire
}.

#[global] Instance sending_eq_dec : EqDecision sending.
Proof. solve_decision. Defined.

Record process : Type := Process {
  pubs : gmap nat pub;
  publishers : gmap string (gset nat);
  publish_to_scheduler : gmap string bool;
  loop : list callback;
  awaiting : gset nat;
  outbox : list sending;
  current_worker : option string;    (* what [get_worker()] finds, if anything *)
  current_client : option string     (* what [get_client()] finds, if anything *)
}.

Definition set_pubs (f : gmap nat pub → gmap nat pub) (σ : process) : process :=
  Process (f (pubs σ)) (publishers σ) (publish_to_scheduler σ) (loop σ)
          (awaiting σ) (outbox σ) (current_worker σ) (current_client σ).
Definition set_publishers (f : gmap string (gset nat) → gmap string (gset nat))
    (σ : process) : process :=
  Process (pubs σ) (f (publishers σ)) (publish_to_scheduler σ) (loop σ)
          (awaiting σ) (outbox σ) (current_worker σ) (current_client σ).
Definition set_publish_to_scheduler (f : gmap string bool → gmap string bool)
    (σ : process) : process :=
  Process (pubs σ) (publishers σ) (f (publish_to_scheduler σ)) (loop σ)
          (awaiting σ) (outbox σ) (current_worker σ) (current_client σ).
Definition set_loop (f : list callback → list callback) (σ : process) : process :=
  Process (pubs σ) (publishers σ) (publish_to_scheduler σ) (f (loop σ))
          (awaiting σ) (outbox σ) (current_worker σ) (current_client σ).
Definition set_awaiting (f : gset nat → gset nat) (σ : process) : process :=
  Process (pubs σ) (publishers σ) (publish_to_scheduler σ) (loop σ)
          (f (awaiting σ)) (outbox σ) (current_worker σ) (current_client σ).
Definition set_outbox (f : list sending → list sending) (σ : process) : process :=
  Process (pubs σ) (publishers σ) (publish_to_scheduler σ) (loop σ)
          (awaiting σ) (f (outbox σ)) (current_worker σ) (current_client σ).

(** Dereference an object; a dangling index cannot be called. *)
Definition read (p : nat) : M process pub :=
  λ σ, match pubs σ !! p with
       | Some self => (Returned self, σ)
       | None => (Raised AssertionError, σ)
       end.

Definition write (p : nat) (self : pub) : M process unit :=
  modify (set_pubs (insert p self)).

Definition send_from (p : nat) (ch : channel) (m : wire) : M process unit :=
  modify (set_outbox (λ o, o ++ [Sending p ch m])).

(** [loop.add_callback(cb)] *)
Definition add_callback (cb : callback) : M process unit :=
  modify (set_loop (λ q, q ++ [cb])).

(** [pubsub.publishers[name]] of the worker extension *)
Definition publishers_getitem (topic : string) : M process (gset nat) :=
  λ σ, let '(v, m) := dd_getitem ∅ topic (publishers σ) in
       (Returned v, set_publishers (λ _, m) σ).

(** [pubsub.publish_to_scheduler[name]], a [defaultdict(lambda: False)] *)
Definition publish_to_scheduler_getitem (topic : string) : M process bool :=
  λ σ, let '(v, m) := dd_getitem false topic (publish_to_scheduler σ) in
       (Returned v, set_publish_to_scheduler (λ _, m) σ).

(** The keys of a dict, in the order the model iterates them. *)
Definition keys {V} (d : gmap string V) : list string := (map_to_list d).*1.

End Endpoint.

(** ** [PubSubWorkerExtension] *)

Module PubSubWorkerExtension.
Import Endpoint.

Definition add_subscriber (topic address : string) (info : gmap string string)
    : M process unit :=
  ps ← publishers_getitem topic;
  for_ (elements ps) (λ p,
    self ← read p;
    write p (MkPub (<[address := info]> (subscribers self)) (worker self)
                   (client self) (name self) (_started self) (_buffer self))).

Definition remove_subscriber (topic address : string) : M process unit :=
  ps ← publishers_getitem topic;
  for_ (elements ps) (λ p,
    self ← read p;
    match subscribers self !! address with
    | Some _ =>
        write p (MkPub (delete address (subscribers self)) (worker self)
                       (client self) (name self) (_started self) (_buffer self))
    | None => raise KeyError
    end).

Definition publish_scheduler (topic : string) (publish : bool) : M process unit :=
  modify (set_publish_to_scheduler (insert topic publish)).

End PubSubWorkerExtension.

(** ** [Pub] *)

Module Pub.
Import Endpoint.

(** [Pub(name, worker, client)]: returns the new object. *)
Definition __init__ (topic : string) (worker0 client0 : option string) : M process nat :=
  '(w, c) ← (match worker0, client0 with
             | None, None =>
                 σ ← get_state;
                 match current_worker σ with
                 | Some w => mret (Some w, None)
                 | None =>
                     match current_client σ with
                     | Some c => mret (None, Some c)
                     | None => raise NoContextError
                     end
                 end
             | _, _ => mret (worker0, client0)
             end);
  (if bool_decide (is_Some c ∨ is_Some w) then mret tt else raise AssertionError);;
  σ ← get_state;
  let p := fresh (dom (pubs σ)) in
  write p (MkPub ∅ w c topic false []);;
  add_callback (CbStart p);;
  (if bool_decide (is_Some w)
   then publishers_getitem topic;; add_callback (CbRegister topic p)
   else mret tt);;
  mret p.

(** [put]: schedule [_put] on the loop. *)
Definition put (p : nat) (msg : payload) : M process unit :=
  add_callback (CbPut p msg).

(** [_start] after the reply to the registration, if any, has been stored. *)
Definition _start_finish (p : nat) : M process unit :=
  self ← read p;
  write p (MkPub (subscribers self) (worker self) (client self) (name self)
                 true (_buffer self));;
  for_ (_buffer self) (λ msg, put p msg);;
  self ← read p;
  write p (MkPub (subscribers self) (worker self) (client self) (name self)
                 (_started self) []).

(** [_start] up to the point where it awaits the scheduler; a client-hosted
    object does not await and runs to the end. *)
Definition _start (p : nat) : M process unit :=
  self ← read p;
  match worker self with
  | Some address =>
      send_from p ControlRPC (Wire "pubsub_add_publisher" (name self) (Some address) None None);;
      modify (set_awaiting (λ a, {[p]} ∪ a))
  | None => _start_finish p
  end.

(** The reply of the scheduler arrives: the loop is asked to wake [_start]. *)
Definition reply_arrives (p : nat) (r : PubSubSchedulerExtension.reply) : M process unit :=
  modify (set_awaiting (λ a, a ∖ {[p]}));;
  add_callback (CbResume p r).

(** The rest of [_start], resumed with the scheduler's reply. *)
Definition _start_resume (p : nat) (r : PubSubSchedulerExtension.reply) : M process unit :=
  self ← read p;
  write p (MkPub (PubSubSchedulerExtension.r_subscribers r ∪ subscribers self)
                 (worker self) (client self) (name self) (_started self) (_buffer self));;
  PubSubWorkerExtension.publish_scheduler (name self)
    (PubSubSchedulerExtension.r_publish_scheduler r);;
  _start_finish p.

Definition _put (p : nat) (msg : payload) : M process unit :=
  self ← read p;
  if negb (_started self)
  then write p (MkPub (subscribers self) (worker self) (client self) (name self)
                      (_started self) (_buffer self ++ [msg]))
  else
    let data := ev_msg (name self) (to_serialize msg) in
    match worker self with
    | Some _ =>
        for_ (keys (subscribers self)) (λ sub, send_from p (Direct sub) data);;
        flag ← publish_to_scheduler_getitem (name self);
        if flag : bool then send_from p BatchedStream data else mret tt
    | None =>
        match client self with
        | Some c => send_from p (SchedulerComm c) data
        | None => mret tt
        end
    end.

(** Running one queued callback. *)
Definition exec (cb : callback) : M process unit :=
  match cb with
  | CbStart p => _start p
  | CbRegister topic p =>
      modify (set_publishers (λ m, <[topic := {[p]} ∪ default ∅ (m !! topic)]> m))
  | CbPut p msg => _put p msg
  | CbResume p r => _start_resume p r
  end.

(** One turn of the event loop: the oldest callback runs; an exception it
    raises is logged by the loop and does not stop it. *)
Definition loop_step (σ : process) : process :=
  match loop σ with
  | [] => σ
  | cb :: rest => (exec cb (set_loop (λ _, rest) σ)).2
  end.

Fixpoint loop_steps (n : nat) (σ : process) : process :=
  match n with
  | 0 => σ
  | S n' => loop_steps n' (loop_step σ)
  end.

(** What can happen to a process. *)
Inductive step : process → process → Prop :=
  | step_new topic w c σ :
      step σ (__init__ topic w c σ).2
  | step_put p msg σ :
      is_Some (pubs σ !! p) → step σ (put p msg σ).2
  | step_loop σ :
      step σ (loop_step σ)
  | step_reply p r σ :
      p ∈ awaiting σ → step σ (reply_arrives p r σ).2
  | step_add_subscriber topic address info σ :
      step σ (PubSubWorkerExtension.add_subscriber topic address info σ).2
  | step_remove_subscriber topic address σ :
      step σ (PubSubWorkerExtension.remove_subscriber topic address σ).2
  | step_publish_scheduler topic publish σ :
      step σ (PubSubWorkerExtension.publish_scheduler topic publish σ).2.

(** A process that has just come up. *)
Definition boot (cw cc : option string) : process :=
  Process ∅ ∅ ∅ [] ∅ [] cw cc.

Inductive reachable : process → Prop :=
  | reachable_boot cw cc : reachable (boot cw cc)
  | reachable_step σ σ' : reachable σ → step σ σ' → reachable σ'.

(** *** Vocabulary for the properties of publishers *)

(** What one started publisher puts on the wire for one message. *)
Definition emission (p : nat) (self : pub) (flag : bool) (msg : payload) : list sending :=
  let data := ev_msg (name self) (to_serialize msg) in
  match worker self with
  | Some _ =>
      ((λ addr, Sending p (Direct addr) data) <$> keys (subscribers self)) ++
      (if flag then [Sending p BatchedStream data] else [])
  | None =>
      match client self with
      | Some c => [Sending p (SchedulerComm c) data]
      | None => []
      end
  end.

Definition touch_flag (topic : string) (σ : process) : process :=
  set_publish_to_scheduler (λ m, (dd_getitem false topic m).2) σ.

Definition started (self : pub) : pub :=
  MkPub (subscribers self) (worker self) (client self) (name self) true [].

Definition registered (r : PubSubSchedulerExtension.reply) (self : pub) : pub :=
  MkPub (PubSubSchedulerExtension.r_subscribers r ∪ subscribers self)
        (worker self) (client self) (name self) (_started self) (_buffer self).

(** The calls [put(m)] for the messages [ms], in order. *)
Definition put_all (p : nat) (ms : list payload) (σ : process) : process :=
  foldl (λ σ m, (put p m σ).2) σ ms.

Definition hosted_on_worker (σ : process) (p : nat) : Prop :=
  ∃ self, pubs σ !! p = Some self ∧ is_Some (worker self).

Definition cb_ok (σ : process) (cb : callback) : Prop :=
  match cb with
  | CbStart p | CbPut p _ => is_Some (pubs σ !! p)
  | CbRegister _ p | CbResume p _ => hosted_on_worker σ p
  end.

Definition sending_ok (σ : process) (x : sending) : Prop :=
  ∃ self, pubs σ !! origin x = Some self ∧
    (worker self = None → ∃ c, client self = Some c ∧ via x = SchedulerComm c).

(** The invariant of a process: only worker-hosted objects are known to the
    worker extension or wait for the scheduler, and an object hosted on a
    client has no subscribers of its own and talks to the scheduler only. *)
Record consistent (σ : process) : Prop := Consistent {
  inv_client_pubs : ∀ p self,
    pubs σ !! p = Some self → worker self = None → subscribers self = ∅;
  inv_publishers : ∀ topic p, p ∈ publishers σ !!! topic → hosted_on_worker σ p;
  inv_loop : Forall (cb_ok σ) (loop σ);
  inv_awaiting : ∀ p, p ∈ awaiting σ → hosted_on_worker σ p;
  inv_outbox : Forall (sending_ok σ) (outbox σ)
}.

(** An object keeps its host and its topic. *)
Definition extends (σ σ' : process) : Prop :=
  ∀ p self, pubs σ !! p = Some self →
    ∃ self', pubs σ' !! p = Some self' ∧ worker self' = worker self ∧
             client self' = client self ∧ name self' = name self.

Definition sound (σ σ' : process) : Prop := consistent σ' ∧ extends σ σ'.

(** The state a successful construction leaves. *)
Definition construct (topic : string) (w c : option string) (σ : process) : process :=
  let p := fresh (dom (pubs σ)) in
  let σ1 := set_loop (λ q, q ++ [CbStart p])
              (set_pubs (insert p (MkPub ∅ w c topic false [])) σ) in
  match w with
  | Some _ =>
      set_loop (λ q, q ++ [CbRegister topic p])
        (set_publishers (λ _, (dd_getitem ∅ topic (publishers σ1)).2) σ1)
  | None => σ1
  end.

(** The common shape of the loops of the worker's [add_subscriber] and
    [remove_subscriber]: each registered object gets its [subscribers]
    replaced, or the loop raises. *)
Definition rewrite_body (f : pub → option (gmap string (gmap string string)))
    (p : nat) : M process unit :=
  self ← read p;
  match f self with
  | Some d =>
      write p (MkPub d (worker self) (client self) (name self)
                     (_started self) (_buffer self))
  | None => raise KeyError
  end.

(** The host a new object is bound to: the one given, else the worker of the
    calling task, else its client. *)
Definition resolve_host (w0 c0 : option string) (σ : process)
    : option (option string * option string) :=
  match w0, c0 with
  | None, None =>
      match current_worker σ with
      | Some w => Some (Some w, None)
      | None =>
          match current_client σ with
          | Some c => Some (None, Some c)
          | None => None
          end
      end
  | _, _ => Some (w0, c0)
  end.

(** [self] with another [subscribers] dictionary. *)
Definition with_subscribers (d : gmap string (gmap string string)) (self : pub) : pub :=
  MkPub d (worker self) (client self) (name self) (_started self) (_buffer self).

(** What the worker's [add_subscriber] and [remove_subscriber] do to the
    [subscribers] of one object. *)
Definition adding (address : string) (info : gmap string string) (self : pub)
    : option (gmap string (gmap string string)) :=
  Some (<[address := info]> (subscribers self)).

Definition removing (address : string) (self : pub)
    : option (gmap string (gmap string string)) :=
  match subscribers self !! address with
  | Some _ => Some (delete address (subscribers self))
  | None => None
  end.







End Pub.

(** ** [Sub]

    Time is counted in whole ticks of the clock behind [time()].  What the
    rest of the world does while [_get] waits is given as a finite list of
    rounds, one per turn of the [while] loop that finds the buffer empty;
    after the last round nothing notifies the condition any more and the
    clock stands where the last round read it. *)

Module Sub.
#[local] Open Scope Z_scope.

Record worker_ref : Type := WorkerRef { thread_id : nat }.

Record sub : Type := MkSub {
  buffer : list payload;            (* the deque, oldest first *)
  _condition : bool;                (* has the condition been created? *)
  client : option string;
  worker : option worker_ref
}.

Record round : Type := Round {
  now : Z;                          (* what [time()] returns in this round *)
  wake : option (Z * list payload)  (* ticks until the next [notify], and what
                                       [_put] has appended by then *)
}.

Inductive result : Type :=
  | Got (m : payload)
  | Raises (e : exn)
  | WaitsForever.

Definition with_buffer (b : list payload) (self : sub) : sub :=
  MkSub b (_condition self) (client self) (worker self).

(** The [condition] property creates the condition on first use. *)
Definition touch_condition (self : sub) : sub :=
  MkSub (buffer self) true (client self) (worker self).

(** [_put]: append, then notify one waiter. *)
Definition _put (msg : payload) (self : sub) : sub :=
  touch_condition (with_buffer (buffer self ++ [msg]) self).

(** [asyncio.wait_for(_(), timeout2)]: [Some ms] when the condition is
    notified in time ([ms] is what arrived), [None] when it is not. *)
Definition wait_for (timeout2 : option Z) (w : option (Z * list payload))
    : option (option (list payload)) :=
  match timeout2, w with
  | None, Some (_, ms) => Some (Some ms)
  | None, None => None                               (* never returns *)
  | Some t2, Some (d, ms) => if d <? t2 then Some (Some ms) else Some None
  | Some _, None => Some None
  end.

(** The [finally] clause of the loop, [self.condition.release()]: the lock
    is held when [_()] got to run, which [wait_for] allows only with time
    left; with none left it cancels [_()] before its first step, and
    releasing a lock that is not held raises [RuntimeError]. *)
Definition release_fails (timeout2 : option Z) : bool :=
  match timeout2 with
  | Some t2 => t2 <=? 0
  | None => false
  end.

(** The loop of [_get]; [clock] is the last reading of the clock. *)
Fixpoint _get_from (timeout : option Z) (start clock : Z) (rounds : list round)
    (self : sub) : result * sub :=
  match buffer self with
  | m :: rest => (Got m, with_buffer rest self)
  | [] =>
      match timeout, rounds with
      | Some t, r :: rounds' =>
          let timeout2 := t - (now r - start) in
          if timeout2 <? 0 then (Raises TimeoutError, self)
          else if release_fails (Some timeout2)
          then (Raises RuntimeError, touch_condition self)
          else
            match wait_for (Some timeout2) (wake r) with
            | Some (Some ms) =>
                _get_from timeout start (now r) rounds'
                          (with_buffer ms (touch_condition self))
            | _ => (Raises TimeoutError, touch_condition self)
            end
      | Some t, [] =>
          let timeout2 := t - (clock - start) in
          if timeout2 <? 0 then (Raises TimeoutError, self)
          else if release_fails (Some timeout2)
          then (Raises RuntimeError, touch_condition self)
          else (Raises TimeoutError, touch_condition self)
      | None, r :: rounds' =>
          match wait_for None (wake r) with
          | Some (Some ms) =>
              _get_from timeout start (now r) rounds'
                        (with_buffer ms (touch_condition self))
          | _ => (WaitsForever, touch_condition self)
          end
      | None, [] => (WaitsForever, touch_condition self)
      end
  end.

(** [_get(timeout)]; [start] is the first reading of the clock. *)
Definition _get (timeout : option Z) (start : Z) (rounds : list round)
    (self : sub) : result * sub :=
  _get_from timeout start start rounds self.

(** [get(timeout)] called from the thread [ident]; [timeout] is the value
    [parse_timedelta] returns. *)
Definition get (ident : nat) (timeout : option Z) (start : Z) (rounds : list round)
    (self : sub) : result * sub :=
  match client self with
  | Some _ => _get timeout start rounds self
  | None =>
      match worker self with
      | Some w =>
          if decide (thread_id w = ident)
          then _get None start rounds self
          else
            match buffer self with
            | m :: rest => (Got m, with_buffer rest self)
            | [] => _get timeout start rounds self
            end
      | None => (Raises AssertionError, self)
      end
  end.

(** *** Vocabulary for the properties of subscribers *)

Definition hosted (self : sub) : Prop := is_Some (client self) ∨ is_Some (worker self).

(** Nothing is delivered in any of the rounds. *)
Definition silent (rounds : list round) : Prop :=
  Forall (λ r, ∀ d ms, wake r = Some (d, ms) → ms = []) rounds.

(** A fresh subscriber on the worker whose loop runs in thread [tid]. *)
Definition on_worker (tid : nat) : sub := MkSub [] false None (Some (WorkerRef tid)).

End Sub.

(** ** [PubSubClientExtension] *)

Module PubSubClientExtension.

Record t : Type := ClientExt {
  subscribers : gmap string (gset nat);   (* [defaultdict(weakref.WeakSet)] *)
  subs : gmap nat Sub.sub;                (* the live [Sub] objects *)
  scheduler_comm : list wire              (* sent to the scheduler, oldest first *)
}.

Definition subscribers_getitem (topic : string) : M t (gset nat) :=
  λ σ, let '(v, m) := dd_getitem ∅ topic (subscribers σ) in
       (Returned v, ClientExt m (subs σ) (scheduler_comm σ)).

Definition send (m : wire) : M t unit :=
  modify (λ σ, ClientExt (subscribers σ) (subs σ) (scheduler_comm σ ++ [m])).

Definition deliver (i : nat) (msg : payload) : M t unit :=
  modify (λ σ, ClientExt (subscribers σ) (alter (Sub._put msg) i (subs σ))
                         (scheduler_comm σ)).

Definition handle_message (topic : string) (msg : payload) : M t unit :=
  ss ← subscribers_getitem topic;
  for_ (elements ss) (λ i, deliver i msg);;
  ss' ← subscribers_getitem topic;
  if bool_decide (ss' = ∅)
  then send (ev_bare "pubsub-remove-subscribers" topic)
  else mret tt.

Definition cleanup : M t unit :=
  σ ← get_state;
  for_ (map_to_list (subscribers σ)) (λ '(topic, s),
    if bool_decide (s = ∅)
    then send (ev_bare "pubsub-remove-subscriber" topic)
    else mret tt).

End PubSubClientExtension.

(** ** [PubSubWorkerExtension]: subscribers and cleanup

    The dictionaries of the worker extension together with the [Sub] objects
    of the worker and what has been put on its batched stream. *)

Module WorkerExtension.

Record t : Type := WorkerExt {
  subscribers : gmap string (gset nat);       (* [defaultdict(weakref.WeakSet)] *)
  publishers : gmap string (gset nat);        (* [defaultdict(weakref.WeakSet)] *)
  publish_to_scheduler : gmap string bool;    (* [defaultdict(lambda: False)] *)
  subs : gmap nat Sub.sub;                    (* the live [Sub] objects *)
  batched_stream : list wire                  (* sent to the scheduler, oldest first *)
}.

Definition send (m : wire) : M t unit :=
  modify (λ σ, WorkerExt (subscribers σ) (publishers σ) (publish_to_scheduler σ)
                         (subs σ) (batched_stream σ ++ [m])).

Definition deliver (i : nat) (msg : payload) : M t unit :=
  modify (λ σ, WorkerExt (subscribers σ) (publishers σ) (publish_to_scheduler σ)
                         (alter (Sub._put msg) i (subs σ)) (batched_stream σ)).

(** [del self.subscribers[name]] *)
Definition del_subscribers (name : string) : M t unit :=
  λ σ, match subscribers σ !! name with
       | Some _ => (Returned tt,
                    WorkerExt (delete name (subscribers σ)) (publishers σ)
                              (publish_to_scheduler σ) (subs σ) (batched_stream σ))
       | None => (Raised KeyError, σ)
       end.

(** [del self.publishers[name]] *)
Definition del_publishers (name : string) : M t unit :=
  λ σ, match publishers σ !! name with
       | Some _ => (Returned tt,
                    WorkerExt (subscribers σ) (delete name (publishers σ))
                              (publish_to_scheduler σ) (subs σ) (batched_stream σ))
       | None => (Raised KeyError, σ)
       end.

(** [del self.publish_to_scheduler[name]]; deleting is not indexing, so the
    default does not apply. *)
Definition del_publish_to_scheduler (name : string) : M t unit :=
  λ σ, match publish_to_scheduler σ !! name with
       | Some _ => (Returned tt,
                    WorkerExt (subscribers σ) (publishers σ)
                              (delete name (publish_to_scheduler σ)) (subs σ)
                              (batched_stream σ))
       | None => (Raised KeyError, σ)
       end.

(** [self.subscribers.get(name, [])] does not store anything. *)
Definition handle_message (name : string) (msg : payload) : M t unit :=
  σ ← get_state;
  for_ (elements (default ∅ (subscribers σ !! name))) (λ i, deliver i msg).

Definition cleanup_subscriber (e : string * gset nat) : M t unit :=
  if bool_decide (e.2 = ∅)
  then send (ev_bare "pubsub-remove-subscriber" e.1);; del_subscribers e.1
  else mret tt.

Definition cleanup_publisher (e : string * gset nat) : M t unit :=
  if bool_decide (e.2 = ∅)
  then send (ev_bare "pubsub-remove-publisher" e.1);;
       del_publishers e.1;;
       del_publish_to_scheduler e.1
  else mret tt.

(** Both loops run over a copy of the dictionary taken before the loop. *)
Definition cleanup : M t unit :=
  σ ← get_state;
  for_ (map_to_list (subscribers σ)) cleanup_subscriber;;
  σ' ← get_state;
  for_ (map_to_list (publishers σ')) cleanup_publisher.

End WorkerExtension.

(** The event sent for an entry of a dictionary of weak sets when the set
    is empty. *)
Definition notice (o : string) (e : string * gset nat) : list wire :=
  if bool_decide (e.2 = ∅) then [ev_bare o e.1] else [].

(** Dropping the entries of the empty sets in [l] from [d]. *)
Definition drop_empty {V} (l : list (string * gset nat)) (d : gmap string V)
    : gmap string V :=
  foldl (λ m e, if bool_decide (e.2 = ∅) then delete e.1 m else m) d l.

(** * Properties *)

(** ** Running monadic code *)

Lemma run_bind {S A B} (m : M S A) (f : A → M S B) s :
  (m ≫= f) s = match m s with
               | (Returned a, s') => f a s'
               | (Raised e, s') => (Raised e, s')
               end.
Proof. reflexivity. Qed.

Lemma run_ret {S A} (a : A) (s : S) : (mret a : M S A) s = (Returned a, s).
Proof. reflexivity. Qed.

Lemma insert_total_id `{Countable K} {V} `{Inhabited V} (m : gmap K V) k :
  is_Some (m !! k) → <[k := m !!! k]> m = m.
Proof. intros [v Hv]. apply insert_id. by rewrite lookup_total_alt, Hv. Qed.

Lemma total_absent `{Countable K} `{Countable X} (m : gmap K (gset X)) k :
  m !! k = None → m !!! k = ∅.
Proof. intros Hv. by rewrite lookup_total_alt, Hv. Qed.

Module SchedulerFacts.
Import PubSubSchedulerExtension.

Lemma getitem_eq T name s :
  getitem T name s = (Returned (tbl T s !!! name), touch T name s).
Proof.
  unfold getitem, touch, dd_getitem. rewrite lookup_total_alt.
  destruct (tbl T s !! name) eqn:E; simpl.
  - rewrite insert_id by done. by destruct T, s.
  - done.
Qed.

Lemma tbl_set_tbl T m s : tbl T (set_tbl T m s) = m.
Proof. by destruct T. Qed.

Lemma set_tbl_twice T m m' s : set_tbl T m (set_tbl T m' s) = set_tbl T m s.
Proof. by destruct T. Qed.

Lemma set_add_eq T name x s :
  set_add T name x s =
  (Returned tt, set_tbl T (<[name := {[x]} ∪ tbl T s !!! name]> (tbl T s)) s).
Proof.
  unfold set_add. rewrite run_bind, getitem_eq. unfold modify, touch.
  by rewrite tbl_set_tbl, set_tbl_twice, insert_insert_eq.
Qed.

Lemma set_remove_eq T name x s :
  set_remove T name x s =
  if decide (x ∈ tbl T s !!! name)
  then (Returned tt, set_tbl T (<[name := tbl T s !!! name ∖ {[x]}]> (tbl T s)) s)
  else (Raised KeyError, touch T name s).
Proof.
  unfold set_remove. rewrite run_bind, getitem_eq.
  destruct (decide _); [|done]. unfold modify, touch.
  by rewrite tbl_set_tbl, set_tbl_twice, insert_insert_eq.
Qed.

Lemma for_worker_send {A} (l : list A) (f : A → string) (w : A → wire) s :
  for_ l (λ x, worker_send (f x) (w x)) s =
  (Returned tt, add_sent ((λ x, WorkerSend (f x) (w x)) <$> l) s).
Proof.
  revert s. induction l as [|a l IH]; intros s.
  - simpl. rewrite run_ret. unfold add_sent. rewrite app_nil_r. by destruct s.
  - simpl. rewrite run_bind. unfold worker_send at 1, emit, modify.
    rewrite IH. unfold add_sent. simpl. by rewrite <- app_assoc.
Qed.

Lemma add_publisher_eq name worker s :
  add_publisher name worker s =
  (Returned (snapshot name s),
   touch Subscribers name
     (set_tbl Publishers (<[name := {[worker]} ∪ publishers s !!! name]> (publishers s)) s)).
Proof.
  unfold add_publisher. rewrite run_bind, set_add_eq. cbn [tbl].
  rewrite run_bind, getitem_eq. rewrite run_bind. unfold contains at 1.
  cbn [tbl set_tbl touch client_subscribers subscribers publishers].
  unfold snapshot.
  destruct (client_subscribers s !! name) as [cs|] eqn:E.
  - rewrite bool_decide_eq_true_2 by eauto.
    rewrite !run_bind, getitem_eq. cbn. rewrite run_ret.
    by rewrite (insert_total_id (client_subscribers s)) by eauto.
  - rewrite bool_decide_eq_false_2 by (intros [? ?]; congruence).
    rewrite run_bind, !run_ret.
    by rewrite (total_absent _ _ E), size_empty.
Qed.

Lemma lookup_total_touch (m : gmap string (gset string)) k t :
  <[k := m !!! k]> m !!! t = m !!! t.
Proof.
  destruct (decide (k = t)) as [->|Hne].
  - by rewrite lookup_total_insert_eq.
  - by rewrite lookup_total_insert_ne.
Qed.

(** C3.  [add_publisher(name, worker)] returns, puts [worker] into
    [publishers[name]] and touches nothing else that can be observed: the
    other publisher entries, every subscriber set, the client subscribers and
    the wire stay as they were.  The reply maps exactly the addresses of
    [subscribers[name]] to the empty dict and its flag is
    [|client_subscribers[name]| > 0].  A second call with the same arguments
    leaves the state of the first and returns the snapshot of that state. *)
Theorem add_publisher_snapshot_idempotent (name worker : string) (s : t) :
  ∃ r s',
    add_publisher name worker s = (Returned r, s') ∧
    publishers s' !!! name = {[worker]} ∪ publishers s !!! name ∧
    (∀ topic, topic ≠ name → publishers s' !! topic = publishers s !! topic) ∧
    (∀ topic, subscribers s' !!! topic = subscribers s !!! topic) ∧
    client_subscribers s' = client_subscribers s ∧
    client_comms s' = client_comms s ∧
    sent s' = sent s ∧
    (∀ addr, r_subscribers r !! addr =
             if decide (addr ∈ subscribers s !!! name) then Some ∅ else None) ∧
    r_publish_scheduler r = bool_decide (0 < size (client_subscribers s !!! name)) ∧
    add_publisher name worker s' = (Returned r, s') ∧
    (∀ addr, r_subscribers r !! addr =
             if decide (addr ∈ subscribers s' !!! name) then Some ∅ else None) ∧
    r_publish_scheduler r = bool_decide (0 < size (client_subscribers s' !!! name)).
Proof.
  eexists _, _. split; [apply add_publisher_eq|].
  set (s' := touch Subscribers name _).
  assert (Hp : publishers s' !!! name = {[worker]} ∪ publishers s !!! name).
  { subst s'. cbn. by rewrite lookup_total_insert_eq. }
  assert (Hs : ∀ topic, subscribers s' !!! topic = subscribers s !!! topic).
  { intros topic. subst s'. cbn. apply lookup_total_touch. }
  assert (Hc : client_subscribers s' = client_subscribers s) by done.
  assert (Hsnap : ∀ addr, r_subscribers (snapshot name s) !! addr =
             if decide (addr ∈ subscribers s !!! name) then Some ∅ else None).
  { intros addr. cbn. rewrite lookup_gset_to_gmap.
    destruct (decide _) as [Hin|Hin].
    - by rewrite option_guard_True.
    - by rewrite option_guard_False. }
  split_and!; try done.
  - intros topic Hne. subst s'. cbn. by rewrite lookup_insert_ne.
  - rewrite add_publisher_eq. f_equal.
    + unfold snapshot. by rewrite Hs, Hc.
    + rewrite Hp.
      assert (Hidem : {[worker]} ∪ ({[worker]} ∪ publishers s !!! name)
                      = {[worker]} ∪ publishers s !!! name).
      { by rewrite (assoc_L (∪)), (idemp_L (∪) {[worker]}). }
      rewrite Hidem. subst s'. unfold touch. cbn.
      rewrite insert_insert_eq, lookup_total_insert_eq, insert_insert_eq. done.
  - intros addr. rewrite Hs. apply Hsnap.
Qed.

Lemma is_empty_true (v : gset string) : is_empty v = true ↔ v = ∅.
Proof. unfold is_empty. apply bool_decide_eq_true. Qed.

Lemma delitem_present T name s :
  is_Some (tbl T s !! name) →
  delitem T name s = (Returned tt, set_tbl T (delete name (tbl T s)) s).
Proof. intros [v Hv]. unfold delitem. by rewrite Hv. Qed.

Lemma delitem_absent T name s :
  tbl T s !! name = None → delitem T name s = (Raised KeyError, s).
Proof. intros Hv. unfold delitem. by rewrite Hv. Qed.

Lemma finish_removal_spec name s :
  ∃ s',
    finish_removal name s = (Returned tt, s') ∧
    (∀ topic, publishers s' !!! topic = publishers s !!! topic) ∧
    (∀ topic, subscribers s' !!! topic = subscribers s !!! topic) ∧
    (∀ topic, topic ≠ name → publishers s' !! topic = publishers s !! topic) ∧
    (∀ topic, topic ≠ name → subscribers s' !! topic = subscribers s !! topic) ∧
    client_subscribers s' = client_subscribers s ∧
    client_comms s' = client_comms s ∧
    sent s' = sent s ∧
    (publishers s !!! name = ∅ → subscribers s !!! name = ∅ →
     publishers s' !! name = None ∧ subscribers s' !! name = None).
Proof.
  unfold finish_removal, no_workers_left.
  rewrite !run_bind, getitem_eq. cbn [tbl].
  destruct (is_empty (subscribers s !!! name)) eqn:Es.
  - rewrite run_bind, getitem_eq, run_ret. cbn [tbl touch set_tbl publishers subscribers].
    apply is_empty_true in Es.
    destruct (is_empty (publishers s !!! name)) eqn:Ep.
    + apply is_empty_true in Ep. unfold drop_topic. rewrite run_bind.
      rewrite delitem_present by (cbn; rewrite lookup_insert_eq; eauto).
      rewrite delitem_present by (cbn; rewrite lookup_insert_eq; eauto).
      eexists. split; [reflexivity|]. cbn.
      split_and!; try done.
      * intros topic. destruct (decide (name = topic)) as [->|Hne].
        -- by rewrite lookup_total_delete_eq, Ep.
        -- by rewrite lookup_total_delete_ne, lookup_total_insert_ne.
      * intros topic. destruct (decide (name = topic)) as [->|Hne].
        -- by rewrite lookup_total_delete_eq, Es.
        -- by rewrite lookup_total_delete_ne, lookup_total_insert_ne.
      * intros topic Hne. by rewrite lookup_delete_ne, lookup_insert_ne.
      * intros topic Hne. by rewrite lookup_delete_ne, lookup_insert_ne.
      * intros _ _. by rewrite !lookup_delete_eq.
    + eexists. split; [reflexivity|]. cbn.
      split_and!; try done.
      * intros topic. apply lookup_total_touch.
      * intros topic. apply lookup_total_touch.
      * intros topic Hne. by rewrite lookup_insert_ne.
      * intros topic Hne. by rewrite lookup_insert_ne.
      * intros Hp. apply is_empty_true in Hp. congruence.
  - rewrite run_ret. eexists. split; [reflexivity|]. cbn.
    split_and!; try done.
    + intros topic. apply lookup_total_touch.
    + intros topic Hne. by rewrite lookup_insert_ne.
    + intros _ Hs. apply is_empty_true in Hs. congruence.
Qed.

Lemma remove_subscriber_unfold name worker client :
  remove_subscriber name worker client =
  ((match as_truthy worker with
   | Some w =>
       set_remove Subscribers name w;;
       pubs ← getitem Publishers name;
       for_ (elements pubs) (λ pub, worker_send pub (ev_remove_subscriber name w))
   | None =>
       match as_truthy client with
       | Some c =>
           set_remove ClientSubscribers name c;;
           cs ← getitem ClientSubscribers name;
           if is_empty cs
           then
             delitem ClientSubscribers name;;
             pubs ← getitem Publishers name;
             for_ (elements pubs)
                  (λ pub, worker_send pub (ev_publish_scheduler name false))
           else mret tt
       | None => mret tt
       end
   end);; finish_removal name).
Proof. reflexivity. Qed.

(** The state and messages that the removal of a client subscriber leaves. *)
Lemma remove_client_subscriber_spec name worker c s :
  as_truthy worker = None → c ≠ "" →
  c ∈ client_subscribers s !!! name →
  ∃ s' out,
    remove_subscriber name worker (Some c) s = (Returned tt, s') ∧
    sent s' = sent s ++ out ∧
    Forall (λ x, ∃ pub, x = WorkerSend pub (ev_publish_scheduler name false)) out ∧
    client_comms s' = client_comms s ∧
    (∀ topic, publishers s' !!! topic = publishers s !!! topic) ∧
    (∀ topic, subscribers s' !!! topic = subscribers s !!! topic) ∧
    client_subscribers s' !!! name = client_subscribers s !!! name ∖ {[c]} ∧
    (∀ topic, topic ≠ name →
       client_subscribers s' !! topic = client_subscribers s !! topic) ∧
    (publishers s' !!! name = ∅ → subscribers s' !!! name = ∅ →
     publishers s' !! name = None ∧ subscribers s' !! name = None).
Proof.
  intros Hw Hc Hin. rewrite remove_subscriber_unfold, Hw.
  assert (as_truthy (Some c) = Some c) as ->.
  { unfold as_truthy. destruct (String.eqb_spec c ""); congruence. }
  rewrite !run_bind, set_remove_eq. cbn [tbl].
  rewrite decide_True by done. cbv beta iota.
  rewrite run_bind, getitem_eq. cbn [tbl touch set_tbl client_subscribers].
  rewrite lookup_total_insert_eq, insert_insert_eq.
  set (cs' := client_subscribers s !!! name ∖ {[c]}).
  destruct (is_empty cs') eqn:Ecs.
  - apply is_empty_true in Ecs.
    rewrite run_bind, delitem_present by (cbn; rewrite lookup_insert_eq; eauto).
    rewrite run_bind, getitem_eq, for_worker_send.
    cbn [tbl touch set_tbl publishers subscribers client_subscribers client_comms sent add_sent].
    rewrite delete_insert_eq.
    match goal with |- context [finish_removal name ?x] =>
      destruct (finish_removal_spec name x) as (s' & -> & Hp & Hs & _ & _ & Hcs & Hcc & Hsent & Hdead)
    end.
    cbn in Hp, Hs, Hcs, Hcc, Hsent, Hdead.
    eexists s', _. split_and!; try done.
    + apply Forall_fmap, Forall_true. intros pub. by exists pub.
    + intros topic. rewrite Hp. apply lookup_total_touch.
    + by rewrite Hcs, lookup_total_delete_eq, Ecs.
    + intros topic Hne. by rewrite Hcs, lookup_delete_ne.
    + intros Hp' Hs'. apply Hdead.
      * by rewrite <- Hp', Hp.
      * by rewrite <- Hs', Hs.
  - rewrite run_ret.
    match goal with |- context [finish_removal name ?x] =>
      destruct (finish_removal_spec name x) as (s' & -> & Hp & Hs & _ & _ & Hcs & Hcc & Hsent & Hdead)
    end.
    cbn in Hp, Hs, Hcs, Hcc, Hsent, Hdead.
    eexists s', []. split_and!; try done.
    + by rewrite app_nil_r.
    + by rewrite Hcs, lookup_total_insert_eq.
    + intros topic Hne. by rewrite Hcs, lookup_insert_ne.
    + intros Hp' Hs'. apply Hdead.
      * by rewrite <- Hp', Hp.
      * by rewrite <- Hs', Hs.
Qed.

Lemma as_truthy_Some c : c ≠ "" → as_truthy (Some c) = Some c.
Proof. intros Hc. unfold as_truthy. destruct (String.eqb_spec c ""); congruence. Qed.

Lemma as_truthy_inv o c : as_truthy o = Some c → o = Some c ∧ c ≠ "".
Proof.
  unfold as_truthy. destruct o as [x|]; [|done].
  destruct (String.eqb_spec x ""); [done|]. intros [= ->]. done.
Qed.

Lemma remove_worker_subscriber_spec name worker client w s :
  as_truthy worker = Some w →
  w ∈ subscribers s !!! name →
  ∃ s',
    remove_subscriber name worker client s = (Returned tt, s') ∧
    sent s' = sent s ++
      ((λ pub, WorkerSend pub (ev_remove_subscriber name w)) <$>
         elements (publishers s !!! name)) ∧
    client_comms s' = client_comms s ∧
    (∀ topic, publishers s' !!! topic = publishers s !!! topic) ∧
    subscribers s' !!! name = subscribers s !!! name ∖ {[w]} ∧
    (∀ topic, topic ≠ name → subscribers s' !!! topic = subscribers s !!! topic) ∧
    client_subscribers s' = client_subscribers s ∧
    (publishers s' !!! name = ∅ → subscribers s' !!! name = ∅ →
     publishers s' !! name = None ∧ subscribers s' !! name = None).
Proof.
  intros Hw Hin. rewrite remove_subscriber_unfold, Hw.
  rewrite !run_bind, set_remove_eq. cbn [tbl].
  rewrite decide_True by done. cbv beta iota.
  rewrite run_bind, getitem_eq, for_worker_send.
  cbn [tbl touch set_tbl publishers subscribers client_subscribers client_comms sent add_sent].
  match goal with |- context [finish_removal name ?x] =>
    destruct (finish_removal_spec name x) as (s' & -> & Hp & Hs & _ & _ & Hcs & Hcc & Hsent & Hdead)
  end.
  cbn in Hp, Hs, Hcs, Hcc, Hsent, Hdead.
  eexists s'. split_and!; try done.
  - intros topic. rewrite Hp. apply lookup_total_touch.
  - by rewrite Hs, lookup_total_insert_eq.
  - intros topic Hne. by rewrite Hs, lookup_total_insert_ne.
  - intros Hp' Hs'. apply Hdead.
    + by rewrite <- Hp', Hp.
    + by rewrite <- Hs', Hs.
Qed.

Lemma remove_worker_subscriber_absent name worker client w s :
  as_truthy worker = Some w →
  w ∉ subscribers s !!! name →
  remove_subscriber name worker client s = (Raised KeyError, touch Subscribers name s).
Proof.
  intros Hw Hin. rewrite remove_subscriber_unfold, Hw.
  rewrite !run_bind, set_remove_eq. cbn [tbl].
  by rewrite decide_False by done.
Qed.

Lemma remove_client_subscriber_absent name worker client c s :
  as_truthy worker = None → as_truthy client = Some c →
  c ∉ client_subscribers s !!! name →
  remove_subscriber name worker client s =
  (Raised KeyError, touch ClientSubscribers name s).
Proof.
  intros Hw Hc Hin. rewrite remove_subscriber_unfold, Hw, Hc.
  rewrite !run_bind, set_remove_eq. cbn [tbl].
  by rewrite decide_False by done.
Qed.

Lemma remove_nobody_eq name worker client s :
  as_truthy worker = None → as_truthy client = None →
  remove_subscriber name worker client s = finish_removal name s.
Proof. intros Hw Hc. by rewrite remove_subscriber_unfold, Hw, Hc. Qed.

Lemma remove_publisher_spec name w s :
  w ∈ publishers s !!! name →
  ∃ s',
    remove_publisher name (Some w) s = (Returned tt, s') ∧
    sent s' = sent s ∧
    client_comms s' = client_comms s ∧
    publishers s' !!! name = publishers s !!! name ∖ {[w]} ∧
    (∀ topic, topic ≠ name → publishers s' !!! topic = publishers s !!! topic) ∧
    (∀ topic, subscribers s' !!! topic = subscribers s !!! topic) ∧
    client_subscribers s' = client_subscribers s ∧
    (publishers s' !!! name = ∅ → subscribers s' !!! name = ∅ →
     publishers s' !! name = None ∧ subscribers s' !! name = None).
Proof.
  intros Hin. unfold remove_publisher.
  rewrite run_bind, getitem_eq. cbn [tbl].
  rewrite decide_True by done.
  rewrite run_bind, set_remove_eq.
  cbn [tbl touch set_tbl publishers subscribers client_subscribers client_comms sent].
  rewrite lookup_total_insert_eq, decide_True by done.
  rewrite insert_insert_eq.
  match goal with |- context [finish_removal name ?x] =>
    destruct (finish_removal_spec name x) as (s' & -> & Hp & Hs & _ & _ & Hcs & Hcc & Hsent & Hdead)
  end.
  cbn in Hp, Hs, Hcs, Hcc, Hsent, Hdead.
  eexists s'. split_and!; try done.
  - by rewrite Hp, lookup_total_insert_eq.
  - intros topic Hne. by rewrite Hp, lookup_total_insert_ne.
  - intros Hp' Hs'. apply Hdead.
    + by rewrite <- Hp', Hp.
    + by rewrite <- Hs', Hs.
Qed.

Lemma remove_publisher_absent name w s :
  w ∉ publishers s !!! name →
  remove_publisher name (Some w) s = (Returned tt, touch Publishers name s).
Proof.
  intros Hin. unfold remove_publisher.
  rewrite run_bind, getitem_eq. cbn [tbl].
  by rewrite decide_False by done.
Qed.

Lemma remove_client_subscriber_sent name worker c s :
  as_truthy worker = None → c ≠ "" →
  c ∈ client_subscribers s !!! name →
  sent (remove_subscriber name worker (Some c) s).2 =
  sent s ++
    (if decide (client_subscribers s !!! name ∖ {[c]} = ∅)
     then (λ pub, WorkerSend pub (ev_publish_scheduler name false)) <$>
            elements (publishers s !!! name)
     else []) ∧
  (client_subscribers s !!! name ∖ {[c]} = ∅ →
   client_subscribers (remove_subscriber name worker (Some c) s).2 !! name = None).
Proof.
  intros Hw Hc Hin. rewrite remove_subscriber_unfold, Hw, (as_truthy_Some c Hc).
  rewrite !run_bind, set_remove_eq. cbn [tbl].
  rewrite decide_True by done. cbv beta iota.
  rewrite run_bind, getitem_eq. cbn [tbl touch set_tbl client_subscribers].
  rewrite lookup_total_insert_eq, insert_insert_eq.
  set (cs' := client_subscribers s !!! name ∖ {[c]}).
  destruct (is_empty cs') eqn:Ecs.
  - apply is_empty_true in Ecs.
    rewrite run_bind, delitem_present by (cbn; rewrite lookup_insert_eq; eauto).
    rewrite run_bind, getitem_eq, for_worker_send.
    cbn [tbl touch set_tbl publishers subscribers client_subscribers client_comms sent add_sent].
    rewrite delete_insert_eq.
    match goal with |- context [finish_removal name ?x] =>
      destruct (finish_removal_spec name x) as (s' & -> & _ & _ & _ & _ & Hcs & _ & Hsent & _)
    end.
    cbn in Hcs, Hsent |- *. rewrite decide_True by done.
    split; [done|]. intros _. by rewrite Hcs, lookup_delete_eq.
  - rewrite run_ret.
    match goal with |- context [finish_removal name ?x] =>
      destruct (finish_removal_spec name x) as (s' & -> & _ & _ & _ & _ & Hcs & _ & Hsent & _)
    end.
    cbn in Hcs, Hsent |- *.
    assert (cs' ≠ ∅) as Hne.
    { intros H. apply is_empty_true in H. congruence. }
    rewrite decide_False by done. rewrite app_nil_r. done.
Qed.

Lemma try_send_ok c m h s :
  can_send s c →
  try_except (client_send c m) caught h s = (Returned tt, add_sent [ClientSend c m] s).
Proof.
  unfold can_send, try_except, client_send. intros Hc.
  rewrite run_bind. unfold get_state at 1. cbv beta iota. by rewrite Hc.
Qed.

Lemma try_send_fail c m h s :
  ¬ can_send s c →
  try_except (client_send c m) caught h s = h s.
Proof.
  unfold can_send, try_except, client_send. intros Hc.
  rewrite run_bind. unfold get_state at 1. cbv beta iota.
  destruct (client_comms s !! c) as [[]|]; done.
Qed.

Lemma relay_loop name msg l : ∀ s,
  NoDup l →
  (∀ c, c ∈ l → c ∈ client_subscribers s !!! name) →
  ∃ s' out,
    for_ l (λ c, try_except (client_send c (ev_msg name msg)) caught
                            (remove_subscriber name None (Some c))) s
      = (Returned tt, s') ∧
    sent s' = sent s ++ out ∧
    client_comms s' = client_comms s ∧
    (∀ topic, publishers s' !!! topic = publishers s !!! topic) ∧
    (∀ topic, subscribers s' !!! topic = subscribers s !!! topic) ∧
    (∀ c, c ∈ client_subscribers s' !!! name ↔
          c ∈ client_subscribers s !!! name ∧ (c ∈ l → can_send s c ∨ c = "")) ∧
    (∀ topic, topic ≠ name →
       client_subscribers s' !! topic = client_subscribers s !! topic) ∧
    omap client_of out = (λ c, (c, ev_msg name msg)) <$> filter (can_send s) l ∧
    Forall (relay_outcome name msg) out.
Proof.
  induction l as [|c l IH]; intros s Hnd Hsub.
  - exists s, []. simpl. rewrite run_ret, app_nil_r.
    split_and!; try done. intros c. split; [|tauto]. intros Hc. split; [done|].
    by intros ?%elem_of_nil.
  - apply NoDup_cons in Hnd as [Hc Hnd]. simpl. rewrite run_bind.
    destruct (decide (can_send s c)) as [Hok|Hko].
    + rewrite try_send_ok by done.
      destruct (IH (add_sent [ClientSend c (ev_msg name msg)] s) Hnd)
        as (s' & out & -> & Hsent & Hcc & Hp & Hs & Hcs & Hoth & Hcl & Hall).
      { intros c' Hc'. cbn. apply Hsub. by right. }
      cbn in Hsent, Hcc, Hp, Hs, Hcs, Hoth, Hcl.
      exists s', (ClientSend c (ev_msg name msg) :: out).
      split_and!; try done.
      * by rewrite Hsent, <- app_assoc.
      * intros c'. rewrite Hcs. split; intros [H1 H2]; (split; [done|]).
        -- intros [->|Hin]%elem_of_cons; [by left|by apply H2].
        -- intros Hin. apply H2. by right.
      * rewrite filter_cons_True by done. rewrite fmap_cons.
        change (omap client_of (ClientSend c (ev_msg name msg) :: out))
          with ((c, ev_msg name msg) :: omap client_of out).
        f_equal. apply Hcl.
      * constructor; [|done]. left. by exists c.
    + rewrite try_send_fail by done.
      destruct (decide (c = "")) as [->|Hne].
      * rewrite remove_nobody_eq by done.
        destruct (finish_removal_spec name s)
          as (s1 & -> & Hp1 & Hs1 & _ & _ & Hcs1 & Hcc1 & Hsent1 & _).
        destruct (IH s1 Hnd)
          as (s' & out & -> & Hsent & Hcc & Hp & Hs & Hcs & Hoth & Hcl & Hall).
        { intros c' Hc'. rewrite Hcs1. apply Hsub. by right. }
        exists s', out. split_and!; try done.
        -- by rewrite Hsent, Hsent1.
        -- by rewrite Hcc, Hcc1.
        -- intros topic. by rewrite Hp, Hp1.
        -- intros topic. by rewrite Hs, Hs1.
        -- intros c'. rewrite Hcs, Hcs1. unfold can_send in *. rewrite Hcc1.
           split; intros [H1 H2]; (split; [done|]).
           ++ intros [->|Hin]%elem_of_cons; [by right|by apply H2].
           ++ intros Hin. apply H2. by right.
        -- intros topic Hne. by rewrite Hoth, Hcs1.
        -- rewrite filter_cons_False by done. rewrite Hcl.
           f_equal. apply list_filter_iff. intros c'. unfold can_send. by rewrite Hcc1.
      * destruct (remove_client_subscriber_spec name None c s)
          as (s1 & out1 & -> & Hsent1 & Hall1 & Hcc1 & Hp1 & Hs1 & Hcs1 & Hoth1 & _);
          [done|done|apply Hsub; by left|].
        destruct (IH s1 Hnd)
          as (s' & out & -> & Hsent & Hcc & Hp & Hs & Hcs & Hoth & Hcl & Hall).
        { intros c' Hc'. rewrite Hcs1. apply elem_of_difference. split.
          - apply Hsub. by right.
          - intros ->%elem_of_singleton. done. }
        exists s', (out1 ++ out). split_and!; try done.
        -- by rewrite Hsent, Hsent1, <- app_assoc.
        -- by rewrite Hcc, Hcc1.
        -- intros topic. by rewrite Hp, Hp1.
        -- intros topic. by rewrite Hs, Hs1.
        -- intros c'. rewrite Hcs, Hcs1. unfold can_send in *. rewrite Hcc1.
           rewrite elem_of_difference, elem_of_singleton.
           split.
           ++ intros [[H1 H3] H2]. split; [done|].
              intros [->|Hin]%elem_of_cons; [done|by apply H2].
           ++ intros [H1 H2]. split; [split; [done|]|].
              ** intros ->. destruct H2 as [?|?]; [by left|done|done].
              ** intros Hin. apply H2. by right.
        -- intros topic Hne'. by rewrite Hoth, Hoth1.
        -- rewrite filter_cons_False by done. rewrite omap_app, Hcl.
           assert (omap client_of out1 = []) as ->.
           { clear -Hall1. induction Hall1 as [|x out1 [pub ->] _ IH']; [done|].
             cbn. apply IH'. }
           cbn. f_equal. apply list_filter_iff. intros c'. unfold can_send. by rewrite Hcc1.
        -- apply Forall_app. split; [|done].
           eapply Forall_impl; [exact Hall1|]. intros x [pub ->]. right. by exists pub.
Qed.

(** What the loop puts on the wire, exactly: the message for each client
    whose stream accepts it, and the notices of the removal that empties
    [client_subscribers[name]], which can only be the last one. *)
Lemma relay_loop_sent name msg l : ∀ s,
  NoDup l →
  (∀ c, c ∈ l → c ∈ client_subscribers s !!! name) →
  ∀ s',
  for_ l (λ c, try_except (client_send c (ev_msg name msg)) caught
                          (remove_subscriber name None (Some c))) s
    = (Returned tt, s') →
  sent s' = sent s ++
    ((λ c, ClientSend c (ev_msg name msg)) <$> filter (can_send s) l) ++
    (if decide (l ≠ [] ∧ client_subscribers s' !!! name = ∅)
     then (λ pub, WorkerSend pub (ev_publish_scheduler name false)) <$>
            elements (publishers s !!! name)
     else []).
Proof.
  induction l as [|c l IH]; intros s Hnd Hsub s' Hrun.
  - cbn in Hrun. injection Hrun as <-.
    rewrite decide_False by (by intros [? _]). cbn. by rewrite app_nil_r.
  - apply NoDup_cons in Hnd as [Hc Hnd]. cbn [for_] in Hrun. rewrite run_bind in Hrun.
    assert (Hstays : ∀ s1,
      client_comms s1 = client_comms s →
      (∀ c', c' ∈ l → c' ∈ client_subscribers s1 !!! name) →
      for_ l (λ c, try_except (client_send c (ev_msg name msg)) caught
                              (remove_subscriber name None (Some c))) s1
        = (Returned tt, s') →
      ∀ c', c' ∉ l → c' ∈ client_subscribers s1 !!! name →
            c' ∈ client_subscribers s' !!! name).
    { intros s1 Hcc Hsub1 Hrun1 c' Hc' Hin.
      destruct (relay_loop name msg l s1 Hnd Hsub1)
        as (s'' & out & Hrun' & _ & _ & _ & _ & Hcs & _).
      rewrite Hrun1 in Hrun'. injection Hrun' as <-.
      apply Hcs. by split. }
    assert (Hfilter : ∀ s1, client_comms s1 = client_comms s →
              filter (can_send s1) l = filter (can_send s) l).
    { intros s1 Hcc. apply list_filter_iff. intros c'. unfold can_send. by rewrite Hcc. }
    destruct (decide (can_send s c)) as [Hok|Hko].
    + rewrite try_send_ok in Hrun by done.
      assert (Hsub1 : ∀ c', c' ∈ l →
                c' ∈ client_subscribers (add_sent [ClientSend c (ev_msg name msg)] s) !!! name).
      { intros c' Hc'. cbn. apply Hsub. by right. }
      rewrite (IH (add_sent [ClientSend c (ev_msg name msg)] s) Hnd Hsub1 s' Hrun).
      assert (Hin : c ∈ client_subscribers s' !!! name).
      { apply (Hstays (add_sent [ClientSend c (ev_msg name msg)] s) eq_refl Hsub1 Hrun c Hc).
        cbn. apply Hsub. by left. }
      rewrite !decide_False by (intros [_ He]; rewrite He in Hin; by apply not_elem_of_empty in Hin).
      rewrite filter_cons_True by done.
      rewrite (Hfilter (add_sent [ClientSend c (ev_msg name msg)] s) eq_refl).
      cbn. by rewrite <- !app_assoc.
    + rewrite try_send_fail in Hrun by done.
      rewrite filter_cons_False by done.
      destruct (decide (c = "")) as [->|Hne].
      * rewrite remove_nobody_eq in Hrun by done.
        destruct (finish_removal_spec name s)
          as (s1 & Hfin & Hp1 & _ & _ & _ & Hcs1 & Hcc1 & Hsent1 & _).
        rewrite Hfin in Hrun.
        assert (Hsub1 : ∀ c', c' ∈ l → c' ∈ client_subscribers s1 !!! name).
        { intros c' Hc'. rewrite Hcs1. apply Hsub. by right. }
        rewrite (IH _ Hnd Hsub1 s' Hrun).
        assert (Hin : "" ∈ client_subscribers s' !!! name).
        { apply (Hstays _ Hcc1 Hsub1 Hrun "" Hc). rewrite Hcs1. apply Hsub. by left. }
        rewrite !decide_False by (intros [_ He]; rewrite He in Hin; by apply not_elem_of_empty in Hin).
        by rewrite Hsent1, (Hfilter _ Hcc1).
      * assert (Hin : c ∈ client_subscribers s !!! name) by (apply Hsub; by left).
        destruct (remove_client_subscriber_sent name None c s eq_refl Hne Hin) as [Hsent1 _].
        destruct (remove_client_subscriber_spec name None c s eq_refl Hne Hin)
          as (s1 & out1 & Hrm & _ & _ & Hcc1 & Hp1 & _ & Hcs1 & _).
        rewrite Hrm in Hsent1, Hrun. cbn [snd] in Hsent1.
        assert (Hsub1 : ∀ c', c' ∈ l → c' ∈ client_subscribers s1 !!! name).
        { intros c' Hc'. rewrite Hcs1. apply elem_of_difference. split.
          - apply Hsub. by right.
          - intros ->%elem_of_singleton. done. }
        rewrite (IH _ Hnd Hsub1 s' Hrun), Hsent1, (Hfilter _ Hcc1), Hp1.
        destruct (decide (client_subscribers s !!! name ∖ {[c]} = ∅)) as [He|He].
        -- assert (l = []) as ->.
           { destruct l as [|c' l]; [done|].
             assert (c' ∈ client_subscribers s1 !!! name) as Hc' by (apply Hsub1; left).
             rewrite Hcs1, He in Hc'. by apply not_elem_of_empty in Hc'. }
           cbn in Hrun. injection Hrun as <-.
           rewrite decide_False by (by intros [? _]).
           rewrite decide_True by (split; [done|by rewrite Hcs1]).
           cbn. by rewrite !app_nil_r.
        -- rewrite app_nil_r.
           destruct (decide (client_subscribers s' !!! name = ∅)) as [He'|He'].
           ++ assert (l ≠ []) as Hl.
              { intros ->. cbn in Hrun. injection Hrun as <-. by rewrite Hcs1 in He'. }
              by rewrite !decide_True by done.
           ++ by rewrite !decide_False by (by intros [_ ?]).
Qed.

Lemma with_sent_id s : with_sent (sent s) s = s.
Proof. by destruct s. Qed.

Lemma framed_ret {A} (a : A) : framed (mret a).
Proof.
  intros s. exists []. rewrite run_ret. split; cbn; [by rewrite app_nil_r|].
  intros l. by rewrite run_ret, app_nil_r.
Qed.

Lemma framed_raise {A} e : framed (raise e : M t A).
Proof.
  intros s. exists []. unfold raise. split; cbn; [by rewrite app_nil_r|].
  intros l. by rewrite app_nil_r.
Qed.

Lemma framed_bind {A B} (m : M t A) (f : A → M t B) :
  framed m → (∀ a, framed (f a)) → framed (m ≫= f).
Proof.
  intros Hm Hf s. destruct (Hm s) as (out1 & Hs1 & E1).
  rewrite run_bind. destruct (m s) as [[a|e] s1] eqn:Hms; cbn in Hs1, E1.
  - destruct (Hf a s1) as (out2 & Hs2 & E2). exists (out1 ++ out2). split.
    + by rewrite Hs2, Hs1, app_assoc.
    + intros l. rewrite run_bind, E1, E2. by rewrite app_assoc.
  - exists out1. split; [done|]. intros l. by rewrite run_bind, E1.
Qed.

Lemma framed_tables {A} (m : M t A) :
  (∀ s l, m (with_sent l s) = ((m s).1, with_sent l (m s).2)) →
  (∀ s, sent (m s).2 = sent s) →
  framed m.
Proof.
  intros Hm Hs s. exists []. split; [by rewrite Hs, app_nil_r|].
  intros l. by rewrite Hm, app_nil_r.
Qed.

Lemma framed_getitem T name : framed (getitem T name).
Proof.
  apply framed_tables; intros s; [intros l|]; rewrite !getitem_eq; by destruct T.
Qed.

Lemma framed_store T name (v : gset string) :
  framed (modify (λ s, set_tbl T (<[name := v]> (tbl T s)) s)).
Proof. apply framed_tables; intros s; [intros l|]; by destruct T. Qed.

Lemma framed_set_remove T name x : framed (set_remove T name x).
Proof.
  unfold set_remove. apply framed_bind; [apply framed_getitem|]. intros v.
  destruct (decide _); [apply framed_store|apply framed_raise].
Qed.

Lemma framed_delitem T name : framed (delitem T name).
Proof.
  apply framed_tables; intros s; [intros l|]; unfold delitem;
    destruct T; cbn; by destruct (_ !! name).
Qed.

Lemma framed_worker_send addr m : framed (worker_send addr m).
Proof. intros s. exists [WorkerSend addr m]. by split. Qed.

Lemma framed_for {A} (l : list A) (body : A → M t unit) :
  (∀ x, framed (body x)) → framed (for_ l body).
Proof.
  intros Hb. induction l as [|x l IH]; cbn [for_].
  - apply framed_ret.
  - apply framed_bind; [apply Hb|]. by intros _.
Qed.

Lemma framed_finish_removal name : framed (finish_removal name).
Proof.
  unfold finish_removal, no_workers_left, drop_topic.
  apply framed_bind.
  - apply framed_bind; [apply framed_getitem|]. intros subs.
    destruct (is_empty subs); [|apply framed_ret].
    apply framed_bind; [apply framed_getitem|]. intros pubs. apply framed_ret.
  - intros [|]; [|apply framed_ret].
    apply framed_bind; [apply framed_delitem|]. intros _. apply framed_delitem.
Qed.

Lemma framed_remove_subscriber name worker client :
  framed (remove_subscriber name worker client).
Proof.
  rewrite remove_subscriber_unfold.
  apply framed_bind; [|intros _; apply framed_finish_removal].
  destruct (as_truthy worker) as [w|]; [|destruct (as_truthy client) as [c|]].
  - apply framed_bind; [apply framed_set_remove|]. intros _.
    apply framed_bind; [apply framed_getitem|]. intros pubs.
    apply framed_for. intros pub. apply framed_worker_send.
  - apply framed_bind; [apply framed_set_remove|]. intros _.
    apply framed_bind; [apply framed_getitem|]. intros cs.
    destruct (is_empty cs); [|apply framed_ret].
    apply framed_bind; [apply framed_delitem|]. intros _.
    apply framed_bind; [apply framed_getitem|]. intros pubs.
    apply framed_for. intros pub. apply framed_worker_send.
  - apply framed_ret.
Qed.

Lemma same_tables_with_sent l s : same_tables (with_sent l s) s.
Proof. by repeat split. Qed.

Lemma remove_failed_client name c s :
  c ∈ client_subscribers s !!! name →
  ∃ s1,
    remove_subscriber name None (Some c) s = (Returned tt, s1) ∧
    client_comms s1 = client_comms s ∧
    (∀ c', c' ≠ c → c' ∈ client_subscribers s !!! name →
           c' ∈ client_subscribers s1 !!! name).
Proof.
  intros Hin. destruct (decide (c = "")) as [->|Hne].
  - rewrite remove_nobody_eq by done.
    destruct (finish_removal_spec name s)
      as (s1 & -> & _ & _ & _ & _ & Hcs & Hcc & _).
    exists s1. split_and!; [done|done|]. intros c' _ Hc'. by rewrite Hcs.
  - destruct (remove_client_subscriber_spec name None c s)
      as (s1 & out1 & -> & _ & _ & Hcc & _ & _ & Hcs & _); [done|done|done|].
    exists s1. split_and!; [done|done|]. intros c' Hc' Hin'. rewrite Hcs.
    apply elem_of_difference. split; [done|]. by intros ->%elem_of_singleton.
Qed.

Lemma worker_sends_only name (out : list send) :
  Forall (λ x, ∃ pub, x = WorkerSend pub (ev_publish_scheduler name false)) out →
  omap (λ x, match client_of x with None => Some x | Some _ => None end) out = out.
Proof.
  induction 1 as [|x out [pub ->] _ IH]; [done|]. cbn. by rewrite IH.
Qed.

(** The loop, seen as the removals it stands for: calling
    [remove_subscriber(name, client=c)] for the clients whose send failed
    leaves the same tables, and sends what the loop sends to workers. *)
Lemma relay_as_removals name msg l : ∀ s lb,
  NoDup l →
  (∀ c, c ∈ l → c ∈ client_subscribers s !!! name) →
  ∃ b' out,
    for_ (filter (λ c, ¬ can_send s c) l)
         (λ c, remove_subscriber name None (Some c)) (with_sent lb s)
      = (Returned tt, b') ∧
    same_tables b'
      (for_ l (λ c, try_except (client_send c (ev_msg name msg)) caught
                               (remove_subscriber name None (Some c))) s).2 ∧
    sent (for_ l (λ c, try_except (client_send c (ev_msg name msg)) caught
                               (remove_subscriber name None (Some c))) s).2
      = sent s ++ out ∧
    sent b' = lb ++ omap (λ x, match client_of x with
                               | None => Some x
                               | Some _ => None
                               end) out.
Proof.
  induction l as [|c l IH]; intros s lb Hnd Hsub.
  - exists (with_sent lb s), []. split_and!; [done|apply same_tables_with_sent| |].
    + cbn. by rewrite app_nil_r.
    + cbn. by rewrite app_nil_r.
  - apply NoDup_cons in Hnd as [Hc Hnd]. cbn [for_]. rewrite run_bind.
    destruct (decide (can_send s c)) as [Hok|Hko].
    + rewrite filter_cons_False by (by intros H; apply H).
      rewrite try_send_ok by done.
      destruct (IH (add_sent [ClientSend c (ev_msg name msg)] s) lb Hnd)
        as (b' & out & Hrun & Hsame & Hout & Hb).
      { intros c' Hc'. apply Hsub. by right. }
      exists b', (ClientSend c (ev_msg name msg) :: out).
      split_and!; [exact Hrun|exact Hsame| |exact Hb].
      rewrite Hout. cbn. by rewrite <- app_assoc.
    + rewrite filter_cons_True by done.
      rewrite try_send_fail by done.
      destruct (remove_failed_client name c s) as (s1 & Hrm & Hcc & Hkeep);
        [apply Hsub; by left|].
      destruct (framed_remove_subscriber name None (Some c) s) as (out1 & Hout1 & Hframe).
      rewrite Hrm in Hframe, Hout1. cbn [fst snd] in Hframe, Hout1.
      assert (Hws : omap (λ x, match client_of x with
                               | None => Some x
                               | Some _ => None
                               end) out1 = out1).
      { destruct (decide (c = "")) as [->|Hne].
        - rewrite remove_nobody_eq in Hrm by done.
          destruct (finish_removal_spec name s) as (s1' & Hfin & _ & _ & _ & _ & _ & _ & Hsent & _).
          rewrite Hfin in Hrm. injection Hrm as <-.
          assert (out1 = []) as ->; [|done].
          apply (app_inv_head (sent s)). by rewrite app_nil_r, <- Hout1.
        - destruct (remove_client_subscriber_spec name None c s)
            as (s1' & out1' & Hrm' & Hsent & Hall & _); [done|done|apply Hsub; by left|].
          rewrite Hrm in Hrm'. injection Hrm' as <-.
          rewrite Hout1 in Hsent. apply app_inv_head in Hsent. subst out1'.
          by eapply worker_sends_only. }
      destruct (IH s1 (lb ++ out1) Hnd) as (b' & out & Hrun & Hsame & Hout & Hb).
      { intros c' Hc'. apply Hkeep; [by intros ->|]. apply Hsub. by right. }
      exists b', (out1 ++ out). rewrite Hrm. split_and!; [|exact Hsame| |].
      * cbn [for_]. rewrite run_bind, Hframe.
        rewrite <- Hrun. f_equal. apply list_filter_iff.
        intros c'. unfold can_send. by rewrite Hcc.
      * rewrite Hout, Hout1. by rewrite <- app_assoc.
      * rewrite Hb, omap_app, Hws. by rewrite <- app_assoc.
Qed.

(** C7.  [handle_message] returns, and what it sends is exactly this, in
    this order.  First the message [pubsub-msg] on the stream of every client
    in [client_subscribers[name]] whose stream accepts it, once each.  Then,
    if the topic had client subscribers and the failed sends have removed
    them all, the notice [pubsub-publish-scheduler] with [publish=False] to
    every worker in [publishers[name]], which is what the last
    [remove_subscriber(name, client=c)] sends.  Then, exactly when the
    [client] argument is truthy, the message to every worker in
    [subscribers[name]].  A client whose send failed is gone from
    [client_subscribers[name]] afterwards (an identity that is the empty
    string is falsy for [remove_subscriber] and stays); the sets of
    publishers and of worker subscribers are unchanged.  Each failed send
    counts as a call [remove_subscriber(name, client=c)]: these calls, made
    one after the other for the clients whose send failed, all return, send
    exactly the notices above, and leave the tables as [handle_message]
    leaves them, up to its read of [subscribers[name]] when the sender is a
    client. *)
Theorem handle_message_relays (name : string) (msg : payload)
    (worker client : option string) (s : t) :
  let cs := client_subscribers s !!! name in
  ∃ s' s2,
    let to_clients :=
      (λ c, ClientSend c (ev_msg name msg)) <$> filter (can_send s) (elements cs) in
    let notices :=
      if decide (cs ≠ ∅ ∧ client_subscribers s' !!! name = ∅)
      then (λ pub, WorkerSend pub (ev_publish_scheduler name false)) <$>
             elements (publishers s !!! name)
      else [] in
    let to_workers :=
      if truthy client
      then (λ w, WorkerSend w (ev_msg name msg)) <$> elements (subscribers s !!! name)
      else [] in
    handle_message name msg worker client s = (Returned tt, s') ∧
    sent s' = sent s ++ to_clients ++ notices ++ to_workers ∧
    client_comms s' = client_comms s ∧
    (∀ c, c ∈ client_subscribers s' !!! name ↔ c ∈ cs ∧ (can_send s c ∨ c = "")) ∧
    (∀ topic, publishers s' !!! topic = publishers s !!! topic) ∧
    (∀ topic, subscribers s' !!! topic = subscribers s !!! topic) ∧
    for_ (filter (λ c, ¬ can_send s c) (elements cs))
         (λ c, remove_subscriber name None (Some c))
         (touch ClientSubscribers name s)
      = (Returned tt, s2) ∧
    sent s2 = sent s ++ notices ∧
    same_tables s' (if truthy client then touch Subscribers name s2 else s2).
Proof.
  intros cs. unfold handle_message. rewrite run_bind, getitem_eq. cbn [tbl].
  fold cs.
  assert (Hnd : NoDup (elements cs)) by apply NoDup_elements.
  assert (Hsub : ∀ c, c ∈ elements cs →
            c ∈ client_subscribers (touch ClientSubscribers name s) !!! name).
  { intros c Hc. cbn. rewrite lookup_total_insert_eq. by apply elem_of_elements. }
  destruct (relay_as_removals name msg (elements cs) (touch ClientSubscribers name s)
              (sent (touch ClientSubscribers name s)) Hnd Hsub)
    as (s2 & out2 & Hrm & Hst & Hout2 & Hs2).
  rewrite with_sent_id in Hrm.
  destruct (relay_loop name msg (elements cs) (touch ClientSubscribers name s) Hnd Hsub)
    as (s1 & out & Hrun & Hsent & Hcc & Hp & Hs & Hcs & _).
  pose proof (relay_loop_sent name msg (elements cs) (touch ClientSubscribers name s)
                Hnd Hsub s1 Hrun) as Hexact.
  rewrite Hrun in Hst, Hout2. cbn [snd] in Hst, Hout2.
  cbn in Hsent, Hcc, Hp, Hs, Hcs, Hexact, Hout2, Hs2.
  rewrite lookup_total_insert_eq in Hcs. fold cs in Hcs.
  assert (Hcs' : ∀ c, c ∈ client_subscribers s1 !!! name ↔ c ∈ cs ∧ (can_send s c ∨ c = "")).
  { intros c. rewrite Hcs. split; intros [H1 H2]; (split; [done|]).
    - apply H2. by apply elem_of_elements.
    - done. }
  assert (Hne : elements cs ≠ [] ↔ cs ≠ ∅).
  { split; intros H He; apply H.
    - by rewrite He, elements_empty.
    - by apply elements_empty_inv, leibniz_equiv in He. }
  set (notices := if decide (cs ≠ ∅ ∧ client_subscribers s1 !!! name = ∅)
                  then (λ pub, WorkerSend pub (ev_publish_scheduler name false)) <$>
                         elements (publishers s !!! name)
                  else []).
  assert (Hexact' : sent s1 = sent s ++
            ((λ c, ClientSend c (ev_msg name msg)) <$> filter (can_send s) (elements cs)) ++
            notices).
  { rewrite Hexact. do 2 f_equal. subst notices.
    destruct (decide (cs ≠ ∅ ∧ _)) as [[H1 H2]|Hn].
    - rewrite decide_True; [done|]. split; [by apply Hne|done].
    - rewrite decide_False; [done|]. intros [H1 H2]. apply Hn. split; [by apply Hne|done]. }
  assert (Hs2' : sent s2 = sent s ++ notices).
  { rewrite Hs2. f_equal.
    rewrite Hexact' in Hout2. apply app_inv_head in Hout2. subst out2.
    rewrite omap_app.
    assert (∀ l : list string,
              omap (λ x, match client_of x with None => Some x | Some _ => None end)
                   ((λ c, ClientSend c (ev_msg name msg)) <$> l) = []) as ->.
    { induction l as [|c l IHl]; [done|]. cbn. apply IHl. }
    cbn. subst notices. destruct (decide _); [|done].
    eapply worker_sends_only. apply Forall_fmap, Forall_forall. intros pub _. by exists pub. }
  destruct Hst as (Hst1 & Hst2 & Hst3 & Hst4).
  rewrite run_bind, Hrun.
  destruct (truthy client) eqn:Et.
  - rewrite run_bind, getitem_eq, for_worker_send. cbn [tbl].
    eexists _, s2. cbv zeta. split; [reflexivity|]. cbn.
    split_and!; try done.
    + rewrite Hexact', Hs. by rewrite <- !app_assoc.
    + intros topic. rewrite lookup_total_touch. apply Hs.
    + unfold same_tables. cbn. by rewrite Hst1, Hst2, Hst3, Hst4.
  - rewrite run_ret. exists s1, s2. cbv zeta. split_and!; try done.
    rewrite Hexact'. by rewrite app_nil_r.
Qed.

Lemma add_subscriber_returns name worker client s :
  ∃ s', add_subscriber name worker client s = (Returned tt, s').
Proof.
  unfold add_subscriber. destruct (as_truthy worker) as [w|].
  - rewrite run_bind, set_add_eq. rewrite run_bind, getitem_eq, for_worker_send. eauto.
  - destruct (as_truthy client) as [c|]; [|by rewrite run_ret; eauto].
    rewrite run_bind, getitem_eq. rewrite run_bind, for_worker_send.
    rewrite set_add_eq. eauto.
Qed.

Lemma advertised_present topic s : advertised topic s → present topic s.
Proof.
  unfold advertised, present. rewrite !lookup_total_alt.
  intros [H|[H|H]]; [left|right; left|right; right].
  - by destruct (publishers s !! topic).
  - by destruct (subscribers s !! topic).
  - by destruct (client_subscribers s !! topic).
Qed.

(** C2 (the code departs from the claim).  A message for a topic nobody has
    registered leaves the topic as a key of the scheduler's tables although
    its three sets are empty: the state is reached from the initial one by a
    single [handle_message], and directory minimality fails in it. *)
Theorem message_for_unknown_topic_leaves_empty_entry :
  ∃ s, reachable s ∧ present "t" s ∧ ¬ advertised "t" s.
Proof.
  exists (serve_all [HandleMessage "t" "m" None (Some "c")] (init ∅)).
  split_and!.
  - by exists ∅, [HandleMessage "t" "m" None (Some "c")].
  - right; left. vm_compute. eauto.
  - intros [H|[H|H]]; apply H; vm_compute; reflexivity.
Qed.

(** C8, as stated, fails: with one client subscribed to ["t"], a
    [remove-publisher] for a worker that is no publisher of ["t"] leaves
    [publishers["t"]] and [subscribers["t"]] empty and the entry of ["t"] in
    the publisher table in place. *)
Lemma remove_publisher_of_stranger_keeps_entry :
  ¬ drops_unused (RemovePublisher "t" (Some "w"))
                 (serve_all [AddSubscriber "t" None (Some "c")] (init ∅)).
Proof.
  unfold drops_unused. intros H.
  destruct H as [H _]; [vm_compute; reflexivity|vm_compute; reflexivity|].
  vm_compute in H. discriminate.
Qed.

(** C8, amended.  When the worker or client that a [remove-publisher] or
    [remove-subscriber] event names is registered under the topic, the
    handler returns, and if the topic is then left without publishers and
    without worker subscribers its entries in the publisher and subscriber
    tables are gone; [client_subscribers] plays no part in this. *)
Theorem removal_of_member_drops_unused_topic (r : request) (s : t) :
  names_member r s →
  (serve r s).1 = Returned tt ∧ drops_unused r s.
Proof.
  unfold drops_unused.
  destruct r as [name w|name w c|name [w|]|name w c|name msg w c]; cbn [names_member];
    try done; cbn [serve topic_of]; intros Hin.
  - destruct (remove_publisher_spec name w s Hin) as (s' & -> & _ & _ & _ & _ & _ & _ & Hd).
    done.
  - destruct (as_truthy w) as [w'|] eqn:Ew.
    + destruct (remove_worker_subscriber_spec name w c w' s Ew Hin)
        as (s' & -> & _ & _ & _ & _ & _ & _ & Hd). done.
    + destruct (as_truthy c) as [c'|] eqn:Ec.
      * apply as_truthy_inv in Ec as [-> Hne].
        destruct (remove_client_subscriber_spec name w c' s Ew Hne Hin)
          as (s' & out & -> & _ & _ & _ & _ & _ & _ & _ & Hd). done.
      * rewrite remove_nobody_eq by done.
        destruct (finish_removal_spec name s) as (s' & -> & Hp & Hs & _ & _ & _ & _ & _ & Hd).
        split; [done|]. cbn. intros Hp' Hs'. apply Hd; congruence.
Qed.

Lemma removal_of_member_drops_unused_topic_witness :
  let s := Scheduler {["t" := {["w"]}]} ∅ {["t" := {["c"]}]} ∅ [] in
  names_member (RemovePublisher "t" (Some "w")) s ∧
  (serve (RemovePublisher "t" (Some "w")) s).1 = Returned tt ∧
  drops_unused (RemovePublisher "t" (Some "w")) s.
Proof.
  cbv zeta.
  assert (H : names_member (RemovePublisher "t" (Some "w"))
                (Scheduler {["t" := {["w"]}]} ∅ {["t" := {["c"]}]} ∅ [])).
  { vm_compute. reflexivity. }
  split; [exact H|].
  exact (removal_of_member_drops_unused_topic _ _ H).
Defined.

End SchedulerFacts.

Module PubFacts.
Import Endpoint Pub.

Lemma read_eq p self σ : pubs σ !! p = Some self → read p σ = (Returned self, σ).
Proof. intros H. unfold read. by rewrite H. Qed.

Lemma set_outbox_nil σ : set_outbox (λ o, o ++ []) σ = σ.
Proof. destruct σ. unfold set_outbox. cbn. by rewrite app_nil_r. Qed.

Lemma for_send_from {A} p (l : list A) (ch : A → channel) (m : A → wire) σ :
  for_ l (λ x, send_from p (ch x) (m x)) σ =
  (Returned tt, set_outbox (λ o, o ++ ((λ x, Sending p (ch x) (m x)) <$> l)) σ).
Proof.
  revert σ. induction l as [|a l IH]; intros σ.
  - simpl. by rewrite run_ret, set_outbox_nil.
  - simpl. rewrite run_bind. unfold send_from at 1, modify. rewrite IH.
    unfold set_outbox. cbn. by rewrite <- app_assoc.
Qed.

Lemma for_put p (l : list payload) σ :
  for_ l (λ msg, put p msg) σ =
  (Returned tt, set_loop (λ q, q ++ (CbPut p <$> l)) σ).
Proof.
  revert σ. induction l as [|a l IH]; intros σ.
  - simpl. rewrite run_ret. destruct σ. unfold set_loop. cbn. by rewrite app_nil_r.
  - simpl. rewrite run_bind. unfold put at 1, add_callback, modify. rewrite IH.
    unfold set_loop. cbn. by rewrite <- app_assoc.
Qed.

Lemma _put_pending p self msg σ :
  pubs σ !! p = Some self → _started self = false →
  _put p msg σ =
  (Returned tt,
   set_pubs (insert p (MkPub (subscribers self) (worker self) (client self)
                             (name self) false (_buffer self ++ [msg]))) σ).
Proof.
  intros Hp Hs. unfold _put. rewrite run_bind, (read_eq _ _ _ Hp), Hs. done.
Qed.

Lemma _put_started p self msg σ :
  pubs σ !! p = Some self → _started self = true →
  _put p msg σ =
  (Returned tt,
   set_outbox (λ o, o ++ emission p self
                 (default false (publish_to_scheduler σ !! name self)) msg)
     (match worker self with Some _ => touch_flag (name self) σ | None => σ end)).
Proof.
  intros Hp Hs. unfold _put, emission.
  rewrite run_bind, (read_eq _ _ _ Hp), Hs. cbn [negb].
  destruct (worker self) as [a|].
  - rewrite run_bind, for_send_from, run_bind.
    unfold publish_to_scheduler_getitem, touch_flag, dd_getitem. cbn.
    destruct (publish_to_scheduler σ !! name self) as [[]|] eqn:E;
      unfold send_from, modify, set_outbox, set_publish_to_scheduler, dd_getitem;
      cbn; rewrite ?E, ?run_ret; cbn; by rewrite <- ?app_assoc, ?app_nil_r.
  - destruct (client self) as [c|].
    + done.
    + rewrite run_ret. by rewrite set_outbox_nil.
Qed.

Lemma keys_NoDup {V} (d : gmap string V) : NoDup (keys d).
Proof. apply NoDup_fst_map_to_list. Qed.

Lemma elem_of_keys {V} (d : gmap string V) k : k ∈ keys d ↔ is_Some (d !! k).
Proof.
  unfold keys. rewrite list_elem_of_fmap. split.
  - intros ([k' v] & -> & Hin). apply elem_of_map_to_list in Hin. by exists v.
  - intros [v Hv]. exists (k, v). split; [done|]. by apply elem_of_map_to_list.
Qed.

(** C6.  For a started publisher the emission task [_put] returns, leaves
    the objects as they are and appends to the outbox: on a worker, the event
    on [Direct] to every key of [self.subscribers], each key once, followed
    by one copy on the worker's scheduler stream exactly when
    [publish_to_scheduler[name]] is true; on a client, the event once on the
    client's scheduler stream and nothing else. *)
Theorem put_emission (p : nat) (self : pub) (msg : payload) (σ : process) :
  pubs σ !! p = Some self →
  _started self = true →
  let data := ev_msg (name self) (to_serialize msg) in
  let flag := default false (publish_to_scheduler σ !! name self) in
  ∃ σ' new,
    _put p msg σ = (Returned tt, σ') ∧
    outbox σ' = outbox σ ++ new ∧
    pubs σ' = pubs σ ∧
    match worker self, client self with
    | Some _, _ =>
        new = ((λ addr, Sending p (Direct addr) data) <$> keys (subscribers self)) ++
              (if flag then [Sending p BatchedStream data] else []) ∧
        NoDup (keys (subscribers self)) ∧
        (∀ addr, addr ∈ keys (subscribers self) ↔ is_Some (subscribers self !! addr))
    | None, Some c => new = [Sending p (SchedulerComm c) data]
    | None, None => new = []
    end.
Proof.
  intros Hp Hs data flag. rewrite (_put_started _ _ _ _ Hp Hs).
  eexists _, _. split; [reflexivity|]. split_and!.
  - by destruct (worker self).
  - by destruct (worker self).
  - unfold emission. destruct (worker self) as [a|].
    + split_and!; [done|apply keys_NoDup|apply elem_of_keys].
    + by destruct (client self).
Qed.

Lemma write_eq p self σ : write p self σ = (Returned tt, set_pubs (insert p self) σ).
Proof. reflexivity. Qed.

Lemma get_state_eq {S} (s : S) : get_state s = (Returned s, s).
Proof. reflexivity. Qed.

Lemma modify_eq {S} (f : S → S) s : modify f s = (Returned tt, f s).
Proof. reflexivity. Qed.

Lemma _start_finish_eq p self σ :
  pubs σ !! p = Some self →
  _start_finish p σ =
  (Returned tt,
   set_pubs (insert p (started self))
     (set_loop (λ q, q ++ (CbPut p <$> _buffer self)) σ)).
Proof.
  intros Hp. unfold _start_finish.
  rewrite run_bind, (read_eq _ _ _ Hp).
  rewrite run_bind, write_eq. cbv beta iota.
  rewrite run_bind, for_put. cbv beta iota.
  rewrite run_bind. erewrite read_eq by (cbn; apply lookup_insert_eq).
  rewrite write_eq.
  unfold set_pubs, set_loop, started. cbn.
  by rewrite insert_insert_eq.
Qed.

Lemma _start_resume_eq p r self σ :
  pubs σ !! p = Some self →
  _start_resume p r σ =
  (Returned tt,
   set_pubs (insert p (started (registered r self)))
     (set_loop (λ q, q ++ (CbPut p <$> _buffer self))
       (set_publish_to_scheduler
          (insert (name self) (PubSubSchedulerExtension.r_publish_scheduler r)) σ))).
Proof.
  intros Hp. unfold _start_resume.
  rewrite run_bind. erewrite read_eq by (cbn; exact Hp).
  rewrite run_bind, write_eq. cbv beta iota.
  rewrite run_bind. unfold PubSubWorkerExtension.publish_scheduler.
  rewrite modify_eq. cbv beta iota.
  erewrite _start_finish_eq by (cbn; apply lookup_insert_eq).
  unfold set_pubs, set_loop, set_publish_to_scheduler. cbn.
  by rewrite insert_insert_eq.
Qed.

Lemma loop_steps_pending p ms q : ∀ σ self,
  pubs σ !! p = Some self → _started self = false →
  loop σ = (CbPut p <$> ms) ++ q →
  let σ' := loop_steps (length ms) σ in
  pubs σ' = <[p := MkPub (subscribers self) (worker self) (client self)
                         (name self) false (_buffer self ++ ms)]> (pubs σ) ∧
  loop σ' = q ∧
  outbox σ' = outbox σ ∧
  publish_to_scheduler σ' = publish_to_scheduler σ ∧
  publishers σ' = publishers σ ∧
  awaiting σ' = awaiting σ.
Proof.
  induction ms as [|m ms IH]; intros σ self Hp Hs Hl.
  - cbn. rewrite app_nil_r. split_and!; try done.
    rewrite insert_id; [done|]. rewrite Hp. by destruct self; cbn in *; subst.
  - assert (Hstep : loop_step σ =
       set_pubs (insert p (MkPub (subscribers self) (worker self) (client self)
                                  (name self) false (_buffer self ++ [m])))
         (set_loop (λ _, (CbPut p <$> ms) ++ q) σ)).
    { unfold loop_step. rewrite Hl.
      cbn [fmap list_fmap app exec]. by rewrite (_put_pending p self). }
    cbn [length loop_steps]. rewrite Hstep.
    match goal with |- context [loop_steps _ ?x] => set (σ1 := x) end.
    destruct (IH σ1 (MkPub (subscribers self) (worker self) (client self)
                           (name self) false (_buffer self ++ [m])))
      as (H1 & H2 & H3 & H4 & H5 & H6).
    { subst σ1. cbn. apply lookup_insert_eq. }
    { done. }
    { done. }
    cbv zeta. rewrite H1, H2, H3, H4, H5, H6. subst σ1. cbn.
    rewrite insert_insert_eq, <- app_assoc. done.
Qed.

Lemma loop_steps_flush p self flag ms : ∀ σ,
  pubs σ !! p = Some self → _started self = true →
  is_Some (worker self) →
  publish_to_scheduler σ !! name self = Some flag →
  loop σ = CbPut p <$> ms →
  let σ' := loop_steps (length ms) σ in
  pubs σ' = pubs σ ∧
  loop σ' = [] ∧
  outbox σ' = outbox σ ++ concat (emission p self flag <$> ms) ∧
  publish_to_scheduler σ' = publish_to_scheduler σ ∧
  publishers σ' = publishers σ ∧
  awaiting σ' = awaiting σ.
Proof.
  induction ms as [|m ms IH]; intros σ Hp Hs [a Hw] Hf Hl.
  - cbn. by rewrite app_nil_r.
  - assert (Hstep : loop_step σ =
       set_outbox (λ o, o ++ emission p self flag m)
         (touch_flag (name self) (set_loop (λ _, CbPut p <$> ms) σ))).
    { unfold loop_step. rewrite Hl.
      cbn [fmap list_fmap exec]. rewrite (_put_started p self) by done.
      rewrite Hw. cbn. by rewrite Hf. }
    cbn [length loop_steps]. rewrite Hstep.
    match goal with |- context [loop_steps _ ?x] => set (σ1 := x) end.
    assert (Hpts : publish_to_scheduler σ1 = publish_to_scheduler σ).
    { subst σ1. cbn. unfold dd_getitem. by rewrite Hf. }
    destruct (IH σ1) as (H1 & H2 & H3 & H4 & H5 & H6);
      [done|done|by eexists|by rewrite Hpts|done|].
    cbv zeta. rewrite H1, H2, H3, H4, H5, H6. subst σ1. cbn.
    rewrite <- app_assoc. split_and!; done.
Qed.

Lemma put_all_eq p ms : ∀ σ,
  put_all p ms σ = set_loop (λ q, q ++ (CbPut p <$> ms)) σ.
Proof.
  induction ms as [|m ms IH]; intros σ.
  - cbn. destruct σ. unfold set_loop. cbn. by rewrite app_nil_r.
  - cbn. unfold put_all in IH. rewrite IH. unfold put, add_callback, modify, set_loop. cbn.
    by rewrite <- app_assoc.
Qed.
















(** *** Client-hosted publishers *)

Section store.
Context (σ : process) (p : nat) (self' : pub).
Hypothesis Hsame : ∀ self, pubs σ !! p = Some self →
  worker self' = worker self ∧ client self' = client self.

Lemma hosted_store q :
  hosted_on_worker σ q → hosted_on_worker (set_pubs (insert p self') σ) q.
Proof.
  intros (self & Hq & Hw). unfold hosted_on_worker. cbn.
  destruct (decide (p = q)) as [->|Hne].
  - exists self'. rewrite lookup_insert_eq. split; [done|].
    destruct (Hsame _ Hq) as [-> _]. done.
  - exists self. by rewrite lookup_insert_ne.
Qed.

Lemma cb_ok_store cb : cb_ok σ cb → cb_ok (set_pubs (insert p self') σ) cb.
Proof.
  destruct cb as [q|topic q|q m|q r]; cbn; try apply hosted_store.
  - intros [self Hq]. destruct (decide (p = q)) as [->|Hne].
    + rewrite lookup_insert_eq. eauto.
    + rewrite lookup_insert_ne by done. eauto.
  - intros [self Hq]. destruct (decide (p = q)) as [->|Hne].
    + rewrite lookup_insert_eq. eauto.
    + rewrite lookup_insert_ne by done. eauto.
Qed.

Lemma sending_ok_store x : sending_ok σ x → sending_ok (set_pubs (insert p self') σ) x.
Proof.
  intros (self & Hq & Hc). unfold sending_ok. cbn.
  destruct (decide (p = origin x)) as [Heq|Hne].
  - rewrite <- Heq in *. exists self'. rewrite lookup_insert_eq. split; [done|].
    destruct (Hsame _ Hq) as [-> ->]. done.
  - exists self. by rewrite lookup_insert_ne.
Qed.

Lemma consistent_store :
  consistent σ →
  (worker self' = None → subscribers self' = ∅) →
  consistent (set_pubs (insert p self') σ).
Proof.
  intros [I1 I2 I3 I4 I5] Hnew. split; cbn.
  - intros q self Hq Hw. destruct (decide (p = q)) as [->|Hne].
    + rewrite lookup_insert_eq in Hq. injection Hq as <-. by apply Hnew.
    + rewrite lookup_insert_ne in Hq by done. by eapply I1.
  - intros topic q Hq. apply hosted_store. by eapply I2.
  - eapply Forall_impl; [exact I3|]. apply cb_ok_store.
  - intros q Hq. apply hosted_store. by apply I4.
  - eapply Forall_impl; [exact I5|]. apply sending_ok_store.
Qed.
End store.

Lemma consistent_add_callbacks σ l :
  consistent σ → Forall (cb_ok σ) l → consistent (set_loop (λ q, q ++ l) σ).
Proof.
  intros [I1 I2 I3 I4 I5] Hl. split; try done. cbn. apply Forall_app. by split.
Qed.

Lemma consistent_pop σ cb rest :
  consistent σ → loop σ = cb :: rest →
  consistent (set_loop (λ _, rest) σ) ∧ cb_ok σ cb.
Proof.
  intros [I1 I2 I3 I4 I5] Hl. rewrite Hl in I3. apply Forall_cons in I3 as [? ?].
  split; [|done]. by split.
Qed.

Lemma consistent_send σ l :
  consistent σ → Forall (sending_ok σ) l → consistent (set_outbox (λ o, o ++ l) σ).
Proof.
  intros [I1 I2 I3 I4 I5] Hl. split; try done. cbn. apply Forall_app. by split.
Qed.

Lemma consistent_publishers σ m :
  consistent σ →
  (∀ topic p, p ∈ m !!! topic → p ∈ publishers σ !!! topic ∨ hosted_on_worker σ p) →
  consistent (set_publishers (λ _, m) σ).
Proof.
  intros [I1 I2 I3 I4 I5] Hm. split; try done. cbn.
  intros topic p Hp. destruct (Hm _ _ Hp) as [?|?]; [by eapply I2|done].
Qed.

Lemma consistent_flags σ f :
  consistent σ → consistent (set_publish_to_scheduler f σ).
Proof. by intros [I1 I2 I3 I4 I5]. Qed.

Lemma consistent_awaiting σ f :
  consistent σ →
  (∀ p, p ∈ f (awaiting σ) → p ∈ awaiting σ ∨ hosted_on_worker σ p) →
  consistent (set_awaiting f σ).
Proof.
  intros [I1 I2 I3 I4 I5] Hf. split; try done. cbn.
  intros p Hp. destruct (Hf _ Hp) as [?|?]; [by apply I4|done].
Qed.

Lemma extends_refl σ : extends σ σ.
Proof. intros p self Hp. by exists self. Qed.

Lemma extends_trans σ1 σ2 σ3 : extends σ1 σ2 → extends σ2 σ3 → extends σ1 σ3.
Proof.
  intros H12 H23 p self Hp.
  destruct (H12 _ _ Hp) as (self2 & Hp2 & Hw & Hc & Hn).
  destruct (H23 _ _ Hp2) as (self3 & Hp3 & Hw3 & Hc3 & Hn3).
  exists self3. split_and!; congruence.
Qed.

Lemma extends_same_pubs σ σ' : pubs σ' = pubs σ → extends σ σ'.
Proof. intros Hp p self Hs. exists self. by rewrite Hp. Qed.

Lemma extends_store σ p self' :
  (∀ self, pubs σ !! p = Some self →
     worker self' = worker self ∧ client self' = client self ∧ name self' = name self) →
  extends σ (set_pubs (insert p self') σ).
Proof.
  intros Hsame q self Hq. cbn. destruct (decide (p = q)) as [->|Hne].
  - exists self'. rewrite lookup_insert_eq. destruct (Hsame _ Hq) as (? & ? & ?). done.
  - exists self. by rewrite lookup_insert_ne.
Qed.

Lemma publishers_getitem_eq topic σ :
  publishers_getitem topic σ =
  (Returned (default ∅ (publishers σ !! topic)),
   set_publishers (λ _, (dd_getitem ∅ topic (publishers σ)).2) σ).
Proof.
  unfold publishers_getitem, dd_getitem. by destruct (publishers σ !! topic).
Qed.

Lemma __init___resolved topic w c σ :
  is_Some c ∨ is_Some w →
  ((if bool_decide (is_Some c ∨ is_Some w) then mret tt else raise AssertionError);;
   σ ← get_state;
   write (fresh (dom (pubs σ))) (MkPub ∅ w c topic false []);;
   add_callback (CbStart (fresh (dom (pubs σ))));;
   (if bool_decide (is_Some w)
    then publishers_getitem topic;;
         add_callback (CbRegister topic (fresh (dom (pubs σ))))
    else mret tt);;
   mret (fresh (dom (pubs σ)))) σ
  = (Returned (fresh (dom (pubs σ))), construct topic w c σ).
Proof.
  intros Hwc. rewrite (bool_decide_eq_true_2 (is_Some c ∨ is_Some w)) by exact Hwc.
  rewrite run_bind, run_ret. rewrite run_bind. unfold get_state at 1. cbv beta iota zeta.
  rewrite run_bind, write_eq. cbv beta iota.
  rewrite run_bind. unfold add_callback at 1. rewrite modify_eq. cbv beta iota.
  unfold construct. destruct w as [a|].
  - rewrite (bool_decide_eq_true_2 (is_Some (Some a))) by eauto.
    rewrite !run_bind, publishers_getitem_eq. cbv beta iota.
    unfold add_callback. by rewrite modify_eq, run_ret.
  - rewrite (bool_decide_eq_false_2 (is_Some None)) by (by intros [? ?]).
    by rewrite run_bind, !run_ret.
Qed.

Lemma __init___cases topic w0 c0 σ :
  (__init__ topic w0 c0 σ).2 = σ ∨
  ∃ w c, (is_Some c ∨ is_Some w) ∧ (__init__ topic w0 c0 σ).2 = construct topic w c σ.
Proof.
  unfold __init__. rewrite run_bind.
  destruct w0 as [w|], c0 as [c|].
  - rewrite run_ret. cbv beta iota. right. exists (Some w), (Some c).
    split; [eauto|]. exact (f_equal snd (__init___resolved topic (Some w) (Some c) σ ltac:(eauto))).
  - rewrite run_ret. cbv beta iota. right. exists (Some w), None.
    split; [eauto|]. exact (f_equal snd (__init___resolved topic (Some w) None σ ltac:(eauto))).
  - rewrite run_ret. cbv beta iota. right. exists None, (Some c).
    split; [eauto|]. exact (f_equal snd (__init___resolved topic None (Some c) σ ltac:(eauto))).
  - rewrite run_bind, get_state_eq. cbv beta iota.
    destruct (current_worker σ) as [w|].
    + rewrite run_ret. cbv beta iota. right. exists (Some w), None.
    split; [eauto|]. exact (f_equal snd (__init___resolved topic (Some w) None σ ltac:(eauto))).
    + destruct (current_client σ) as [c|].
      * rewrite run_ret. cbv beta iota. right. exists None, (Some c).
    split; [eauto|]. exact (f_equal snd (__init___resolved topic None (Some c) σ ltac:(eauto))).
      * by left.
Qed.

Lemma fresh_unused σ : pubs σ !! fresh (dom (pubs σ)) = None.
Proof. apply not_elem_of_dom. apply is_fresh. Qed.

Lemma sound_construct topic w c σ :
  consistent σ → sound σ (construct topic w c σ).
Proof.
  intros Hσ. unfold construct.
  set (p := fresh (dom (pubs σ))). set (new := MkPub ∅ w c topic false []).
  assert (Hfresh : ∀ self, pubs σ !! p = Some self → False).
  { intros self. subst p. by rewrite fresh_unused. }
  assert (H1 : consistent (set_pubs (insert p new) σ)).
  { apply consistent_store; [|done|done]. intros self Hs. by destruct (Hfresh self). }
  assert (Hnew : pubs (set_pubs (insert p new) σ) !! p = Some new).
  { cbn. apply lookup_insert_eq. }
  assert (H2 : consistent (set_loop (λ q, q ++ [CbStart p]) (set_pubs (insert p new) σ))).
  { apply consistent_add_callbacks; [done|]. constructor; [|done]. cbn.
    rewrite lookup_insert_eq. eauto. }
  assert (E : extends σ (set_pubs (insert p new) σ)).
  { apply extends_store. intros self Hs. by destruct (Hfresh self). }
  destruct w as [a|]; cbv zeta.
  - split.
    + apply consistent_add_callbacks.
      * apply consistent_publishers; [done|]. intros t q Hq. left. cbn in *.
        unfold dd_getitem in Hq. destruct (publishers σ !! topic) eqn:Et; cbn in Hq; [done|].
        destruct (decide (topic = t)) as [->|Hne].
        -- rewrite lookup_total_insert_eq in Hq. by apply not_elem_of_empty in Hq.
        -- by rewrite lookup_total_insert_ne in Hq.
      * constructor; [|done]. exists new. cbn. rewrite lookup_insert_eq. split; [done|].
        subst new. cbn. eauto.
    + eapply extends_trans; [exact E|]. by apply extends_same_pubs.
  - split; [done|]. eapply extends_trans; [exact E|]. by apply extends_same_pubs.
Qed.

Lemma sound_refl σ : consistent σ → sound σ σ.
Proof. intros H. split; [done|apply extends_refl]. Qed.

Lemma sound_put p msg σ :
  consistent σ → is_Some (pubs σ !! p) → sound σ (put p msg σ).2.
Proof.
  intros Hσ Hp. split.
  - apply consistent_add_callbacks; [done|]. by constructor.
  - by apply extends_same_pubs.
Qed.

Lemma emission_ok σ p self flag msg :
  pubs σ !! p = Some self → Forall (sending_ok σ) (emission p self flag msg).
Proof.
  intros Hp. unfold emission. destruct (worker self) as [a|] eqn:Hw.
  - apply Forall_app. split.
    + apply Forall_fmap, Forall_true. intros addr. exists self. cbn. split; [done|].
      by rewrite Hw.
    + destruct flag; [|done]. constructor; [|done]. exists self. cbn.
      split; [done|]. by rewrite Hw.
  - destruct (client self) as [c|] eqn:Hc; [|done].
    constructor; [|done]. exists self. cbn. split; [done|]. eauto.
Qed.

Lemma sound__put p msg σ :
  consistent σ → is_Some (pubs σ !! p) → sound σ (_put p msg σ).2.
Proof.
  intros Hσ [self Hp]. destruct (_started self) eqn:Hs.
  - rewrite (_put_started p self) by done. cbn [snd]. split.
    + apply consistent_send.
      * destruct (worker self); [by apply consistent_flags|done].
      * eapply Forall_impl; [by apply (emission_ok σ)|].
        intros x Hx. by destruct (worker self).
    + apply extends_same_pubs. by destruct (worker self).
  - rewrite (_put_pending p self) by done. cbn [snd]. split.
    + apply consistent_store; [|done|].
      * by intros ? [= <-]%(eq_trans (eq_sym Hp)).
      * cbn. by apply (inv_client_pubs σ Hσ p).
    + apply extends_store. by intros ? [= <-]%(eq_trans (eq_sym Hp)).
Qed.

Lemma sound__start_finish p self σ :
  consistent σ → pubs σ !! p = Some self →
  (worker self = None → subscribers self = ∅) →
  (∀ old, pubs σ !! p = Some old →
     worker self = worker old ∧ client self = client old ∧ name self = name old) →
  sound σ (set_pubs (insert p (started self))
             (set_loop (λ q, q ++ (CbPut p <$> _buffer self)) σ)).
Proof.
  intros Hσ Hp Hsub Hold. split.
  - apply consistent_store.
    + intros old Ho. cbn in Ho. destruct (Hold _ Ho) as (? & ? & ?). done.
    + apply consistent_add_callbacks; [done|].
      apply Forall_fmap, Forall_true. intros m. cbn. eauto.
    + done.
  - eapply extends_trans; [|apply extends_store].
    + by apply extends_same_pubs.
    + intros old Ho. cbn in Ho. by apply Hold.
Qed.

Lemma sound__start p σ :
  consistent σ → is_Some (pubs σ !! p) → sound σ (_start p σ).2.
Proof.
  intros Hσ [self Hp]. unfold _start. rewrite run_bind, (read_eq _ _ _ Hp).
  destruct (worker self) as [a|] eqn:Hw.
  - rewrite run_bind. unfold send_from. rewrite !modify_eq. cbn [snd]. split.
    + apply consistent_awaiting.
      * apply consistent_send; [done|]. constructor; [|done].
        exists self. cbn. split; [done|]. by rewrite Hw.
      * intros q [->%elem_of_singleton|Hq]%elem_of_union; [|by left].
        right. exists self. cbn. split; [done|]. by rewrite Hw.
    + by apply extends_same_pubs.
  - rewrite (_start_finish_eq p self) by done. cbn [snd].
    apply sound__start_finish; try done.
    + intros _. by apply (inv_client_pubs σ Hσ p).
    + by intros ? [= <-]%(eq_trans (eq_sym Hp)).
Qed.

Lemma sound_register topic p σ :
  consistent σ → hosted_on_worker σ p →
  sound σ (set_publishers (λ m, <[topic := {[p]} ∪ default ∅ (m !! topic)]> m) σ).
Proof.
  intros Hσ Hp. split; [|by apply extends_same_pubs].
  apply (consistent_publishers σ
           (<[topic := {[p]} ∪ default ∅ (publishers σ !! topic)]> (publishers σ)));
    [done|].
  intros t q Hq. destruct (decide (topic = t)) as [->|Hne].
  - rewrite lookup_total_insert_eq in Hq.
    apply elem_of_union in Hq as [->%elem_of_singleton|Hq]; [by right|].
    left. by rewrite lookup_total_alt.
  - rewrite lookup_total_insert_ne in Hq by done. by left.
Qed.

Lemma sound_resume p r σ :
  consistent σ → hosted_on_worker σ p → sound σ (_start_resume p r σ).2.
Proof.
  intros Hσ (self & Hs & a & Hw).
  rewrite (_start_resume_eq p r self) by done. cbn [snd].
  set (σ0 := set_publish_to_scheduler _ _).
  assert (H0 : consistent σ0) by by apply consistent_flags.
  assert (E0 : extends σ σ0) by by apply extends_same_pubs.
  split.
  - apply consistent_store.
    + intros old Ho. cbn in Ho. rewrite Hs in Ho. by injection Ho as <-.
    + apply consistent_add_callbacks; [done|].
      apply Forall_fmap, Forall_true. intros m. cbn. eauto.
    + cbn. by rewrite Hw.
  - eapply extends_trans; [exact E0|]. eapply extends_trans; [|apply extends_store].
    + by apply extends_same_pubs.
    + intros old Ho. cbn in Ho. rewrite Hs in Ho. by injection Ho as <-.
Qed.

Lemma sound_reply p r σ :
  consistent σ → p ∈ awaiting σ → sound σ (reply_arrives p r σ).2.
Proof.
  intros Hσ Hp. pose proof (inv_awaiting σ Hσ p Hp) as Hh.
  split; [|by apply extends_same_pubs].
  apply (consistent_add_callbacks (set_awaiting (λ a, a ∖ {[p]}) σ)).
  - apply consistent_awaiting; [done|].
    intros q Hq. left. by apply elem_of_difference in Hq as [? _].
  - constructor; [|done]. exact Hh.
Qed.

Lemma sound_loop_step σ : consistent σ → sound σ (loop_step σ).
Proof.
  intros Hσ. unfold loop_step. destruct (loop σ) as [|cb rest] eqn:Hl.
  - by apply sound_refl.
  - destruct (consistent_pop σ cb rest Hσ Hl) as [H0 Hcb].
    assert (E0 : extends σ (set_loop (λ _, rest) σ)) by by apply extends_same_pubs.
    assert (G : sound (set_loop (λ _, rest) σ) (exec cb (set_loop (λ _, rest) σ)).2).
    { destruct cb as [p|topic p|p msg|p r]; cbn [exec].
      - by apply sound__start.
      - rewrite modify_eq. cbn [snd]. by apply sound_register.
      - by apply sound__put.
      - by apply sound_resume. }
    destruct G as [G1 G2]. split; [done|]. eapply extends_trans; [exact E0|exact G2].
Qed.

Lemma consistent_touch topic σ :
  consistent σ →
  consistent (set_publishers (λ _, (dd_getitem ∅ topic (publishers σ)).2) σ).
Proof.
  intros Hσ. apply consistent_publishers; [done|]. intros t q Hq. left.
  unfold dd_getitem in Hq. destruct (publishers σ !! topic) eqn:Et; cbn in Hq; [done|].
  destruct (decide (topic = t)) as [->|Hne].
  - rewrite lookup_total_insert_eq in Hq. by apply not_elem_of_empty in Hq.
  - by rewrite lookup_total_insert_ne in Hq.
Qed.

Lemma hosted_touch topic σ p :
  p ∈ default ∅ (publishers σ !! topic) → consistent σ →
  hosted_on_worker (set_publishers (λ _, (dd_getitem ∅ topic (publishers σ)).2) σ) p.
Proof.
  intros Hp Hσ. apply (inv_publishers σ Hσ topic). by rewrite lookup_total_alt.
Qed.

Section rewrite_subscribers.
Context (f : pub → option (gmap string (gmap string string))).

Lemma sound_rewrite l : ∀ σ,
  consistent σ → (∀ p, p ∈ l → hosted_on_worker σ p) →
  sound σ (for_ l (rewrite_body f) σ).2.
Proof.
  induction l as [|p l IH]; intros σ Hσ Hl.
  - by apply sound_refl.
  - destruct (Hl p) as (self & Hp & Hw); [by left|].
    cbn [for_]. rewrite run_bind. unfold rewrite_body at 1.
    rewrite run_bind, (read_eq _ _ _ Hp).
    destruct (f self) as [d|]; [|by apply sound_refl].
    rewrite write_eq.
    set (self' := MkPub d _ _ _ _ _). set (σ1 := set_pubs _ σ).
    assert (Hsame : ∀ old, pubs σ !! p = Some old →
              worker self' = worker old ∧ client self' = client old ∧ name self' = name old).
    { intros old Ho. rewrite Hp in Ho. by injection Ho as <-. }
    assert (H1 : consistent σ1).
    { apply consistent_store; [|done|].
      - intros old Ho. by destruct (Hsame _ Ho) as (? & ? & ?).
      - cbn. intros Hn. rewrite Hn in Hw. by destruct Hw. }
    assert (E1 : extends σ σ1) by by apply extends_store.
    destruct (IH σ1 H1) as [G1 G2].
    { intros q Hq. apply hosted_store.
      - intros old Ho. by destruct (Hsame _ Ho) as (? & ? & ?).
      - apply Hl. by right. }
    split; [done|]. eapply extends_trans; [exact E1|exact G2].
Qed.
End rewrite_subscribers.

Lemma sound_add_subscriber topic address info σ :
  consistent σ →
  sound σ (PubSubWorkerExtension.add_subscriber topic address info σ).2.
Proof.
  intros Hσ. unfold PubSubWorkerExtension.add_subscriber.
  rewrite run_bind, publishers_getitem_eq.
  set (σ0 := set_publishers _ σ).
  destruct (sound_rewrite (λ self, Some (<[address := info]> (subscribers self)))
              (elements (default ∅ (publishers σ !! topic))) σ0) as [G1 G2].
  { by apply consistent_touch. }
  { intros p Hp%elem_of_elements. by apply hosted_touch. }
  split; [exact G1|]. eapply extends_trans; [|exact G2]. by apply extends_same_pubs.
Qed.

Lemma sound_remove_subscriber topic address σ :
  consistent σ →
  sound σ (PubSubWorkerExtension.remove_subscriber topic address σ).2.
Proof.
  intros Hσ. unfold PubSubWorkerExtension.remove_subscriber.
  rewrite run_bind, publishers_getitem_eq.
  set (σ0 := set_publishers _ σ).
  destruct (sound_rewrite
              (λ self, match subscribers self !! address with
                       | Some _ => Some (delete address (subscribers self))
                       | None => None
                       end)
              (elements (default ∅ (publishers σ !! topic))) σ0) as [G1 G2].
  { by apply consistent_touch. }
  { intros p Hp%elem_of_elements. by apply hosted_touch. }
  assert (Heq : ∀ l σ', for_ l (λ p,
      self ← read p;
      match subscribers self !! address with
      | Some _ =>
          write p (MkPub (delete address (subscribers self)) (worker self)
                         (client self) (name self) (_started self) (_buffer self))
      | None => raise KeyError
      end) σ' =
    for_ l (rewrite_body (λ self, match subscribers self !! address with
                       | Some _ => Some (delete address (subscribers self))
                       | None => None
                       end)) σ').
  { induction l as [|p l IH]; intros σ'; [done|].
    cbn [for_]. rewrite !run_bind. unfold rewrite_body at 1. rewrite !run_bind.
    destruct (read p σ') as [[self|e] σ'']; [|done].
    destruct (subscribers self !! address); [|done].
    rewrite !write_eq. apply IH. }
  rewrite Heq.
  split; [exact G1|]. eapply extends_trans; [|exact G2]. by apply extends_same_pubs.
Qed.

Lemma step_sound σ σ' : consistent σ → step σ σ' → sound σ σ'.
Proof.
  intros Hσ Hstep. destruct Hstep.
  - destruct (__init___cases topic w c σ) as [->|(w' & c' & _ & ->)].
    + by apply sound_refl.
    + by apply sound_construct.
  - by apply sound_put.
  - by apply sound_loop_step.
  - by apply sound_reply.
  - by apply sound_add_subscriber.
  - by apply sound_remove_subscriber.
  - unfold PubSubWorkerExtension.publish_scheduler. rewrite modify_eq. cbn [snd].
    split; [by apply consistent_flags|by apply extends_same_pubs].
Qed.

Lemma boot_consistent cw cc : consistent (boot cw cc).
Proof.
  split; cbn; done.
Qed.

Lemma reachable_consistent σ : reachable σ → consistent σ.
Proof.
  induction 1 as [cw cc|σ σ' _ IH Hstep].
  - apply boot_consistent.
  - by destruct (step_sound σ σ' IH Hstep).
Qed.

Lemma later_sound σ σ' : consistent σ → rtc step σ σ' → sound σ σ'.
Proof.
  intros Hσ Hrtc. induction Hrtc as [σ|σ σ1 σ2 Hstep _ IH].
  - by apply sound_refl.
  - destruct (step_sound σ σ1 Hσ Hstep) as [H1 E1].
    destruct (IH H1) as [H2 E2]. split; [done|]. by eapply extends_trans.
Qed.

(** C10.  Take a publisher hosted on a client in a reachable process.  Its
    [_start] calls nobody (nothing is put on a channel and nothing is
    awaited) and sets [_started].  Whatever the process does afterwards, the
    object stays hosted on that client, its [subscribers] is empty, no weak set
    of the worker extension contains it, every message it has put on a channel
    went to the scheduler stream of its client, and so does the next. *)
Theorem client_hosted_publisher_only_uses_scheduler_stream
    (σ σ' : process) (p : nat) (self : pub) (c : string) :
  reachable σ →
  pubs σ !! p = Some self →
  worker self = None →
  client self = Some c →
  rtc step σ σ' →
  (∃ τ self1,
     _start p σ = (Returned tt, τ) ∧ outbox τ = outbox σ ∧ awaiting τ = awaiting σ ∧
     pubs τ !! p = Some self1 ∧ _started self1 = true ∧ subscribers self1 = ∅) ∧
  (∃ self',
     pubs σ' !! p = Some self' ∧ worker self' = None ∧ client self' = Some c ∧
     subscribers self' = ∅ ∧
     (∀ topic, p ∉ publishers σ' !!! topic) ∧
     (∀ x, x ∈ outbox σ' → origin x = p → via x = SchedulerComm c) ∧
     (∀ msg, ∃ τ,
        _put p msg σ' = (Returned tt, τ) ∧
        outbox τ = outbox σ' ++
          (if _started self'
           then [Sending p (SchedulerComm c) (ev_msg (name self') (to_serialize msg))]
           else []))).
Proof.
  intros Hreach Hp Hw Hc Hlater.
  assert (Hσ := reachable_consistent σ Hreach).
  destruct (later_sound σ σ' Hσ Hlater) as [Hσ' Hext].
  split.
  - unfold _start. rewrite run_bind, (read_eq _ _ _ Hp), Hw.
    rewrite (_start_finish_eq p self) by done.
    eexists _, (started self). split; [reflexivity|]. cbn.
    split_and!; try done.
    + apply lookup_insert_eq.
    + by apply (inv_client_pubs σ Hσ p).
  - destruct (Hext p self Hp) as (self' & Hp' & Hw' & Hc' & _).
    rewrite Hw in Hw'. rewrite Hc in Hc'.
    exists self'. split_and!; try done.
    + by apply (inv_client_pubs σ' Hσ' p).
    + intros topic Hin.
      destruct (inv_publishers σ' Hσ' topic p Hin) as (self2 & Hp2 & Hw2).
      rewrite Hp' in Hp2. injection Hp2 as <-. rewrite Hw' in Hw2. by destruct Hw2.
    + intros x Hx Ho.
      pose proof (inv_outbox σ' Hσ') as Hall. rewrite Forall_forall in Hall.
      destruct (Hall x Hx) as (self2 & Hp2 & Hvia). rewrite Ho, Hp' in Hp2.
      injection Hp2 as <-. destruct (Hvia Hw') as (c' & Hc2 & ->). congruence.
    + intros msg. destruct (_started self') eqn:Hs.
      * rewrite (_put_started p self') by done. rewrite Hw'.
        eexists. split; [reflexivity|]. cbn. unfold emission. by rewrite Hw', Hc'.
      * rewrite (_put_pending p self') by done.
        eexists. split; [reflexivity|]. cbn. by rewrite app_nil_r.
Qed.

Lemma put_emission_witness :
  let self := MkPub {["a" := ∅]} (Some "w") None "t" true [] in
  let σ := Process {[0 := self]} {["t" := {[0]}]} {["t" := true]} [] ∅ []
                   (Some "w") None in
  pubs σ !! 0 = Some self ∧ _started self = true ∧
  ∃ σ' new,
    _put 0 "x" σ = (Returned tt, σ') ∧ outbox σ' = outbox σ ++ new ∧
    new = [Sending 0 (Direct "a") (ev_msg "t" "x");
           Sending 0 BatchedStream (ev_msg "t" "x")].
Proof.
  cbv zeta.
  assert (Hp : pubs (Process {[0 := MkPub {["a" := ∅]} (Some "w") None "t" true []]}
                       {["t" := {[0]}]} {["t" := true]} [] ∅ [] (Some "w") None) !! 0
               = Some (MkPub {["a" := ∅]} (Some "w") None "t" true [])).
  { reflexivity. }
  split; [exact Hp|]. split; [reflexivity|].
  destruct (put_emission 0 _ "x" _ Hp eq_refl)
    as (σ' & new & Hrun & Hout & _ & Hnew & _).
  exists σ', new. split; [exact Hrun|]. split; [exact Hout|].
  rewrite Hnew. vm_compute. reflexivity.
Defined.


Lemma client_hosted_publisher_only_uses_scheduler_stream_witness :
  let σ := (__init__ "t" None (Some "c") (boot None None)).2 in
  let self := MkPub ∅ None (Some "c") "t" false [] in
  reachable σ ∧ pubs σ !! 0 = Some self ∧ rtc step σ (loop_step σ) ∧
  ∃ self', pubs (loop_step σ) !! 0 = Some self' ∧ subscribers self' = ∅.
Proof.
  cbv zeta.
  assert (Hr : reachable (__init__ "t" None (Some "c") (boot None None)).2).
  { eapply reachable_step; [apply (reachable_boot None None)|apply step_new]. }
  assert (Hp : pubs (__init__ "t" None (Some "c") (boot None None)).2 !! 0
               = Some (MkPub ∅ None (Some "c") "t" false [])).
  { vm_compute. reflexivity. }
  assert (Hl : rtc step (__init__ "t" None (Some "c") (boot None None)).2
                 (loop_step (__init__ "t" None (Some "c") (boot None None)).2)).
  { apply rtc_once, step_loop. }
  split; [exact Hr|]. split; [exact Hp|]. split; [exact Hl|].
  destruct (client_hosted_publisher_only_uses_scheduler_stream _ _ 0 _ "c"
              Hr Hp eq_refl eq_refl Hl) as (_ & self' & H1 & _ & _ & H2 & _).
  exists self'. split; [exact H1|exact H2].
Defined.

End PubFacts.

(** ** Removing what is not there *)

Module MutationFacts.
Import PubSubSchedulerExtension.

(** A worker with one registered publisher that waits for the scheduler's
    reply. *)
Lemma waiting_worker_reachable :
  Pub.reachable
    (Pub.loop_steps 2 (Pub.__init__ "t" None None (Pub.boot (Some "w") None)).2).
Proof.
  eapply Pub.reachable_step; [|apply Pub.step_loop].
  eapply Pub.reachable_step; [|apply Pub.step_loop].
  eapply Pub.reachable_step; [apply (Pub.reachable_boot (Some "w") None)|].
  apply Pub.step_new.
Qed.

(** C1 (the code departs from the claim).  At the scheduler, removing a
    worker subscriber or a client subscriber that is not registered raises
    [KeyError] instead of doing nothing, and leaves an empty entry for the
    topic behind; removing an unknown publisher returns, but leaves such an
    entry too.  At the worker, removing an address that a registered
    publisher does not have raises [KeyError]. *)
Theorem removing_unknown_subscriber_raises :
  remove_subscriber "t" (Some "w") None (init ∅)
    = (Raised KeyError, Scheduler ∅ {["t" := ∅]} ∅ ∅ []) ∧
  remove_subscriber "t" None (Some "c") (init ∅)
    = (Raised KeyError, Scheduler ∅ ∅ {["t" := ∅]} ∅ []) ∧
  remove_publisher "t" (Some "w") (init ∅)
    = (Returned tt, Scheduler {["t" := ∅]} ∅ ∅ ∅ []) ∧
  (PubSubWorkerExtension.remove_subscriber "t" "a"
     (Pub.loop_steps 2 (Pub.__init__ "t" None None (Pub.boot (Some "w") None)).2)).1
    = Raised KeyError.
Proof. split_and!; vm_compute; reflexivity. Qed.

End MutationFacts.

Module SubFacts.
Import Sub.
#[local] Open Scope Z_scope.

Lemma _get_head timeout start rounds self m rest :
  buffer self = m :: rest →
  _get timeout start rounds self = (Got m, with_buffer rest self).
Proof. intros Hb. unfold _get. destruct rounds; cbn; by rewrite Hb. Qed.

Lemma get_head ident timeout start rounds self m rest :
  hosted self →
  buffer self = m :: rest →
  get ident timeout start rounds self = (Got m, with_buffer rest self).
Proof.
  intros Hh Hb. unfold get.
  destruct (client self) as [c|] eqn:Hc; [by apply _get_head|].
  destruct (worker self) as [w|] eqn:Hw.
  - destruct (decide _); [by apply _get_head|]. by rewrite Hb.
  - destruct Hh as [[? ?]|[? ?]]; congruence.
Qed.

(** With a deadline and nothing arriving, the loop ends by raising:
    [TimeoutError], or [RuntimeError] when a reading of the clock is exactly
    the deadline. *)
Lemma _get_from_timeout t start rounds : ∀ clock self,
  buffer self = [] → silent rounds →
  (_get_from (Some t) start clock rounds self).1 = Raises TimeoutError ∨
  (_get_from (Some t) start clock rounds self).1 = Raises RuntimeError.
Proof.
  induction rounds as [|r rounds IH]; intros clock self Hb Hs.
  - cbn. rewrite Hb. destruct (_ <? 0); [by left|].
    destruct (_ <=? 0); [by right|by left].
  - cbn. rewrite Hb. destruct (_ <? 0); [by left|].
    destruct (_ <=? 0); [by right|].
    apply Forall_cons in Hs as [Hr Hs].
    destruct (wake r) as [[d ms]|] eqn:Hwk; cbn; [|by left].
    destruct (d <? _); [|by left].
    rewrite (Hr d ms eq_refl). by apply IH.
Qed.

Lemma _get_timeout t start rounds self :
  buffer self = [] → silent rounds →
  (_get (Some t) start rounds self).1 = Raises TimeoutError ∨
  (_get (Some t) start rounds self).1 = Raises RuntimeError.
Proof. apply _get_from_timeout. Qed.

Lemma _get_from_no_timeout start rounds : ∀ clock self e,
  (_get_from None start clock rounds self).1 ≠ Raises e.
Proof.
  induction rounds as [|r rounds IH]; intros clock self e.
  - cbn. by destruct (buffer self).
  - cbn. destruct (buffer self); [|done].
    destruct (wake r) as [[d ms]|]; cbn; [|done]. apply IH.
Qed.

Lemma _get_no_timeout start rounds self :
  (_get None start rounds self).1 ≠ Raises TimeoutError.
Proof. apply _get_from_no_timeout. Qed.

Lemma _get_from_forever start rounds : ∀ clock self,
  buffer self = [] → silent rounds →
  (_get_from None start clock rounds self).1 = WaitsForever.
Proof.
  induction rounds as [|r rounds IH]; intros clock self Hb Hs.
  - cbn. by rewrite Hb.
  - cbn. rewrite Hb. apply Forall_cons in Hs as [Hr Hs].
    destruct (wake r) as [[d ms]|] eqn:Hwk; cbn; [|done].
    rewrite (Hr d ms eq_refl). by apply IH.
Qed.

Lemma _get_forever start rounds self :
  buffer self = [] → silent rounds →
  (_get None start rounds self).1 = WaitsForever.
Proof. apply _get_from_forever. Qed.

(** Where the deadline is honoured: a client-hosted subscriber, and a
    worker-hosted one read from a thread other than the worker's loop. *)
Lemma get_timeout ident t start rounds self :
  buffer self = [] → silent rounds →
  (is_Some (client self) ∨
   ∃ w, worker self = Some w ∧ thread_id w ≠ ident) →
  (get ident (Some t) start rounds self).1 = Raises TimeoutError ∨
  (get ident (Some t) start rounds self).1 = Raises RuntimeError.
Proof.
  intros Hb Hs Hpath. unfold get.
  destruct (client self) as [c|] eqn:Hc; [by apply _get_timeout|].
  destruct Hpath as [[? ?]|(w & -> & Hne)]; [done|].
  rewrite decide_False by done. rewrite Hb. by apply _get_timeout.
Qed.

(** Away from the deadline it is [TimeoutError]. *)
Lemma _get_from_timeout_off_deadline t start rounds : ∀ clock self,
  buffer self = [] → silent rounds →
  start + t ∉ clock :: (now <$> rounds) →
  (_get_from (Some t) start clock rounds self).1 = Raises TimeoutError.
Proof.
  induction rounds as [|r rounds IH]; intros clock self Hb Hs Hoff.
  - cbn. rewrite Hb. destruct (_ <? 0) eqn:Hneg; [done|].
    destruct (_ <=? 0) eqn:Hz; [|done].
    apply Z.ltb_ge in Hneg. apply Z.leb_le in Hz.
    destruct Hoff. replace (start + t) with clock by lia. left.
  - cbn. rewrite Hb. destruct (_ <? 0) eqn:Hneg; [done|].
    destruct (_ <=? 0) eqn:Hz.
    { apply Z.ltb_ge in Hneg. apply Z.leb_le in Hz.
      destruct Hoff. replace (start + t) with (now r) by lia. right. left. }
    apply Forall_cons in Hs as [Hr Hs].
    destruct (wake r) as [[d ms]|] eqn:Hwk; cbn; [|done].
    destruct (d <? _); [|done].
    rewrite (Hr d ms eq_refl). apply IH; [done|done|].
    intros Hin. apply Hoff. cbn. right. done.
Qed.

Lemma get_timeout_off_deadline ident t start rounds self :
  buffer self = [] → silent rounds →
  start + t ∉ start :: (now <$> rounds) →
  (is_Some (client self) ∨
   ∃ w, worker self = Some w ∧ thread_id w ≠ ident) →
  (get ident (Some t) start rounds self).1 = Raises TimeoutError.
Proof.
  intros Hb Hs Hoff Hpath. unfold get.
  destruct (client self) as [c|] eqn:Hc;
    [by apply _get_from_timeout_off_deadline|].
  destruct Hpath as [[? ?]|(w & -> & Hne)]; [done|].
  rewrite decide_False by done. rewrite Hb.
  by apply _get_from_timeout_off_deadline.
Qed.

Lemma get_null_timeout ident start rounds self :
  hosted self →
  (get ident None start rounds self).1 ≠ Raises TimeoutError.
Proof.
  intros Hh. unfold get.
  destruct (client self) as [c|] eqn:Hc; [apply _get_no_timeout|].
  destruct (worker self) as [w|] eqn:Hw.
  - destruct (decide _); [apply _get_no_timeout|].
    destruct (buffer self) eqn:Hb; [|done].
    apply _get_no_timeout.
  - destruct Hh as [[? ?]|[? ?]]; congruence.
Qed.

(** On the worker's own loop thread the deadline is not passed on. *)
Lemma get_on_loop_thread ident timeout start rounds self w :
  client self = None → worker self = Some w → thread_id w = ident →
  get ident timeout start rounds self = _get None start rounds self.
Proof. intros Hc Hw Ht. unfold get. by rewrite Hc, Hw, decide_True. Qed.

(** C9 (the code departs from the claim).  A subscriber on a worker is read
    with a deadline of 50 ticks while nothing ever arrives.  Called from the
    thread of the worker's loop, [get] waits forever: the deadline is not
    handed to [_get].  Called from any other thread, the same call raises
    [TimeoutError].  On the loop thread no deadline and no course of events
    makes [get] raise [TimeoutError]. *)
Theorem get_on_loop_thread_never_times_out :
  get 7 (Some 50) 0 [] (on_worker 7) = (WaitsForever, MkSub [] true None (Some (WorkerRef 7))) ∧
  get 8 (Some 50) 0 [] (on_worker 7) = (Raises TimeoutError, MkSub [] true None (Some (WorkerRef 7))) ∧
  (∀ t start rounds,
     (get 7 (Some t) start rounds (on_worker 7)).1 ≠ Raises TimeoutError).
Proof.
  split_and!; [done|done|].
  intros t start rounds. rewrite (get_on_loop_thread 7 _ _ _ _ (WorkerRef 7)) by done.
  apply _get_no_timeout.
Qed.

End SubFacts.

Module ClientFacts.
Import PubSubClientExtension.

(** C4 (the code departs from the claim).  A message for a topic without
    live subscribers makes the client extension send the event
    [pubsub-remove-subscribers].  The scheduler extension registers no
    handler under that name, so its stream handlers answer to it only if the
    scheduler had one of its own; the name it does register for
    [remove_subscriber] is [pubsub-remove-subscriber], which is what the
    client's [cleanup] sends for the same topic. *)
Theorem remove_subscribers_event_has_no_handler :
  handle_message "t" "m" (ClientExt ∅ ∅ []) =
    (Returned tt, ClientExt {["t" := ∅]} ∅ [ev_bare "pubsub-remove-subscribers" "t"]) ∧
  PubSubSchedulerExtension.registered_stream_handlers !! "pubsub-remove-subscribers" = None ∧
  (∀ base, PubSubSchedulerExtension.stream_handlers base !! "pubsub-remove-subscribers"
           = base !! "pubsub-remove-subscribers") ∧
  PubSubSchedulerExtension.registered_stream_handlers !! "pubsub-remove-subscriber"
    = Some PubSubSchedulerExtension.H_remove_subscriber ∧
  cleanup (ClientExt {["t" := ∅]} ∅ []) =
    (Returned tt, ClientExt {["t" := ∅]} ∅ [ev_bare "pubsub-remove-subscriber" "t"]).
Proof.
  split_and!.
  - vm_compute. reflexivity.
  - vm_compute. reflexivity.
  - intros base. unfold PubSubSchedulerExtension.stream_handlers.
    rewrite lookup_union_r; [done|]. vm_compute. reflexivity.
  - vm_compute. reflexivity.
  - vm_compute. reflexivity.
Qed.

End ClientFacts.

(** ** Further properties of the scheduler extension *)

Module SchedulerExtras.
Import PubSubSchedulerExtension SchedulerFacts.

Lemma add_worker_subscriber_eq name worker client w s :
  as_truthy worker = Some w →
  add_subscriber name worker client s =
  (Returned tt,
   add_sent ((λ pub, WorkerSend pub (ev_add_subscriber name w)) <$>
               elements (publishers s !!! name))
     (touch Publishers name
        (set_tbl Subscribers (<[name := {[w]} ∪ subscribers s !!! name]> (subscribers s)) s))).
Proof.
  intros Hw. unfold add_subscriber. rewrite Hw.
  rewrite run_bind, set_add_eq. rewrite run_bind, getitem_eq, for_worker_send. done.
Qed.

Lemma add_client_subscriber_eq name worker client c s :
  as_truthy worker = None → as_truthy client = Some c →
  add_subscriber name worker client s =
  (Returned tt,
   set_tbl ClientSubscribers
     (<[name := {[c]} ∪ client_subscribers s !!! name]> (client_subscribers s))
     (add_sent ((λ pub, WorkerSend pub (ev_publish_scheduler name true)) <$>
                  elements (publishers s !!! name))
        (touch Publishers name s))).
Proof.
  intros Hw Hc. unfold add_subscriber. rewrite Hw, Hc.
  rewrite run_bind, getitem_eq. rewrite run_bind, for_worker_send.
  rewrite set_add_eq. done.
Qed.

Lemma add_nobody_eq name worker client s :
  as_truthy worker = None → as_truthy client = None →
  add_subscriber name worker client s = (Returned tt, s).
Proof. intros Hw Hc. unfold add_subscriber. by rewrite Hw, Hc. Qed.

(** X1.  The scheduler's [add_subscriber] always returns.  A truthy [worker]
    is added to [subscribers[name]] and every worker in [publishers[name]] is
    sent [pubsub-add-subscriber] with that address; otherwise a truthy
    [client] is added to [client_subscribers[name]] and every publisher is
    sent [pubsub-publish-scheduler] with [publish=True]; with neither, the
    state is unchanged and nothing is sent.  The worker argument wins over
    the client argument, and neither the client streams, nor a set of
    publishers, nor the sets of another topic change. *)
Theorem add_subscriber_effect (name : string) (worker client : option string) (s : t) :
  ∃ s' out,
    add_subscriber name worker client s = (Returned tt, s') ∧
    sent s' = sent s ++ out ∧
    client_comms s' = client_comms s ∧
    (∀ topic, publishers s' !!! topic = publishers s !!! topic) ∧
    (∀ topic, topic ≠ name → subscribers s' !!! topic = subscribers s !!! topic) ∧
    (∀ topic, topic ≠ name →
       client_subscribers s' !!! topic = client_subscribers s !!! topic) ∧
    match as_truthy worker, as_truthy client with
    | Some w, _ =>
        subscribers s' !!! name = {[w]} ∪ subscribers s !!! name ∧
        client_subscribers s' !!! name = client_subscribers s !!! name ∧
        out = (λ pub, WorkerSend pub (ev_add_subscriber name w)) <$>
                elements (publishers s !!! name)
    | None, Some c =>
        subscribers s' !!! name = subscribers s !!! name ∧
        client_subscribers s' !!! name = {[c]} ∪ client_subscribers s !!! name ∧
        out = (λ pub, WorkerSend pub (ev_publish_scheduler name true)) <$>
                elements (publishers s !!! name)
    | None, None => s' = s ∧ out = []
    end.
Proof.
  destruct (as_truthy worker) as [w|] eqn:Hw; [|destruct (as_truthy client) as [c|] eqn:Hc].
  - rewrite (add_worker_subscriber_eq name worker client w s Hw).
    eexists _, _. split; [reflexivity|]. cbn. split_and!; try done.
    + intros topic. apply lookup_total_touch.
    + intros topic Hne. by rewrite lookup_total_insert_ne.
    + by rewrite lookup_total_insert_eq.
  - rewrite (add_client_subscriber_eq name worker client c s Hw Hc).
    eexists _, _. split; [reflexivity|]. cbn. split_and!; try done.
    + intros topic. apply lookup_total_touch.
    + intros topic Hne. by rewrite lookup_total_insert_ne.
    + by rewrite lookup_total_insert_eq.
  - rewrite (add_nobody_eq name worker client s Hw Hc).
    exists s, []. by rewrite app_nil_r.
Qed.

(** X2.  The scheduler's [remove_subscriber] returns exactly when the worker
    (or, for a falsy worker, the client) it names is a member of the set it
    is removed from, or when it names nobody; it raises [KeyError] exactly
    when the named party is not a member. *)
Theorem remove_subscriber_raises_iff_stranger (name : string)
    (worker client : option string) (s : t) :
  ((remove_subscriber name worker client s).1 = Returned tt ↔
     names_member (RemoveSubscriber name worker client) s) ∧
  ((remove_subscriber name worker client s).1 = Raised KeyError ↔
     ¬ names_member (RemoveSubscriber name worker client) s).
Proof.
  cbn [names_member].
  destruct (as_truthy worker) as [w|] eqn:Hw; [|destruct (as_truthy client) as [c|] eqn:Hc].
  - destruct (decide (w ∈ subscribers s !!! name)) as [Hin|Hout].
    + destruct (remove_worker_subscriber_spec name worker client w s Hw Hin) as (s' & -> & _).
      cbn. split; split; done.
    + rewrite (remove_worker_subscriber_absent name worker client w s Hw Hout).
      cbn. split; split; done.
  - destruct (decide (c ∈ client_subscribers s !!! name)) as [Hin|Hout].
    + pose proof (as_truthy_inv _ _ Hc) as [-> Hne].
      destruct (remove_client_subscriber_spec name worker c s Hw Hne Hin) as (s' & out & -> & _).
      cbn. split; split; done.
    + rewrite (remove_client_subscriber_absent name worker client c s Hw Hc Hout).
      cbn. split; split; done.
  - rewrite (remove_nobody_eq name worker client s Hw Hc).
    destruct (finish_removal_spec name s) as (s' & -> & _).
    cbn. split; split; done.
Qed.

(** X3.  The scheduler's [remove_publisher] always returns, sends nothing,
    leaves the client streams, the client subscribers and every set of
    subscribers alone, and leaves in [publishers[name]] what was there
    without the worker; the publishers of other topics are unchanged. *)
Theorem remove_publisher_never_raises (name : string) (worker : option string) (s : t) :
  ∃ s',
    remove_publisher name worker s = (Returned tt, s') ∧
    sent s' = sent s ∧
    client_comms s' = client_comms s ∧
    client_subscribers s' = client_subscribers s ∧
    (∀ topic, subscribers s' !!! topic = subscribers s !!! topic) ∧
    (∀ topic, topic ≠ name → publishers s' !!! topic = publishers s !!! topic) ∧
    publishers s' !!! name =
      publishers s !!! name ∖ (match worker with Some w => {[w]} | None => ∅ end).
Proof.
  destruct worker as [w|].
  - destruct (decide (w ∈ publishers s !!! name)) as [Hin|Hout].
    + destruct (remove_publisher_spec name w s Hin)
        as (s' & -> & H1 & H2 & H3 & H4 & H5 & H6 & _).
      exists s'. split_and!; done.
    + rewrite (remove_publisher_absent name w s Hout).
      eexists. split; [reflexivity|]. cbn. split_and!; try done.
      * intros topic Hne. by rewrite lookup_total_insert_ne.
      * rewrite lookup_total_insert_eq. apply set_eq. intros x.
        rewrite elem_of_difference, elem_of_singleton. split; [|by intros [? _]].
        intros Hx. split; [done|]. by intros ->.
  - unfold remove_publisher. rewrite run_bind, getitem_eq, run_ret.
    eexists. split; [reflexivity|]. cbn. split_and!; try done.
    + intros topic Hne. by rewrite lookup_total_insert_ne.
    + rewrite lookup_total_insert_eq. apply set_eq. intros x.
      rewrite elem_of_difference. split; [|by intros [? _]].
      intros Hx. split; [done|]. apply not_elem_of_empty.
Qed.

(** X4.  Removing a client that subscribes to a topic returns and takes it
    out of [client_subscribers[name]].  If it was the last one, the entry is
    deleted and every worker in [publishers[name]] is sent
    [pubsub-publish-scheduler] with [publish=False]; if clients remain,
    nothing is sent. *)
Theorem last_client_turns_scheduler_copy_off (name : string) (worker : option string)
    (c : string) (s : t) :
  as_truthy worker = None →
  c ≠ "" →
  c ∈ client_subscribers s !!! name →
  ∃ s',
    remove_subscriber name worker (Some c) s = (Returned tt, s') ∧
    client_subscribers s' !!! name = client_subscribers s !!! name ∖ {[c]} ∧
    (∀ topic, publishers s' !!! topic = publishers s !!! topic) ∧
    (∀ topic, subscribers s' !!! topic = subscribers s !!! topic) ∧
    (client_subscribers s' !!! name = ∅ →
       client_subscribers s' !! name = None ∧
       sent s' = sent s ++
         ((λ pub, WorkerSend pub (ev_publish_scheduler name false)) <$>
            elements (publishers s !!! name))) ∧
    (client_subscribers s' !!! name ≠ ∅ → sent s' = sent s).
Proof.
  intros Hw Hc Hin.
  destruct (remove_client_subscriber_sent name worker c s Hw Hc Hin) as [Hsent Hdel].
  destruct (remove_client_subscriber_spec name worker c s Hw Hc Hin)
    as (s' & out & Hrun & _ & _ & _ & Hp & Hs & Hcs & _).
  rewrite Hrun in Hsent, Hdel. cbn [snd] in Hsent, Hdel.
  exists s'. split_and!; try done.
  - rewrite Hcs. intros He. split; [by apply Hdel|].
    by rewrite Hsent, decide_True.
  - rewrite Hcs. intros He. by rewrite Hsent, decide_False, app_nil_r.
Qed.

Lemma last_client_turns_scheduler_copy_off_witness :
  let s := Scheduler {["t" := {["w"]}]} ∅ {["t" := {["c"]}]} ∅ [] in
  "c" ∈ client_subscribers s !!! "t" ∧
  ∃ s', remove_subscriber "t" None (Some "c") s = (Returned tt, s') ∧
        client_subscribers s' !! "t" = None ∧
        sent s' = [WorkerSend "w" (ev_publish_scheduler "t" false)].
Proof.
  cbv zeta.
  assert (Hin : "c" ∈ client_subscribers
                  (Scheduler {["t" := {["w"]}]} ∅ {["t" := {["c"]}]} ∅ []) !!! "t").
  { refine (bool_decide_unpack _ _); vm_compute; exact I. }
  split; [exact Hin|].
  destruct (last_client_turns_scheduler_copy_off "t" None "c" _ eq_refl
              ltac:(discriminate) Hin) as (s' & Hrun & Hcs & _ & _ & Hlast & _).
  exists s'. split; [exact Hrun|].
  destruct Hlast as [Hdel Hsent].
  { rewrite Hcs. refine (bool_decide_unpack _ _); vm_compute; exact I. }
  split; [exact Hdel|]. etrans; [exact Hsent|]. vm_compute. reflexivity.
Defined.

(** X5.  Subscribing a worker that was not subscribed and unsubscribing it
    again both return and restore every set of publishers and subscribers
    and the client subscribers; each worker in [publishers[name]] has been
    sent [pubsub-add-subscriber] and then [pubsub-remove-subscriber] for
    the address.  If the topic had neither publishers nor subscribers, no
    entry for it is left in either table. *)
Theorem subscribe_then_unsubscribe_worker (name : string)
    (worker client : option string) (w : string) (s : t) :
  as_truthy worker = Some w →
  w ∉ subscribers s !!! name →
  ∃ s1 s2,
    add_subscriber name worker client s = (Returned tt, s1) ∧
    remove_subscriber name worker client s1 = (Returned tt, s2) ∧
    (∀ topic, publishers s2 !!! topic = publishers s !!! topic) ∧
    (∀ topic, subscribers s2 !!! topic = subscribers s !!! topic) ∧
    client_subscribers s2 = client_subscribers s ∧
    sent s2 = sent s ++
      ((λ pub, WorkerSend pub (ev_add_subscriber name w)) <$>
         elements (publishers s !!! name)) ++
      ((λ pub, WorkerSend pub (ev_remove_subscriber name w)) <$>
         elements (publishers s !!! name)) ∧
    (publishers s !!! name = ∅ → subscribers s !!! name = ∅ →
     publishers s2 !! name = None ∧ subscribers s2 !! name = None).
Proof.
  intros Hw Hout.
  rewrite (add_worker_subscriber_eq name worker client w s Hw).
  set (s1 := add_sent _ _).
  assert (Hin1 : w ∈ subscribers s1 !!! name).
  { subst s1. cbn. rewrite lookup_total_insert_eq. apply elem_of_union_l.
    by apply elem_of_singleton. }
  assert (Hp1 : ∀ topic, publishers s1 !!! topic = publishers s !!! topic).
  { intros topic. subst s1. cbn. apply lookup_total_touch. }
  destruct (remove_worker_subscriber_spec name worker client w s1 Hw Hin1)
    as (s2 & Hrun & Hsent & _ & Hp & Hs & Hs' & Hcs & Hdead).
  exists s1, s2. split_and!; try done.
  - intros topic. by rewrite Hp.
  - intros topic. destruct (decide (topic = name)) as [->|Hne].
    + rewrite Hs. subst s1. cbn. rewrite lookup_total_insert_eq.
      apply set_eq. intros x. rewrite elem_of_difference, elem_of_union, !elem_of_singleton.
      split; [by intros [[->|?] ?]|]. intros Hx. split; [by right|]. by intros ->.
    + rewrite Hs' by done. subst s1. cbn. by rewrite lookup_total_insert_ne.
  - rewrite Hsent, Hp1. subst s1. cbn. by rewrite <- app_assoc.
  - intros He1 He2. apply Hdead.
    + by rewrite Hp, Hp1.
    + rewrite Hs. subst s1. cbn. rewrite lookup_total_insert_eq, He2.
      apply set_eq. intros x. rewrite elem_of_difference, elem_of_union, !elem_of_singleton.
      split; [by intros [[->|?%not_elem_of_empty] ?]|by intros ?%not_elem_of_empty].
Qed.

Lemma subscribe_then_unsubscribe_worker_witness :
  let s := Scheduler {["t" := {["p"]}]} ∅ ∅ ∅ [] in
  ("w" ∉ subscribers s !!! "t") ∧
  ∃ s1 s2,
    add_subscriber "t" (Some "w") None s = (Returned tt, s1) ∧
    remove_subscriber "t" (Some "w") None s1 = (Returned tt, s2) ∧
    sent s2 = [WorkerSend "p" (ev_add_subscriber "t" "w");
               WorkerSend "p" (ev_remove_subscriber "t" "w")].
Proof.
  cbv zeta.
  assert (Hout : "w" ∉ subscribers (Scheduler {["t" := {["p"]}]} ∅ ∅ ∅ []) !!! "t").
  { refine (bool_decide_unpack _ _); vm_compute; exact I. }
  split; [exact Hout|].
  destruct (subscribe_then_unsubscribe_worker "t" (Some "w") None "w" _ eq_refl Hout)
    as (s1 & s2 & H1 & H2 & _ & _ & _ & Hsent & _).
  exists s1, s2. split; [exact H1|]. split; [exact H2|].
  etrans; [exact Hsent|]. vm_compute. reflexivity.
Defined.

(** X6.  Registering a worker that was not a publisher of the topic and
    removing it again both return, send nothing and restore every set of
    publishers and subscribers and the client subscribers.  If the topic
    had neither publishers nor subscribers, no entry for it is left in
    either table. *)
Theorem register_then_unregister_publisher (name worker : string) (s : t) :
  worker ∉ publishers s !!! name →
  ∃ r s1 s2,
    add_publisher name worker s = (Returned r, s1) ∧
    remove_publisher name (Some worker) s1 = (Returned tt, s2) ∧
    (∀ topic, publishers s2 !!! topic = publishers s !!! topic) ∧
    (∀ topic, subscribers s2 !!! topic = subscribers s !!! topic) ∧
    client_subscribers s2 = client_subscribers s ∧
    sent s2 = sent s ∧
    (publishers s !!! name = ∅ → subscribers s !!! name = ∅ →
     publishers s2 !! name = None ∧ subscribers s2 !! name = None).
Proof.
  intros Hout. rewrite add_publisher_eq.
  set (s1 := touch Subscribers name _).
  assert (Hin1 : worker ∈ publishers s1 !!! name).
  { subst s1. cbn. rewrite lookup_total_insert_eq. apply elem_of_union_l.
    by apply elem_of_singleton. }
  assert (Hs1 : ∀ topic, subscribers s1 !!! topic = subscribers s !!! topic).
  { intros topic. subst s1. cbn. apply lookup_total_touch. }
  destruct (remove_publisher_spec name worker s1 Hin1)
    as (s2 & Hrun & Hsent & _ & Hp & Hp' & Hs & Hcs & Hdead).
  assert (Hback : publishers s2 !!! name = publishers s !!! name).
  { rewrite Hp. subst s1. cbn. rewrite lookup_total_insert_eq.
    apply set_eq. intros x. rewrite elem_of_difference, elem_of_union, !elem_of_singleton.
    split; [by intros [[->|?] ?]|]. intros Hx. split; [by right|]. by intros ->. }
  exists (snapshot name s), s1, s2. split_and!; try done.
  - intros topic. destruct (decide (topic = name)) as [->|Hne]; [done|].
    rewrite Hp' by done. subst s1. cbn. by rewrite lookup_total_insert_ne.
  - intros topic. by rewrite Hs.
  - intros He1 He2. apply Hdead.
    + by rewrite Hback.
    + by rewrite Hs, Hs1.
Qed.

Lemma register_then_unregister_publisher_witness :
  let s := init ∅ in
  ("w" ∉ publishers s !!! "t") ∧
  ∃ r s1 s2,
    add_publisher "t" "w" s = (Returned r, s1) ∧
    remove_publisher "t" (Some "w") s1 = (Returned tt, s2) ∧
    publishers s2 !! "t" = None ∧ subscribers s2 !! "t" = None.
Proof.
  cbv zeta.
  assert (Hout : "w" ∉ publishers (init ∅) !!! "t").
  { refine (bool_decide_unpack _ _); vm_compute; exact I. }
  split; [exact Hout|].
  destruct (register_then_unregister_publisher "t" "w" _ Hout)
    as (r & s1 & s2 & H1 & H2 & _ & _ & _ & _ & Hdead).
  exists r, s1, s2. split; [exact H1|]. split; [exact H2|].
  apply Hdead; refine (bool_decide_unpack _ _); vm_compute; exact I.
Defined.

Lemma handle_message_clients name msg worker client s :
  ∃ s',
    handle_message name msg worker client s = (Returned tt, s') ∧
    client_comms s' = client_comms s ∧
    (∀ c, c ∈ client_subscribers s' !!! name ↔
          c ∈ client_subscribers s !!! name ∧ (can_send s c ∨ c = "")) ∧
    (∀ topic, topic ≠ name →
       client_subscribers s' !!! topic = client_subscribers s !!! topic).
Proof.
  unfold handle_message. rewrite run_bind, getitem_eq. cbn [tbl].
  set (cs := client_subscribers s !!! name).
  destruct (relay_loop name msg (elements cs) (touch ClientSubscribers name s))
    as (s1 & out & Hrun & _ & Hcc & _ & _ & Hcs & Hoth & _).
  { apply NoDup_elements. }
  { intros c Hc. cbn. rewrite lookup_total_insert_eq. by apply elem_of_elements. }
  cbn in Hcc, Hcs, Hoth. rewrite lookup_total_insert_eq in Hcs. fold cs in Hcs.
  assert (Hcs' : ∀ c, c ∈ client_subscribers s1 !!! name ↔ c ∈ cs ∧ (can_send s c ∨ c = "")).
  { intros c. rewrite Hcs. split; intros [H1 H2]; (split; [done|]).
    - apply H2. by apply elem_of_elements.
    - done. }
  assert (Hoth' : ∀ topic, topic ≠ name →
            client_subscribers s1 !!! topic = client_subscribers s !!! topic).
  { intros topic Hne. rewrite !lookup_total_alt, Hoth by done.
    by rewrite lookup_insert_ne. }
  rewrite run_bind, Hrun.
  destruct (truthy client).
  - rewrite run_bind, getitem_eq, for_worker_send. eexists. split; [reflexivity|]. done.
  - rewrite run_ret. by exists s1.
Qed.

(** X7.  Relaying two messages for a topic in a row: both calls of the
    scheduler's [handle_message] return.  The first removes from
    [client_subscribers[name]] exactly the clients whose stream does not
    accept the message (an identity that is the empty string is falsy and
    stays), and leaves the streams as they are; so every client left, the
    empty identity apart, has a working stream, and the second call removes
    no client subscriber of any topic. *)
Theorem dead_clients_are_dropped_once (name : string) (msg msg' : payload)
    (worker client worker' client' : option string) (s : t) :
  ∃ s1 s2,
    handle_message name msg worker client s = (Returned tt, s1) ∧
    handle_message name msg' worker' client' s1 = (Returned tt, s2) ∧
    client_comms s1 = client_comms s ∧
    (∀ c, c ∈ client_subscribers s1 !!! name ↔
          c ∈ client_subscribers s !!! name ∧ (can_send s c ∨ c = "")) ∧
    (∀ c, c ∈ client_subscribers s1 !!! name → c ≠ "" → can_send s1 c) ∧
    (∀ topic, client_subscribers s2 !!! topic = client_subscribers s1 !!! topic).
Proof.
  destruct (handle_message_clients name msg worker client s)
    as (s1 & Hrun1 & Hcc1 & Hcs1 & _).
  destruct (handle_message_clients name msg' worker' client' s1)
    as (s2 & Hrun2 & _ & Hcs2 & Hoth2).
  exists s1, s2. split_and!; try done.
  - intros c Hc Hne. apply Hcs1 in Hc as [_ [Hc|Hc]]; [|done].
    unfold can_send in *. by rewrite Hcc1.
  - intros topic. destruct (decide (topic = name)) as [->|Hne]; [|by apply Hoth2].
    apply set_eq. intros c. rewrite Hcs2. split; [by intros [? _]|].
    intros Hc. split; [done|]. apply Hcs1 in Hc as [_ Hc].
    unfold can_send in *. by rewrite Hcc1.
Qed.

End SchedulerExtras.

(** ** Further properties of publishers and of the worker extension *)

Module PubExtras.
Import Endpoint Pub PubFacts.

Lemma __init___eq topic w0 c0 σ :
  __init__ topic w0 c0 σ =
  match resolve_host w0 c0 σ with
  | Some (w, c) => (Returned (fresh (dom (pubs σ))), construct topic w c σ)
  | None => (Raised NoContextError, σ)
  end.
Proof.
  unfold __init__, resolve_host. rewrite run_bind.
  destruct w0 as [w|], c0 as [c|].
  - rewrite run_ret. cbv beta iota.
    exact (__init___resolved topic (Some w) (Some c) σ ltac:(eauto)).
  - rewrite run_ret. cbv beta iota.
    exact (__init___resolved topic (Some w) None σ ltac:(eauto)).
  - rewrite run_ret. cbv beta iota.
    exact (__init___resolved topic None (Some c) σ ltac:(eauto)).
  - rewrite run_bind, get_state_eq. cbv beta iota.
    destruct (current_worker σ) as [w|].
    + rewrite run_ret. cbv beta iota.
      exact (__init___resolved topic (Some w) None σ ltac:(eauto)).
    + destruct (current_client σ) as [c|].
      * rewrite run_ret. cbv beta iota.
        exact (__init___resolved topic None (Some c) σ ltac:(eauto)).
      * done.
Qed.

(** X8.  [Pub.__init__] either finds no host at all (no argument given and
    neither a current worker nor a current client), and then raises leaving
    the process unchanged, or returns a fresh object that is not started,
    has an empty buffer and no subscribers, is bound to the given host, or
    else to the current worker, or else to the current client, and has
    queued [_start]; a registration in [publishers[name]] is queued after it
    exactly when the object has a worker.  Nothing is sent, and no set of
    publishers changes yet. *)
Theorem construction_outcome (topic : string) (w0 c0 : option string) (σ : process) :
  (w0 = None ∧ c0 = None ∧ current_worker σ = None ∧ current_client σ = None ∧
   __init__ topic w0 c0 σ = (Raised NoContextError, σ)) ∨
  (∃ p σ' w c,
     __init__ topic w0 c0 σ = (Returned p, σ') ∧
     pubs σ !! p = None ∧
     pubs σ' = <[p := MkPub ∅ w c topic false []]> (pubs σ) ∧
     (is_Some w ∨ is_Some c) ∧
     (is_Some w0 ∨ is_Some c0 → w = w0 ∧ c = c0) ∧
     (w0 = None → c0 = None →
        (w = current_worker σ ∧ c = None ∧ is_Some w) ∨
        (w = None ∧ current_worker σ = None ∧ c = current_client σ)) ∧
     loop σ' = loop σ ++ CbStart p ::
                 (match w with Some _ => [CbRegister topic p] | None => [] end) ∧
     outbox σ' = outbox σ ∧ awaiting σ' = awaiting σ ∧
     (∀ t, publishers σ' !!! t = publishers σ !!! t)).
Proof.
  rewrite __init___eq. unfold resolve_host.
  assert (Hc : ∀ w c, (is_Some w ∨ is_Some c) →
    ∃ p σ', (Returned (fresh (dom (pubs σ))), construct topic w c σ) = (Returned p, σ') ∧
     pubs σ !! p = None ∧
     pubs σ' = <[p := MkPub ∅ w c topic false []]> (pubs σ) ∧
     loop σ' = loop σ ++ CbStart p ::
                 (match w with Some _ => [CbRegister topic p] | None => [] end) ∧
     outbox σ' = outbox σ ∧ awaiting σ' = awaiting σ ∧
     (∀ t, publishers σ' !!! t = publishers σ !!! t)).
  { intros w c _. eexists _, _. split; [reflexivity|]. split; [apply fresh_unused|].
    unfold construct. destruct w as [a|]; cbn.
    - split_and!; try done.
      + by rewrite <- app_assoc.
      + intros t. unfold dd_getitem. destruct (publishers σ !! topic) eqn:E; cbn; [done|].
        destruct (decide (topic = t)) as [->|Hne].
        * by rewrite lookup_total_insert_eq, lookup_total_alt, E.
        * by rewrite lookup_total_insert_ne.
    - split_and!; done. }
  destruct w0 as [w|], c0 as [c|].
  - right. destruct (Hc (Some w) (Some c)) as (p & σ' & H1 & H2 & H3 & H4 & H5 & H6 & H7); [eauto|].
    exists p, σ', (Some w), (Some c). split_and!; eauto. by intros [=].
  - right. destruct (Hc (Some w) None) as (p & σ' & H1 & H2 & H3 & H4 & H5 & H6 & H7); [eauto|].
    exists p, σ', (Some w), None. split_and!; eauto. by intros [=].
  - right. destruct (Hc None (Some c)) as (p & σ' & H1 & H2 & H3 & H4 & H5 & H6 & H7); [eauto|].
    exists p, σ', None, (Some c). split_and!; eauto. by intros _ [=].
  - destruct (current_worker σ) as [w|] eqn:Ew.
    + right. destruct (Hc (Some w) None) as (p & σ' & H1 & H2 & H3 & H4 & H5 & H6 & H7); [eauto|].
      exists p, σ', (Some w), None. split_and!; eauto.
      * by intros [[? [=]]|[? [=]]].
    + destruct (current_client σ) as [c|] eqn:Ec.
      * right. destruct (Hc None (Some c)) as (p & σ' & H1 & H2 & H3 & H4 & H5 & H6 & H7); [eauto|].
        exists p, σ', None, (Some c). split_and!; eauto.
        -- by intros [[? [=]]|[? [=]]].
      * left. done.
Qed.

Lemma construct_pubs topic w c σ :
  pubs (construct topic w c σ) =
  <[fresh (dom (pubs σ)) := MkPub ∅ w c topic false []]> (pubs σ).
Proof. unfold construct. by destruct w. Qed.

(** X9.  On an idle loop, two turns after a [Pub] is constructed with a
    worker, the object is in [publishers[name]] of the worker extension, and
    exactly one request [pubsub_add_publisher(name, worker=address)] has gone
    to the scheduler, whose answer the object now awaits; the object is
    still not started. *)
Theorem worker_construction_registers (topic w : string) (c0 : option string)
    (σ : process) :
  loop σ = [] →
  let p := fresh (dom (pubs σ)) in
  let σ2 := loop_steps 2 (__init__ topic (Some w) c0 σ).2 in
  (__init__ topic (Some w) c0 σ).1 = Returned p ∧
  pubs σ2 = <[p := MkPub ∅ (Some w) c0 topic false []]> (pubs σ) ∧
  outbox σ2 = outbox σ ++
    [Sending p ControlRPC (Wire "pubsub_add_publisher" topic (Some w) None None)] ∧
  awaiting σ2 = {[p]} ∪ awaiting σ ∧
  publishers σ2 !!! topic = {[p]} ∪ publishers σ !!! topic ∧
  (∀ t, t ≠ topic → publishers σ2 !!! t = publishers σ !!! t) ∧
  loop σ2 = [].
Proof.
  intros Hl p σ2. subst σ2. rewrite __init___eq.
  assert (resolve_host (Some w) c0 σ = Some (Some w, c0)) as -> by by destruct c0.
  cbn [fst snd]. split; [done|].
  set (new := MkPub ∅ (Some w) c0 topic false []).
  unfold construct. fold p. cbv zeta.
  set (σ1 := set_loop _ (set_publishers _ _)).
  assert (Hp1 : pubs σ1 !! p = Some new).
  { subst σ1. cbn. apply lookup_insert_eq. }
  assert (Hl1 : loop σ1 = [CbStart p; CbRegister topic p]).
  { subst σ1. cbn. by rewrite Hl. }
  assert (Hstep1 : loop_step σ1 =
    set_awaiting (λ a, {[p]} ∪ a)
      (set_outbox (λ o, o ++ [Sending p ControlRPC
                         (Wire "pubsub_add_publisher" topic (Some w) None None)])
         (set_loop (λ _, [CbRegister topic p]) σ1))).
  { unfold loop_step. rewrite Hl1. cbn [exec]. unfold _start.
    rewrite run_bind. erewrite read_eq by (cbn; exact Hp1). cbn [worker new name].
    rewrite run_bind. unfold send_from. by rewrite !modify_eq. }
  cbn [loop_steps]. rewrite Hstep1.
  unfold loop_step at 1. cbn [loop set_awaiting set_outbox set_loop exec].
  rewrite modify_eq. cbn [snd].
  subst σ1. cbn. split_and!; try done.
  - rewrite lookup_total_insert_eq. f_equal.
    unfold dd_getitem. destruct (publishers σ !! topic) eqn:E; cbn.
    + by rewrite E, lookup_total_alt, E.
    + by rewrite lookup_insert_eq, lookup_total_alt, E.
  - intros t Hne. rewrite lookup_total_insert_ne by done.
    unfold dd_getitem. destruct (publishers σ !! topic) eqn:E; cbn; [done|].
    by rewrite lookup_total_insert_ne.
Qed.

Lemma worker_construction_registers_witness :
  let σ := boot (Some "w") None in
  loop σ = [] ∧
  outbox (loop_steps 2 (__init__ "t" (Some "w") None σ).2) =
    [Sending 0 ControlRPC (Wire "pubsub_add_publisher" "t" (Some "w") None None)] ∧
  awaiting (loop_steps 2 (__init__ "t" (Some "w") None σ).2) = {[0]}.
Proof.
  cbv zeta. split; [reflexivity|].
  pose proof (worker_construction_registers "t" "w" None (boot (Some "w") None) eq_refl)
    as H.
  cbv zeta in H. destruct H as (_ & _ & Hout & Haw & _).
  split.
  - etrans; [exact Hout|]. vm_compute. reflexivity.
  - etrans; [exact Haw|]. vm_compute. reflexivity.
Defined.

Lemma loop_steps_flush_client p self c ms : ∀ σ,
  pubs σ !! p = Some self → _started self = true →
  worker self = None → client self = Some c →
  loop σ = CbPut p <$> ms →
  let σ' := loop_steps (length ms) σ in
  pubs σ' = pubs σ ∧
  loop σ' = [] ∧
  outbox σ' = outbox σ ++
    ((λ m, Sending p (SchedulerComm c) (ev_msg (name self) (to_serialize m))) <$> ms) ∧
  publish_to_scheduler σ' = publish_to_scheduler σ ∧
  publishers σ' = publishers σ ∧
  awaiting σ' = awaiting σ.
Proof.
  induction ms as [|m ms IH]; intros σ Hp Hs Hw Hc Hl.
  - cbn. by rewrite app_nil_r.
  - assert (Hstep : loop_step σ =
       set_outbox (λ o, o ++ [Sending p (SchedulerComm c)
                                (ev_msg (name self) (to_serialize m))])
         (set_loop (λ _, CbPut p <$> ms) σ)).
    { unfold loop_step. rewrite Hl.
      cbn [fmap list_fmap exec]. rewrite (_put_started p self) by done.
      rewrite Hw. cbn [snd]. unfold emission. by rewrite Hw, Hc. }
    cbn [length loop_steps]. rewrite Hstep.
    match goal with |- context [loop_steps _ ?x] => set (σ1 := x) end.
    destruct (IH σ1) as (H1 & H2 & H3 & H4 & H5 & H6); [done..|].
    cbv zeta. rewrite H1, H2, H3, H4, H5, H6. subst σ1. cbn.
    rewrite <- app_assoc. split_and!; done.
Qed.

(** X10.  A [Pub] constructed with a client only, on an idle loop, followed
    by [put] of the messages [ms]: once the loop has run the queued
    callbacks, the object is started with an empty buffer, and the process
    has sent exactly one [pubsub-msg] per message, in the order of the
    [put]s, all on the client's scheduler stream; no table of the worker
    extension is touched and no request is awaited. *)
Theorem client_publisher_sends_in_order (topic c : string) (ms : list payload)
    (σ : process) :
  loop σ = [] →
  let p := fresh (dom (pubs σ)) in
  let σ' := loop_steps (S (length ms))
              (put_all p ms (__init__ topic None (Some c) σ).2) in
  pubs σ' = <[p := MkPub ∅ None (Some c) topic true []]> (pubs σ) ∧
  loop σ' = [] ∧
  outbox σ' = outbox σ ++
    ((λ m, Sending p (SchedulerComm c) (ev_msg topic (to_serialize m))) <$> ms) ∧
  publish_to_scheduler σ' = publish_to_scheduler σ ∧
  publishers σ' = publishers σ ∧
  awaiting σ' = awaiting σ.
Proof.
  intros Hl p σ'. subst σ'. rewrite __init___eq. cbn [resolve_host snd].
  rewrite put_all_eq.
  set (new := MkPub ∅ None (Some c) topic false []).
  unfold construct. fold p. cbv zeta.
  set (σ1 := set_loop _ (set_loop _ _)).
  assert (Hstep : loop_step σ1 =
    set_pubs (insert p (started new))
      (set_loop (λ q, q ++ (CbPut p <$> _buffer new))
         (set_loop (λ _, CbPut p <$> ms) σ1))).
  { unfold loop_step. subst σ1. cbn [loop set_loop set_pubs]. rewrite Hl.
    cbn [app exec]. unfold _start.
    rewrite run_bind. erewrite read_eq by (cbn; apply lookup_insert_eq).
    cbn [worker new]. by erewrite _start_finish_eq by (cbn; apply lookup_insert_eq). }
  cbn [loop_steps]. rewrite Hstep.
  match goal with |- context [loop_steps _ ?x] => set (σ2 := x) end.
  destruct (loop_steps_flush_client p (started new) c ms σ2)
    as (H1 & H2 & H3 & H4 & H5 & H6); try done.
  { subst σ2. cbn. apply lookup_insert_eq. }
  { subst σ2. cbn. by rewrite app_nil_r. }
  rewrite H1, H2, H3, H4, H5, H6. subst σ2 σ1. cbn.
  by rewrite insert_insert_eq.
Qed.

Lemma client_publisher_sends_in_order_witness :
  let σ := boot None (Some "c") in
  loop σ = [] ∧
  outbox (loop_steps 3 (put_all 0 ["x"; "y"] (__init__ "t" None (Some "c") σ).2)) =
    [Sending 0 (SchedulerComm "c") (ev_msg "t" "x");
     Sending 0 (SchedulerComm "c") (ev_msg "t" "y")].
Proof.
  cbv zeta. split; [reflexivity|].
  pose proof (client_publisher_sends_in_order "t" "c" ["x"; "y"] (boot None (Some "c"))
                eq_refl) as H.
  cbv zeta in H. destruct H as (_ & _ & Hout & _).
  etrans; [exact Hout|]. vm_compute. reflexivity.
Defined.

(** X11.  [_start] hands the buffered messages back to [put], which queues
    them behind whatever the loop already holds.  So when [_put] callbacks
    are queued behind the wake-up of [_start], their messages [late] are
    sent before the buffered ones: after the loop has run, the object is
    started with an empty buffer and what was sent is the emission of each
    message of [late ++ _buffer], in that order. *)
Theorem late_put_overtakes_buffer (p : nat) (self : pub) (address : string)
    (late : list payload) (r : PubSubSchedulerExtension.reply) (σ : process) :
  pubs σ !! p = Some self →
  worker self = Some address →
  _started self = false →
  loop σ = CbResume p r :: (CbPut p <$> late) →
  let live := MkPub (PubSubSchedulerExtension.r_subscribers r ∪ subscribers self)
                    (Some address) (client self) (name self) true [] in
  let σ' := loop_steps (S (length (late ++ _buffer self))) σ in
  pubs σ' !! p = Some live ∧
  loop σ' = [] ∧
  outbox σ' = outbox σ ++
    concat (emission p live (PubSubSchedulerExtension.r_publish_scheduler r)
              <$> (late ++ _buffer self)).
Proof.
  intros Hp Hw Hs Hl live σ'. subst σ'.
  assert (Hstep : loop_step σ =
    set_pubs (insert p (started (registered r self)))
      (set_loop (λ q, q ++ (CbPut p <$> _buffer self))
        (set_publish_to_scheduler
           (insert (name self) (PubSubSchedulerExtension.r_publish_scheduler r))
           (set_loop (λ _, CbPut p <$> late) σ)))).
  { unfold loop_step. rewrite Hl. cbn [exec].
    by rewrite (_start_resume_eq p r self). }
  cbn [loop_steps]. rewrite Hstep.
  match goal with |- context [loop_steps _ ?x] => set (σ1 := x) end.
  assert (Hlive : started (registered r self) = live).
  { unfold started, registered, live. cbn. by rewrite Hw. }
  destruct (loop_steps_flush p live (PubSubSchedulerExtension.r_publish_scheduler r)
              (late ++ _buffer self) σ1) as (G1 & G2 & G3 & _).
  { subst σ1. cbn. rewrite Hlive. apply lookup_insert_eq. }
  { done. }
  { by eexists. }
  { subst σ1. cbn. apply lookup_insert_eq. }
  { subst σ1. cbn. by rewrite fmap_app. }
  rewrite G1, G2, G3. subst σ1. cbn. rewrite Hlive. split_and!; try done.
  apply lookup_insert_eq.
Qed.

Lemma late_put_overtakes_buffer_witness :
  let self := MkPub ∅ (Some "w") None "t" false ["x"] in
  let r := PubSubSchedulerExtension.Reply {["b" := ∅]} false in
  let σ := Process {[0 := self]} {["t" := {[0]}]} ∅ [CbResume 0 r; CbPut 0 "y"] ∅ []
                   (Some "w") None in
  pubs σ !! 0 = Some self ∧
  outbox (loop_steps 3 σ) = [Sending 0 (Direct "b") (ev_msg "t" "y");
                             Sending 0 (Direct "b") (ev_msg "t" "x")].
Proof.
  cbv zeta.
  assert (Hp : pubs (Process {[0 := MkPub ∅ (Some "w") None "t" false ["x"]]}
                       {["t" := {[0]}]} ∅
                       [CbResume 0 (PubSubSchedulerExtension.Reply {["b" := ∅]} false);
                        CbPut 0 "y"] ∅ [] (Some "w") None) !! 0
               = Some (MkPub ∅ (Some "w") None "t" false ["x"])).
  { reflexivity. }
  split; [exact Hp|].
  pose proof (late_put_overtakes_buffer 0 _ "w" ["y"]
                (PubSubSchedulerExtension.Reply {["b" := ∅]} false) _
                Hp eq_refl eq_refl eq_refl) as H.
  cbv zeta in H. destruct H as (_ & _ & Hout).
  etrans; [exact Hout|]. vm_compute. reflexivity.
Defined.

(** X12.  The scheduler's [add_publisher] and the worker's [_start] fit
    together: the call returns with the worker among [publishers[name]], and
    when [_start] resumes with the answer the object is started, its
    [subscribers] has a key for every worker the scheduler lists in
    [subscribers[name]] (each with an empty info) besides the keys it had,
    and [publish_to_scheduler[name]] of the worker extension says whether
    the scheduler has a client subscribed to the topic. *)
Theorem registration_hands_over_directory (s : PubSubSchedulerExtension.t)
    (address : string) (p : nat) (self : pub) (σ : process) :
  pubs σ !! p = Some self →
  ∃ r s1 σ' self',
    PubSubSchedulerExtension.add_publisher (name self) address s = (Returned r, s1) ∧
    address ∈ PubSubSchedulerExtension.publishers s1 !!! name self ∧
    _start_resume p r σ = (Returned tt, σ') ∧
    pubs σ' !! p = Some self' ∧
    _started self' = true ∧
    (∀ a, is_Some (subscribers self' !! a) ↔
          a ∈ PubSubSchedulerExtension.subscribers s !!! name self ∨
          is_Some (subscribers self !! a)) ∧
    (∀ a, a ∈ PubSubSchedulerExtension.subscribers s !!! name self →
          subscribers self' !! a = Some ∅) ∧
    publish_to_scheduler σ' !! name self =
      Some (bool_decide
              (0 < size (PubSubSchedulerExtension.client_subscribers s !!! name self))).
Proof.
  intros Hp.
  eexists (PubSubSchedulerExtension.snapshot (name self) s), _, _, _.
  rewrite SchedulerFacts.add_publisher_eq.
  rewrite (_start_resume_eq p _ self) by done.
  split; [reflexivity|]. split.
  { cbn. rewrite lookup_total_insert_eq. apply elem_of_union_l. by apply elem_of_singleton. }
  split; [reflexivity|]. cbn. split; [apply lookup_insert_eq|].
  split; [done|]. split_and!.
  - intros a. cbn. rewrite lookup_union, lookup_gset_to_gmap.
    destruct (decide (a ∈ PubSubSchedulerExtension.subscribers s !!! name self)) as [Hin|Hout].
    + rewrite option_guard_True by done.
      split; [by left|]. intros _. destruct (subscribers self !! a); cbn; eauto.
    + rewrite option_guard_False by done.
      destruct (subscribers self !! a) eqn:E; cbn.
      * split; [by right|eauto].
      * split; [by intros [? ?]|]. intros [?|[? ?]]; done.
  - intros a Hin. cbn. rewrite lookup_union, lookup_gset_to_gmap.
    rewrite option_guard_True by done. by destruct (subscribers self !! a).
  - apply lookup_insert_eq.
Qed.

Lemma registration_hands_over_directory_witness :
  let s := PubSubSchedulerExtension.Scheduler ∅ {["t" := {["b"]}]} {["t" := {["c"]}]} ∅ [] in
  let self := MkPub ∅ (Some "w") None "t" false [] in
  let σ := Process {[0 := self]} ∅ ∅ [] {[0]} [] (Some "w") None in
  pubs σ !! 0 = Some self ∧
  ∃ r σ' self',
    (PubSubSchedulerExtension.add_publisher "t" "w" s).1 = Returned r ∧
    _start_resume 0 r σ = (Returned tt, σ') ∧
    pubs σ' !! 0 = Some self' ∧
    subscribers self' !! "b" = Some ∅ ∧
    publish_to_scheduler σ' !! "t" = Some true.
Proof.
  cbv zeta.
  assert (Hp : pubs (Process {[0 := MkPub ∅ (Some "w") None "t" false []]} ∅ ∅ [] {[0]} []
                       (Some "w") None) !! 0
               = Some (MkPub ∅ (Some "w") None "t" false [])).
  { reflexivity. }
  split; [exact Hp|].
  destruct (registration_hands_over_directory
              (PubSubSchedulerExtension.Scheduler ∅ {["t" := {["b"]}]} {["t" := {["c"]}]} ∅ [])
              "w" 0 _ _ Hp)
    as (r & s1 & σ' & self' & Hadd & _ & Hrun & Hp' & _ & _ & Hb & Hpts).
  exists r, σ', self'. split; [exact (f_equal fst Hadd)|].
  split; [exact Hrun|]. split; [exact Hp'|]. split.
  - apply Hb. refine (bool_decide_unpack _ _); vm_compute; exact I.
  - etrans; [exact Hpts|]. vm_compute. reflexivity.
Defined.

(** X13.  The flag set by the worker's [publish_scheduler] is what the next
    [_put] of a started worker-hosted publisher of that topic reads: the
    message goes once to each address in the object's [subscribers], and
    once more on the batched stream to the scheduler exactly when the flag
    was set to true. *)
Theorem publish_scheduler_switches_copy (p : nat) (self : pub) (address : string)
    (publish : bool) (msg : payload) (σ : process) :
  pubs σ !! p = Some self →
  worker self = Some address →
  _started self = true →
  ∃ σ',
    (PubSubWorkerExtension.publish_scheduler (name self) publish;; _put p msg) σ
      = (Returned tt, σ') ∧
    outbox σ' = outbox σ ++
      ((λ addr, Sending p (Direct addr) (ev_msg (name self) (to_serialize msg))) <$>
         keys (subscribers self)) ++
      (if publish
       then [Sending p BatchedStream (ev_msg (name self) (to_serialize msg))]
       else []).
Proof.
  intros Hp Hw Hs. rewrite run_bind.
  unfold PubSubWorkerExtension.publish_scheduler. rewrite modify_eq.
  rewrite (_put_started p self) by done. rewrite Hw.
  eexists. split; [reflexivity|]. cbn. rewrite lookup_insert_eq. cbn.
  unfold emission. by rewrite Hw.
Qed.

Lemma publish_scheduler_switches_copy_witness :
  let self := MkPub {["b" := ∅]} (Some "w") None "t" true [] in
  let σ := Process {[0 := self]} {["t" := {[0]}]} ∅ [] ∅ [] (Some "w") None in
  pubs σ !! 0 = Some self ∧
  ∃ σ',
    (PubSubWorkerExtension.publish_scheduler "t" true;; _put 0 "m") σ = (Returned tt, σ') ∧
    outbox σ' = [Sending 0 (Direct "b") (ev_msg "t" "m");
                 Sending 0 BatchedStream (ev_msg "t" "m")].
Proof.
  cbv zeta.
  assert (Hp : pubs (Process {[0 := MkPub {["b" := ∅]} (Some "w") None "t" true []]}
                       {["t" := {[0]}]} ∅ [] ∅ [] (Some "w") None) !! 0
               = Some (MkPub {["b" := ∅]} (Some "w") None "t" true [])).
  { reflexivity. }
  split; [exact Hp|].
  destruct (publish_scheduler_switches_copy 0 _ "w" true "m" _ Hp eq_refl eq_refl)
    as (σ' & Hrun & Hout).
  exists σ'. split; [exact Hrun|].
  etrans; [exact Hout|]. vm_compute. reflexivity.
Defined.

Lemma with_subscribers_id self : with_subscribers (subscribers self) self = self.
Proof. by destruct self. Qed.

Section rewriting.
Context (f : pub → option (gmap string (gmap string string))).

Lemma rewrite_all l : ∀ σ,
  NoDup l →
  (∀ p, p ∈ l → is_Some (pubs σ !! p)) →
  (∀ p self, p ∈ l → pubs σ !! p = Some self → is_Some (f self)) →
  ∃ σ',
    for_ l (rewrite_body f) σ = (Returned tt, σ') ∧
    (∀ q, pubs σ' !! q =
          if decide (q ∈ l)
          then (λ self, with_subscribers (default (subscribers self) (f self)) self)
                 <$> pubs σ !! q
          else pubs σ !! q) ∧
    publishers σ' = publishers σ ∧
    publish_to_scheduler σ' = publish_to_scheduler σ ∧
    loop σ' = loop σ ∧ awaiting σ' = awaiting σ ∧ outbox σ' = outbox σ.
Proof.
  induction l as [|p l IH]; intros σ Hnd Hex Hf.
  - exists σ. split_and!; done.
  - apply NoDup_cons in Hnd as [Hp Hnd].
    destruct (Hex p) as [self Hs]; [by left|].
    destruct (Hf p self) as [d Hd]; [by left|done|].
    cbn [for_]. rewrite run_bind. unfold rewrite_body at 1.
    rewrite run_bind, (read_eq _ _ _ Hs), Hd, write_eq.
    set (σ1 := set_pubs _ σ).
    destruct (IH σ1 Hnd) as (σ' & Hrun & Hlk & H1 & H2 & H3 & H4 & H5).
    { intros q Hq. subst σ1. cbn. rewrite lookup_insert_ne by (by intros ->).
      apply Hex. by right. }
    { intros q selfq Hq. subst σ1. cbn. rewrite lookup_insert_ne by (by intros ->).
      apply Hf. by right. }
    exists σ'. split; [exact Hrun|]. split_and!; try done.
    intros q. rewrite Hlk. subst σ1. cbn.
    destruct (decide (q = p)) as [->|Hne].
    + rewrite decide_False by done. rewrite decide_True by by left.
      rewrite lookup_insert_eq, Hs. cbn. by rewrite Hd.
    + rewrite lookup_insert_ne by done.
      destruct (decide (q ∈ l)) as [Hin|Hout].
      * rewrite decide_True by by right. done.
      * rewrite decide_False; [done|]. by intros [?|?]%elem_of_cons.
Qed.

Lemma rewrite_raises l : ∀ σ,
  NoDup l →
  (∀ p, p ∈ l → is_Some (pubs σ !! p)) →
  (∃ p self, p ∈ l ∧ pubs σ !! p = Some self ∧ f self = None) →
  (for_ l (rewrite_body f) σ).1 = Raised KeyError.
Proof.
  induction l as [|p l IH]; intros σ Hnd Hex (q & selfq & Hq & Hsq & Hfq).
  - by apply elem_of_nil in Hq.
  - apply NoDup_cons in Hnd as [Hp Hnd].
    destruct (Hex p) as [self Hs]; [by left|].
    cbn [for_]. rewrite run_bind. unfold rewrite_body at 1.
    rewrite run_bind, (read_eq _ _ _ Hs).
    destruct (f self) as [d|] eqn:Hd; [|done].
    rewrite write_eq. apply IH; [done| |].
    + intros q' Hq'. cbn. rewrite lookup_insert_ne by (by intros ->).
      apply Hex. by right.
    + apply elem_of_cons in Hq as [->|Hq]; [congruence|].
      exists q, selfq. split; [done|]. split; [|done].
      cbn. by rewrite lookup_insert_ne by (by intros ->).
Qed.
End rewriting.

Lemma for_ext {S A} (l : list A) (f g : A → M S unit) :
  (∀ x s, f x s = g x s) → ∀ s, for_ l f s = for_ l g s.
Proof.
  intros Hfg. induction l as [|x l IH]; intros s; [done|].
  cbn [for_]. rewrite !run_bind, Hfg. destruct (g x s) as [[[]|e] s']; [apply IH|done].
Qed.

Lemma add_subscriber_as_rewrite topic address info σ :
  PubSubWorkerExtension.add_subscriber topic address info σ =
  for_ (elements (default ∅ (publishers σ !! topic))) (rewrite_body (adding address info))
       (set_publishers (λ _, (dd_getitem ∅ topic (publishers σ)).2) σ).
Proof.
  unfold PubSubWorkerExtension.add_subscriber.
  by rewrite run_bind, publishers_getitem_eq.
Qed.

Lemma remove_subscriber_as_rewrite topic address σ :
  PubSubWorkerExtension.remove_subscriber topic address σ =
  for_ (elements (default ∅ (publishers σ !! topic))) (rewrite_body (removing address))
       (set_publishers (λ _, (dd_getitem ∅ topic (publishers σ)).2) σ).
Proof.
  unfold PubSubWorkerExtension.remove_subscriber.
  rewrite run_bind, publishers_getitem_eq. apply for_ext.
  intros p s. unfold rewrite_body, removing. rewrite !run_bind.
  destruct (read p s) as [[self|e] s']; [|done].
  by destruct (subscribers self !! address).
Qed.

Lemma registered_exist topic σ :
  consistent σ →
  ∀ p, p ∈ elements (default ∅ (publishers σ !! topic)) →
       is_Some (pubs (set_publishers (λ _, (dd_getitem ∅ topic (publishers σ)).2) σ) !! p).
Proof.
  intros Hσ p Hp%elem_of_elements. cbn.
  destruct (inv_publishers σ Hσ topic p) as (self & Hs & _); [|by eexists].
  by rewrite lookup_total_alt.
Qed.

Lemma touched_publishers topic σ t :
  (dd_getitem (∅ : gset nat) topic (publishers σ)).2 !!! t = publishers σ !!! t.
Proof.
  unfold dd_getitem. destruct (publishers σ !! topic) eqn:E; cbn; [done|].
  destruct (decide (topic = t)) as [->|Hne].
  - by rewrite lookup_total_insert_eq, lookup_total_alt, E.
  - by rewrite lookup_total_insert_ne.
Qed.

Lemma rewrite_registered f topic σ :
  consistent σ →
  (∀ p self, p ∈ publishers σ !!! topic → pubs σ !! p = Some self → is_Some (f self)) →
  ∃ σ',
    for_ (elements (default ∅ (publishers σ !! topic))) (rewrite_body f)
         (set_publishers (λ _, (dd_getitem ∅ topic (publishers σ)).2) σ)
      = (Returned tt, σ') ∧
    (∀ q, pubs σ' !! q =
          if decide (q ∈ publishers σ !!! topic)
          then (λ self, with_subscribers (default (subscribers self) (f self)) self)
                 <$> pubs σ !! q
          else pubs σ !! q) ∧
    (∀ t, publishers σ' !!! t = publishers σ !!! t) ∧
    publish_to_scheduler σ' = publish_to_scheduler σ ∧
    loop σ' = loop σ ∧ awaiting σ' = awaiting σ ∧ outbox σ' = outbox σ.
Proof.
  intros Hσ Hf.
  destruct (rewrite_all f (elements (default ∅ (publishers σ !! topic)))
              (set_publishers (λ _, (dd_getitem ∅ topic (publishers σ)).2) σ))
    as (σ' & Hrun & Hlk & H1 & H2 & H3 & H4 & H5).
  { apply NoDup_elements. }
  { by apply registered_exist. }
  { intros p self Hp%elem_of_elements Hs. cbn in Hs. apply (Hf p); [|done].
    by rewrite lookup_total_alt. }
  exists σ'. split; [exact Hrun|]. split_and!; try done.
  - intros q. rewrite Hlk. cbn.
    destruct (decide (q ∈ elements _)) as [Hin|Hout].
    + rewrite decide_True; [done|]. rewrite lookup_total_alt. by apply elem_of_elements.
    + rewrite decide_False; [done|]. rewrite lookup_total_alt. by rewrite <- elem_of_elements.
  - intros t. rewrite H1. cbn. apply touched_publishers.
Qed.

(** X14.  In a consistent process the worker's [add_subscriber] returns;
    every object registered in [publishers[name]] has the address mapped to
    the given info in its [subscribers] and is otherwise as before, every
    other object is untouched, and neither the sets of publishers, nor the
    flags, nor the loop, nor what was sent changes. *)
Theorem worker_add_subscriber_effect (topic address : string)
    (info : gmap string string) (σ : process) :
  consistent σ →
  ∃ σ',
    PubSubWorkerExtension.add_subscriber topic address info σ = (Returned tt, σ') ∧
    (∀ q, pubs σ' !! q =
          if decide (q ∈ publishers σ !!! topic)
          then (λ self, with_subscribers (<[address := info]> (subscribers self)) self)
                 <$> pubs σ !! q
          else pubs σ !! q) ∧
    (∀ t, publishers σ' !!! t = publishers σ !!! t) ∧
    publish_to_scheduler σ' = publish_to_scheduler σ ∧
    loop σ' = loop σ ∧ awaiting σ' = awaiting σ ∧ outbox σ' = outbox σ.
Proof.
  intros Hσ. rewrite add_subscriber_as_rewrite.
  destruct (rewrite_registered (adding address info) topic σ Hσ) as (σ' & Hrun & H); [by eexists|].
  exists σ'. split; [exact Hrun|]. exact H.
Qed.

Lemma worker_add_subscriber_effect_witness :
  let σ := loop_steps 2 (__init__ "t" (Some "w") None (boot (Some "w") None)).2 in
  consistent σ ∧
  ∃ σ',
    PubSubWorkerExtension.add_subscriber "t" "b" ∅ σ = (Returned tt, σ') ∧
    pubs σ' !! 0 = Some (MkPub {["b" := ∅]} (Some "w") None "t" false []).
Proof.
  cbv zeta.
  assert (Hσ : consistent
            (loop_steps 2 (__init__ "t" (Some "w") None (boot (Some "w") None)).2)).
  { apply reachable_consistent.
    change (reachable (loop_step (loop_step
              (__init__ "t" (Some "w") None (boot (Some "w") None)).2))).
    eapply reachable_step; [|apply step_loop].
    eapply reachable_step; [|apply step_loop].
    eapply reachable_step; [apply (reachable_boot (Some "w") None)|apply step_new]. }
  split; [exact Hσ|].
  destruct (worker_add_subscriber_effect "t" "b" ∅ _ Hσ) as (σ' & Hrun & Hlk & _).
  exists σ'. split; [exact Hrun|].
  etrans; [exact (Hlk 0)|]. vm_compute. reflexivity.
Defined.

(** X15.  In a consistent process the worker's [remove_subscriber] returns
    exactly when every object registered in [publishers[name]] has the
    address among its [subscribers], and raises [KeyError] exactly when some
    registered object does not. *)
Theorem worker_remove_subscriber_raises_iff_unknown (topic address : string)
    (σ : process) :
  consistent σ →
  ((PubSubWorkerExtension.remove_subscriber topic address σ).1 = Returned tt ↔
     ∀ p self, p ∈ publishers σ !!! topic → pubs σ !! p = Some self →
               is_Some (subscribers self !! address)) ∧
  ((PubSubWorkerExtension.remove_subscriber topic address σ).1 = Raised KeyError ↔
     ∃ p self, p ∈ publishers σ !!! topic ∧ pubs σ !! p = Some self ∧
               subscribers self !! address = None).
Proof.
  intros Hσ. rewrite remove_subscriber_as_rewrite.
  assert (Hdec : (∀ p self, p ∈ publishers σ !!! topic → pubs σ !! p = Some self →
                     is_Some (subscribers self !! address)) ∨
                 (∃ p self, p ∈ publishers σ !!! topic ∧ pubs σ !! p = Some self ∧
                     subscribers self !! address = None)).
  { assert (Hl : ∀ l : list nat,
      (∀ p self, p ∈ l → pubs σ !! p = Some self →
                 is_Some (subscribers self !! address)) ∨
      (∃ p self, p ∈ l ∧ pubs σ !! p = Some self ∧ subscribers self !! address = None)).
    { induction l as [|p l [IH|(q & self & Hq & Hs & Hn)]].
      - left. by intros p self ?%elem_of_nil.
      - destruct (pubs σ !! p) as [self|] eqn:Hs.
        + destruct (subscribers self !! address) as [v|] eqn:E.
          * left. intros q selfq [->|Hq]%elem_of_cons Hsq; [|by eapply IH].
            rewrite Hs in Hsq. injection Hsq as <-. by rewrite E.
          * right. exists p, self. split; [by left|done].
        + left. intros q selfq [->|Hq]%elem_of_cons Hsq; [congruence|by eapply IH].
      - right. exists q, self. split; [by right|done]. }
    destruct (Hl (elements (publishers σ !!! topic))) as [Hall|(p & self & Hp & Hs)].
    - left. intros p self Hp. apply Hall. by apply elem_of_elements.
    - right. exists p, self. split; [by apply elem_of_elements|done]. }
  assert (Hexcl : (∀ p self, p ∈ publishers σ !!! topic → pubs σ !! p = Some self →
                     is_Some (subscribers self !! address)) →
                  (∃ p self, p ∈ publishers σ !!! topic ∧ pubs σ !! p = Some self ∧
                     subscribers self !! address = None) → False).
  { intros Hall (p & self & Hp & Hs & Hn). destruct (Hall p self Hp Hs) as [? ?]. congruence. }
  destruct Hdec as [Hall|Hex].
  - destruct (rewrite_registered (removing address) topic σ Hσ) as (σ' & -> & _).
    { intros p self Hp Hs. unfold removing.
      destruct (Hall p self Hp Hs) as [v ->]. by eexists. }
    cbn. split; split; try done. intros Hex. by destruct (Hexcl Hall Hex).
  - rewrite rewrite_raises.
    + split; split; try done. intros Hall. by destruct (Hexcl Hall Hex).
    + apply NoDup_elements.
    + by apply registered_exist.
    + destruct Hex as (p & self & Hp & Hs & Hn). exists p, self. split_and!.
      * apply elem_of_elements. by rewrite lookup_total_alt in Hp.
      * done.
      * unfold removing. by rewrite Hn.
Qed.

Lemma worker_remove_subscriber_raises_iff_unknown_witness :
  let σ := loop_steps 2 (__init__ "t" (Some "w") None (boot (Some "w") None)).2 in
  consistent σ ∧
  (PubSubWorkerExtension.remove_subscriber "t" "b" σ).1 = Raised KeyError.
Proof.
  cbv zeta.
  assert (Hσ : consistent
            (loop_steps 2 (__init__ "t" (Some "w") None (boot (Some "w") None)).2)).
  { apply reachable_consistent.
    change (reachable (loop_step (loop_step
              (__init__ "t" (Some "w") None (boot (Some "w") None)).2))).
    eapply reachable_step; [|apply step_loop].
    eapply reachable_step; [|apply step_loop].
    eapply reachable_step; [apply (reachable_boot (Some "w") None)|apply step_new]. }
  split; [exact Hσ|].
  apply (worker_remove_subscriber_raises_iff_unknown "t" "b" _ Hσ).
  exists 0, (MkPub ∅ (Some "w") None "t" false []). split; [|split].
  - refine (bool_decide_unpack _ _); vm_compute; exact I.
  - vm_compute. reflexivity.
  - reflexivity.
Defined.

(** X16.  In a consistent process, adding a subscriber address that no
    object registered for the topic knows and removing it again both
    return, and every object, every set of publishers, the flags, the loop
    and what was sent are as before. *)
Theorem worker_add_then_remove_subscriber (topic address : string)
    (info : gmap string string) (σ : process) :
  consistent σ →
  (∀ p self, p ∈ publishers σ !!! topic → pubs σ !! p = Some self →
             subscribers self !! address = None) →
  ∃ σ1 σ2,
    PubSubWorkerExtension.add_subscriber topic address info σ = (Returned tt, σ1) ∧
    PubSubWorkerExtension.remove_subscriber topic address σ1 = (Returned tt, σ2) ∧
    pubs σ2 = pubs σ ∧
    (∀ t, publishers σ2 !!! t = publishers σ !!! t) ∧
    publish_to_scheduler σ2 = publish_to_scheduler σ ∧
    loop σ2 = loop σ ∧ awaiting σ2 = awaiting σ ∧ outbox σ2 = outbox σ.
Proof.
  intros Hσ Hnew. rewrite add_subscriber_as_rewrite.
  destruct (rewrite_registered (adding address info) topic σ Hσ)
    as (σ1 & Hrun1 & Hlk1 & Hp1 & Hf1 & Hl1 & Ha1 & Ho1); [by eexists|].
  assert (Hσ1 : consistent σ1).
  { pose proof (sound_add_subscriber topic address info σ Hσ) as [H _].
    by rewrite add_subscriber_as_rewrite, Hrun1 in H. }
  rewrite Hrun1. exists σ1.
  rewrite remove_subscriber_as_rewrite.
  destruct (rewrite_registered (removing address) topic σ1 Hσ1)
    as (σ2 & Hrun2 & Hlk2 & Hp2 & Hf2 & Hl2 & Ha2 & Ho2).
  { intros p self1 Hp Hs1. rewrite Hp1 in Hp. rewrite Hlk1, decide_True in Hs1 by done.
    destruct (pubs σ !! p) as [self|]; [|done]. cbn in Hs1. injection Hs1 as <-.
    unfold removing. cbn. rewrite lookup_insert_eq. by eexists. }
  exists σ2. split; [done|]. split; [exact Hrun2|]. split_and!; try congruence.
  - apply map_eq. intros q. rewrite Hlk2, Hlk1.
    destruct (decide (q ∈ publishers σ1 !!! topic)) as [Hin|Hout];
      rewrite Hp1 in *.
    + rewrite decide_True by done.
      destruct (pubs σ !! q) as [self|] eqn:Hs; [|done]. cbn.
      unfold removing. cbn. rewrite lookup_insert_eq. cbn.
      rewrite delete_insert_id by by apply (Hnew q).
      by destruct self.
    + by rewrite decide_False.
Qed.

Lemma worker_add_then_remove_subscriber_witness :
  let σ := loop_steps 2 (__init__ "t" (Some "w") None (boot (Some "w") None)).2 in
  consistent σ ∧
  (∀ p self, p ∈ publishers σ !!! "t" → pubs σ !! p = Some self →
             subscribers self !! "b" = None) ∧
  ∃ σ1 σ2,
    PubSubWorkerExtension.add_subscriber "t" "b" ∅ σ = (Returned tt, σ1) ∧
    PubSubWorkerExtension.remove_subscriber "t" "b" σ1 = (Returned tt, σ2) ∧
    pubs σ2 = pubs σ.
Proof.
  cbv zeta.
  assert (Hσ : consistent
            (loop_steps 2 (__init__ "t" (Some "w") None (boot (Some "w") None)).2)).
  { apply reachable_consistent.
    change (reachable (loop_step (loop_step
              (__init__ "t" (Some "w") None (boot (Some "w") None)).2))).
    eapply reachable_step; [|apply step_loop].
    eapply reachable_step; [|apply step_loop].
    eapply reachable_step; [apply (reachable_boot (Some "w") None)|apply step_new]. }
  assert (Hnew : ∀ p self,
            p ∈ publishers (loop_steps 2 (__init__ "t" (Some "w") None
                                            (boot (Some "w") None)).2) !!! "t" →
            pubs (loop_steps 2 (__init__ "t" (Some "w") None
                                  (boot (Some "w") None)).2) !! p = Some self →
            subscribers self !! "b" = None).
  { intros p self Hp Hs.
    assert (Hps : publishers (loop_steps 2 (__init__ "t" (Some "w") None
                                             (boot (Some "w") None)).2) !!! "t"
                  = {[0]}).
    { vm_compute. reflexivity. }
    rewrite Hps in Hp. apply elem_of_singleton in Hp. subst p.
    assert (H0 : pubs (loop_steps 2 (__init__ "t" (Some "w") None
                                       (boot (Some "w") None)).2) !! 0
                 = Some (MkPub ∅ (Some "w") None "t" false [])).
    { vm_compute. reflexivity. }
    rewrite H0 in Hs. injection Hs as <-. reflexivity. }
  split; [exact Hσ|]. split; [exact Hnew|].
  destruct (worker_add_then_remove_subscriber "t" "b" ∅ _ Hσ Hnew)
    as (σ1 & σ2 & H1 & H2 & H3 & _).
  exists σ1, σ2. split; [exact H1|]. split; [exact H2|exact H3].
Defined.

End PubExtras.

(** ** Further properties of subscribers *)

Module SubExtras.
Import Sub SubFacts.
#[local] Open Scope Z_scope.

Lemma buffer_put_all (ms : list payload) : ∀ self,
  buffer (foldl (λ s x, _put x s) self ms) = buffer self ++ ms.
Proof.
  induction ms as [|x ms IH]; intros self; cbn.
  - by rewrite app_nil_r.
  - rewrite IH. cbn. by rewrite <- app_assoc.
Qed.

Lemma host_put_all (ms : list payload) : ∀ self,
  client (foldl (λ s x, _put x s) self ms) = client self ∧
  worker (foldl (λ s x, _put x s) self ms) = worker self.
Proof.
  induction ms as [|x ms IH]; intros self; cbn; [done|].
  destruct (IH (_put x self)) as [-> ->]. done.
Qed.

(** X17.  A [Sub] is a queue: after the messages [ms] have been [_put] to a
    subscriber that has a host, [get] returns the oldest message of the
    buffer followed by [ms] and leaves the rest in the buffer, whatever the
    calling thread, the timeout and the clock; it does not wait. *)
Theorem get_after_puts (ident : nat) (timeout : option Z) (start : Z)
    (rounds : list round) (self : sub) (ms : list payload) (m : payload)
    (rest : list payload) :
  hosted self →
  buffer self ++ ms = m :: rest →
  (get ident timeout start rounds (foldl (λ s x, _put x s) self ms)).1 = Got m ∧
  buffer (get ident timeout start rounds (foldl (λ s x, _put x s) self ms)).2 = rest.
Proof.
  intros Hh Hb.
  rewrite (get_head ident timeout start rounds _ m rest).
  - done.
  - destruct (host_put_all ms self) as [Hc Hw]. unfold hosted. by rewrite Hc, Hw.
  - by rewrite buffer_put_all.
Qed.

Lemma get_after_puts_witness :
  hosted (on_worker 7) ∧
  (get 7 (Some 5) 0 [] (foldl (λ s x, _put x s) (on_worker 7) ["a"; "b"])).1 = Got "a" ∧
  buffer (get 7 (Some 5) 0 [] (foldl (λ s x, _put x s) (on_worker 7) ["a"; "b"])).2 = ["b"].
Proof.
  assert (Hh : hosted (on_worker 7)).
  { right. eexists. reflexivity. }
  split; [exact Hh|].
  exact (get_after_puts 7 (Some 5) 0 [] (on_worker 7) ["a"; "b"] "a" ["b"] Hh eq_refl).
Defined.

Lemma _get_from_outcomes timeout start rounds : ∀ clock self,
  match (_get_from timeout start clock rounds self).1 with
  | Got _ => True
  | Raises e =>
      ∃ t, timeout = Some t ∧
           (e = TimeoutError ∨
            (e = RuntimeError ∧ start + t ∈ clock :: (now <$> rounds)))
  | WaitsForever => timeout = None
  end.
Proof.
  induction rounds as [|r rounds IH]; intros clock self; cbn.
  - destruct (buffer self); [|done]. destruct timeout as [t|]; [|done].
    destruct (_ <? 0) eqn:Hneg; [cbn; eauto|].
    destruct (_ <=? 0) eqn:Hz; cbn; [|eauto].
    exists t. split; [done|]. right. split; [done|].
    apply Z.ltb_ge in Hneg. apply Z.leb_le in Hz.
    replace (start + t) with clock by lia. left.
  - destruct (buffer self); [|done]. destruct timeout as [t|].
    + destruct (_ <? 0) eqn:Hneg; [cbn; eauto|].
      destruct (_ <=? 0) eqn:Hz; cbn.
      { exists t. split; [done|]. right. split; [done|].
        apply Z.ltb_ge in Hneg. apply Z.leb_le in Hz.
        replace (start + t) with (now r) by lia. right. left. }
      destruct (wake r) as [[d ms]|]; cbn; [|eauto].
      destruct (d <? _); [|cbn; eauto].
      specialize (IH (now r) (with_buffer ms (touch_condition self))).
      destruct (_get_from _ _ _ _ _).1 as [m|e|]; [done| |done].
      destruct IH as (t' & Ht & [->|[-> Hin]]); exists t'; (split; [done|]);
        [by left|].
      right. split; [done|]. apply elem_of_cons in Hin as [->|Hin].
      * right. left.
      * right. by right.
    + destruct (wake r) as [[d ms]|]; cbn; [|done].
      specialize (IH (now r) (with_buffer ms (touch_condition self))).
      destruct (_get_from _ _ _ _ _).1 as [m|e|]; [done| |done].
      by destruct IH as (t' & [=] & _).
Qed.

(** X18.  [_get] raises nothing but [TimeoutError] and [RuntimeError], and
    only when it was given a timeout; and only without a timeout can it
    wait forever.  It can raise [RuntimeError] only when a reading of the
    clock is exactly [start + timeout], and it does so, with the condition
    created, when the buffer is empty and the first reading is: [wait_for]
    then cancels the wait before the condition is acquired, and releasing
    it fails. *)
Theorem get_loop_outcomes (timeout : option Z) (start : Z) (rounds : list round)
    (self : sub) :
  match (_get timeout start rounds self).1 with
  | Got _ => True
  | Raises e =>
      ∃ t, timeout = Some t ∧
           (e = TimeoutError ∨
            (e = RuntimeError ∧ start + t ∈ start :: (now <$> rounds)))
  | WaitsForever => timeout = None
  end ∧
  (∀ t w, _get (Some t) start (Round (start + t) w :: rounds) (with_buffer [] self)
          = (Raises RuntimeError, touch_condition (with_buffer [] self))).
Proof.
  split; [apply _get_from_outcomes|].
  intros t w. unfold _get. cbn.
  replace (t - (start + t - start)) with 0 by lia. done.
Qed.






End SubExtras.

(** ** Delivery and cleanup at the client and at the worker *)

Lemma lookup_alter_each {V} (f : V → V) (l : list nat) i :
  NoDup l → ∀ m : gmap nat V,
  foldl (λ m i, alter f i m) m l !! i =
    if decide (i ∈ l) then f <$> m !! i else m !! i.
Proof.
  induction 1 as [|j l Hj Hl IH]; intros m; cbn.
  - done.
  - rewrite IH. destruct (decide (i = j)) as [->|Hne].
    + rewrite decide_False by done. rewrite lookup_alter_eq.
      rewrite decide_True by left. done.
    + rewrite lookup_alter_ne by done.
      destruct (decide (i ∈ l)).
      * rewrite decide_True by by right. done.
      * rewrite decide_False; [done|]. by intros [?|?]%elem_of_cons.
Qed.

Module ClientExtras.
Import PubSubClientExtension.

Lemma subscribers_getitem_eq topic σ :
  subscribers_getitem topic σ =
    (Returned (subscribers σ !!! topic),
     ClientExt (<[topic := subscribers σ !!! topic]> (subscribers σ)) (subs σ)
               (scheduler_comm σ)).
Proof.
  unfold subscribers_getitem, dd_getitem.
  destruct (subscribers σ !! topic) as [v|] eqn:Hv.
  - rewrite (insert_total_id (subscribers σ)) by eauto.
    by rewrite lookup_total_alt, Hv.
  - by rewrite (total_absent (subscribers σ)) by done.
Qed.

Lemma for_deliver msg (l : list nat) : ∀ σ,
  for_ l (λ i, deliver i msg) σ =
    (Returned tt,
     ClientExt (subscribers σ)
               (foldl (λ m i, alter (Sub._put msg) i m) (subs σ) l)
               (scheduler_comm σ)).
Proof.
  induction l as [|i l IH]; intros σ.
  - by destruct σ.
  - cbn [for_]. rewrite run_bind. unfold deliver at 1, modify at 1.
    by rewrite IH.
Qed.

(** X21.  The client extension's [handle_message] always returns.  Every
    subscriber registered for the topic gets the message appended to its
    buffer, and no other subscriber changes; the topic has an entry in
    [subscribers] afterwards, created empty if there was none; and the
    event [pubsub-remove-subscribers] for the topic is sent to the scheduler
    exactly when no subscriber is registered for it, nothing being sent
    otherwise. *)
Theorem client_handle_message_effect (topic : string) (msg : payload) (σ : t) :
  ∃ σ',
    handle_message topic msg σ = (Returned tt, σ') ∧
    subscribers σ' = <[topic := subscribers σ !!! topic]> (subscribers σ) ∧
    (∀ i, subs σ' !! i =
          if decide (i ∈ subscribers σ !!! topic)
          then Sub._put msg <$> subs σ !! i else subs σ !! i) ∧
    scheduler_comm σ' =
      scheduler_comm σ ++
      (if decide (subscribers σ !!! topic = ∅)
       then [ev_bare "pubsub-remove-subscribers" topic] else []).
Proof.
  unfold handle_message.
  rewrite run_bind, subscribers_getitem_eq. cbv beta iota.
  rewrite run_bind, for_deliver. cbv beta iota.
  rewrite run_bind, subscribers_getitem_eq. cbv beta iota. cbn.
  rewrite lookup_total_insert_eq, insert_insert_eq.
  assert (Hlk : ∀ i,
    foldl (λ m i, alter (Sub._put msg) i m) (subs σ)
          (elements (subscribers σ !!! topic)) !! i =
    if decide (i ∈ subscribers σ !!! topic)
    then Sub._put msg <$> subs σ !! i else subs σ !! i).
  { intros i. rewrite lookup_alter_each by apply NoDup_elements.
    destruct (decide (i ∈ subscribers σ !!! topic)) as [Hi|Hi].
    - rewrite decide_True; [done|]. by apply elem_of_elements.
    - rewrite decide_False; [done|]. by intros ?%elem_of_elements. }
  destruct (decide (subscribers σ !!! topic = ∅)) as [He|He].
  - rewrite bool_decide_eq_true_2 by done. eexists. split; [reflexivity|]. cbn.
    split_and!; try done.
  - rewrite bool_decide_eq_false_2 by done. eexists. split; [reflexivity|]. cbn.
    split_and!; try done. by rewrite app_nil_r.
Qed.

Lemma for_cleanup (l : list (string * gset nat)) : ∀ σ,
  for_ l (λ '(topic, s),
    if bool_decide (s = ∅)
    then send (ev_bare "pubsub-remove-subscriber" topic)
    else mret tt) σ =
  (Returned tt,
   ClientExt (subscribers σ) (subs σ) (scheduler_comm σ ++ (l ≫= notice "pubsub-remove-subscriber"))).
Proof.
  induction l as [|[topic s] l IH]; intros σ.
  - cbn. rewrite app_nil_r. by destruct σ.
  - cbn [for_]. rewrite run_bind. unfold notice at 1. cbn.
    destruct (bool_decide (s = ∅)); cbn; rewrite IH; cbn.
    + by rewrite <- app_assoc.
    + done.
Qed.

(** X22.  The client extension's [cleanup] always returns and changes neither
    [subscribers] nor any subscriber.  It sends one
    [pubsub-remove-subscriber] event for each topic whose entry is an empty
    set, and nothing else; and since the entries stay, running it again
    sends the same events again. *)
Theorem client_cleanup_effect (σ : t) :
  ∃ out,
    cleanup σ = (Returned tt, ClientExt (subscribers σ) (subs σ) (scheduler_comm σ ++ out)) ∧
    (∀ m, m ∈ out ↔ ∃ topic, subscribers σ !! topic = Some ∅ ∧
                             m = ev_bare "pubsub-remove-subscriber" topic) ∧
    NoDup out ∧
    (cleanup (ClientExt (subscribers σ) (subs σ) (scheduler_comm σ ++ out))).2 =
      ClientExt (subscribers σ) (subs σ) ((scheduler_comm σ ++ out) ++ out).
Proof.
  exists (map_to_list (subscribers σ) ≫= notice "pubsub-remove-subscriber").
  assert (Hrun : ∀ σ0, cleanup σ0 =
     (Returned tt, ClientExt (subscribers σ0) (subs σ0)
                     (scheduler_comm σ0 ++ (map_to_list (subscribers σ0) ≫= notice "pubsub-remove-subscriber")))).
  { intros σ0. unfold cleanup. rewrite run_bind. unfold get_state. cbv beta iota.
    apply for_cleanup. }
  split_and!.
  - apply Hrun.
  - intros m. rewrite list_elem_of_bind. split.
    + intros ([topic s] & Hm & Hin). apply elem_of_map_to_list in Hin.
      unfold notice in Hm. cbn in Hm.
      destruct (decide (s = ∅)) as [Hs|Hs].
      * rewrite bool_decide_eq_true_2 in Hm by done.
        apply list_elem_of_singleton in Hm. subst. eauto.
      * rewrite bool_decide_eq_false_2 in Hm by done. by apply elem_of_nil in Hm.
    + intros (topic & Hlk & ->). exists (topic, ∅). split.
      * unfold notice. cbn. rewrite bool_decide_eq_true_2 by done. by apply list_elem_of_singleton.
      * by apply elem_of_map_to_list.
  - pose proof (NoDup_fst_map_to_list (subscribers σ)) as Hnd.
    induction (map_to_list (subscribers σ)) as [|[topic s] l IH]; cbn; [constructor|].
    apply NoDup_cons in Hnd as [Hhd Hnd]. specialize (IH Hnd).
    unfold notice at 1. cbn. destruct (bool_decide (s = ∅)); cbn; [|done].
    constructor; [|done]. intros Hin. apply Hhd.
    apply list_elem_of_bind in Hin as ([topic' s'] & Hm & Hin).
    unfold notice in Hm. cbn in Hm. destruct (bool_decide (s' = ∅)); [|by apply elem_of_nil in Hm].
    apply list_elem_of_singleton in Hm. injection Hm as ->.
    apply list_elem_of_fmap. by exists (topic', s').
  - rewrite Hrun. done.
Qed.

End ClientExtras.

Module WorkerExtras.
Import WorkerExtension.

Lemma for_worker_deliver msg (l : list nat) : ∀ σ,
  for_ l (λ i, deliver i msg) σ =
    (Returned tt,
     WorkerExt (subscribers σ) (publishers σ) (publish_to_scheduler σ)
               (foldl (λ m i, alter (Sub._put msg) i m) (subs σ) l)
               (batched_stream σ)).
Proof.
  induction l as [|i l IH]; intros σ.
  - by destruct σ.
  - cbn [for_]. rewrite run_bind. unfold deliver at 1, modify at 1.
    by rewrite IH.
Qed.

(** X23.  The worker extension's [handle_message] always returns.  Every
    subscriber registered for the topic gets the message appended to its
    buffer and no other subscriber changes.  Unlike the client extension it
    reads [subscribers] with [get], so no entry is created, and it sends
    nothing. *)
Theorem worker_handle_message_effect (name : string) (msg : payload) (σ : t) :
  ∃ σ',
    handle_message name msg σ = (Returned tt, σ') ∧
    subscribers σ' = subscribers σ ∧
    publishers σ' = publishers σ ∧
    publish_to_scheduler σ' = publish_to_scheduler σ ∧
    batched_stream σ' = batched_stream σ ∧
    (∀ i, subs σ' !! i =
          if decide (i ∈ subscribers σ !!! name)
          then Sub._put msg <$> subs σ !! i else subs σ !! i).
Proof.
  unfold handle_message. rewrite run_bind. unfold get_state. cbv beta iota.
  rewrite for_worker_deliver. eexists. split; [reflexivity|]. cbn.
  split_and!; try done.
  intros i. rewrite lookup_alter_each by apply NoDup_elements.
  destruct (decide (i ∈ elements (default ∅ (subscribers σ !! name)))) as [Hi|Hi].
  - rewrite decide_True; [done|].
    rewrite lookup_total_alt. by apply elem_of_elements.
  - rewrite decide_False; [done|].
    rewrite lookup_total_alt. by intros ?%elem_of_elements.
Qed.

Lemma lookup_drop_empty {V} (l : list (string * gset nat)) k : ∀ d : gmap string V,
  drop_empty l d !! k = if decide ((k, ∅) ∈ l) then None else d !! k.
Proof.
  unfold drop_empty.
  induction l as [|[name s] l IH]; intros d; cbn.
  - done.
  - rewrite IH. destruct (decide (s = ∅)) as [->|Hs].
    + rewrite bool_decide_eq_true_2 by done.
      destruct (decide (k = name)) as [->|Hne].
      * rewrite lookup_delete_eq. rewrite (decide_True (P := (name, ∅) ∈ (name, ∅) :: l)) by left.
        by destruct (decide _).
      * rewrite lookup_delete_ne by done.
        destruct (decide ((k, ∅) ∈ l)).
        -- rewrite decide_True by by right. done.
        -- rewrite decide_False; [done|]. intros [?|?]%elem_of_cons; [congruence|done].
    + rewrite bool_decide_eq_false_2 by done.
      destruct (decide ((k, ∅) ∈ l)).
      * rewrite decide_True by by right. done.
      * rewrite decide_False; [done|]. intros [?|?]%elem_of_cons; [congruence|done].
Qed.

Lemma lookup_drop_empty_items {V} (m : gmap string (gset nat)) (d : gmap string V) k :
  drop_empty (map_to_list m) d !! k =
    if decide (m !! k = Some ∅) then None else d !! k.
Proof.
  rewrite lookup_drop_empty.
  destruct (decide (m !! k = Some ∅)) as [Hk|Hk].
  - rewrite decide_True; [done|]. by apply elem_of_map_to_list.
  - rewrite decide_False; [done|]. by intros ?%elem_of_map_to_list.
Qed.

(** The first loop never raises. *)
Lemma subscribers_loop (l : list (string * gset nat)) :
  NoDup l.*1 → ∀ σ,
  (∀ name s, (name, s) ∈ l → is_Some (subscribers σ !! name)) →
  for_ l cleanup_subscriber σ =
    (Returned tt,
     WorkerExt (drop_empty l (subscribers σ)) (publishers σ) (publish_to_scheduler σ)
               (subs σ)
               (batched_stream σ ++ (l ≫= notice "pubsub-remove-subscriber"))).
Proof.
  induction l as [|[name s] l IH]; intros Hnd σ Hin.
  - cbn. rewrite app_nil_r. by destruct σ.
  - cbn in Hnd. apply NoDup_cons in Hnd as [Hhd Hnd].
    cbn [for_]. rewrite run_bind. unfold cleanup_subscriber at 1, notice at 1,
      drop_empty. cbn [fst snd mbind list_bind foldl].
    destruct (bool_decide (s = ∅)) eqn:Hs.
    + rewrite run_bind. unfold send at 1, modify at 1. cbv beta iota.
      unfold del_subscribers at 1. cbn [subscribers].
      destruct (Hin name s) as [v Hv]; [left|]. rewrite Hv.
      rewrite IH; [|done|].
      * cbn. by rewrite <- app_assoc.
      * intros name' s' Hi. cbn. rewrite lookup_delete_ne; [eapply Hin; by right|].
        intros ->. apply Hhd. apply list_elem_of_fmap. by exists (name', s').
    + rewrite run_ret. rewrite IH; [done|done|].
      intros name' s' Hi. eapply Hin. by right.
Qed.

Lemma publishers_loop (l : list (string * gset nat)) :
  NoDup l.*1 → ∀ σ,
  (∀ name s, (name, s) ∈ l → is_Some (publishers σ !! name)) →
  (∀ name, (name, ∅) ∈ l → is_Some (publish_to_scheduler σ !! name)) →
  for_ l cleanup_publisher σ =
    (Returned tt,
     WorkerExt (subscribers σ) (drop_empty l (publishers σ))
               (drop_empty l (publish_to_scheduler σ)) (subs σ)
               (batched_stream σ ++ (l ≫= notice "pubsub-remove-publisher"))).
Proof.
  induction l as [|[name s] l IH]; intros Hnd σ Hin Hpts.
  - cbn. rewrite app_nil_r. by destruct σ.
  - cbn in Hnd. apply NoDup_cons in Hnd as [Hhd Hnd].
    assert (Hother : ∀ name' s', (name', s') ∈ l → name' ≠ name).
    { intros name' s' Hi ->. apply Hhd. apply list_elem_of_fmap. by exists (name, s'). }
    cbn [for_]. rewrite run_bind. unfold cleanup_publisher at 1, notice at 1,
      drop_empty. cbn [fst snd mbind list_bind foldl].
    destruct (decide (s = ∅)) as [->|Hs].
    + rewrite bool_decide_eq_true_2 by done.
      rewrite run_bind. unfold send at 1, modify at 1. cbv beta iota.
      rewrite run_bind. unfold del_publishers at 1. cbn [publishers].
      destruct (Hin name ∅) as [v Hv]; [left|]. rewrite Hv. cbv beta iota.
      unfold del_publish_to_scheduler at 1. cbn [publish_to_scheduler].
      destruct (Hpts name) as [b Hb]; [left|]. rewrite Hb.
      rewrite IH; [|done| |].
      * cbn. by rewrite <- app_assoc.
      * intros name' s' Hi. cbn. rewrite lookup_delete_ne; [eapply Hin; by right|].
        intros <-. by eapply Hother.
      * intros name' Hi. cbn. rewrite lookup_delete_ne; [eapply Hpts; by right|].
        intros <-. by eapply Hother.
    + rewrite bool_decide_eq_false_2 by done.
      rewrite run_ret. rewrite IH; [done|done| |].
      * intros name' s' Hi. eapply Hin. by right.
      * intros name' Hi. eapply Hpts. by right.
Qed.

Lemma publishers_loop_raises (l : list (string * gset nat)) :
  NoDup l.*1 → ∀ σ,
  (∀ name s, (name, s) ∈ l → is_Some (publishers σ !! name)) →
  (∃ name, (name, ∅) ∈ l ∧ publish_to_scheduler σ !! name = None) →
  ∃ σ' name,
    for_ l cleanup_publisher σ = (Raised KeyError, σ') ∧
    (name, ∅) ∈ l ∧ publish_to_scheduler σ !! name = None ∧
    publishers σ' !! name = None ∧
    last (batched_stream σ') = Some (ev_bare "pubsub-remove-publisher" name) ∧
    subscribers σ' = subscribers σ ∧ subs σ' = subs σ.
Proof.
  induction l as [|[name s] l IH]; intros Hnd σ Hin Hbad.
  - destruct Hbad as (? & []%elem_of_nil & _).
  - cbn in Hnd. apply NoDup_cons in Hnd as [Hhd Hnd].
    assert (Hother : ∀ name' s', (name', s') ∈ l → name' ≠ name).
    { intros name' s' Hi ->. apply Hhd. apply list_elem_of_fmap. by exists (name, s'). }
    cbn [for_]. rewrite run_bind. unfold cleanup_publisher at 1. cbn [fst snd].
    destruct (decide (s = ∅)) as [->|Hs].
    + rewrite bool_decide_eq_true_2 by done.
      rewrite run_bind. unfold send at 1, modify at 1. cbv beta iota.
      rewrite run_bind. unfold del_publishers at 1. cbn [publishers].
      destruct (Hin name ∅) as [v Hv]; [left|]. rewrite Hv. cbv beta iota.
      unfold del_publish_to_scheduler at 1. cbn [publish_to_scheduler].
      destruct (publish_to_scheduler σ !! name) as [b|] eqn:Hb.
      * cbv beta iota.
        match goal with |- context [for_ l cleanup_publisher ?σ0] =>
          destruct (IH Hnd σ0) as (σ' & name' & Hrun & Hi & Hn & Hp & Hl & Hs & Hsubs)
        end.
        { intros name' s' Hi. cbn. rewrite lookup_delete_ne; [eapply Hin; by right|].
          intros <-. by eapply Hother. }
        { destruct Hbad as (name' & [Heq|Hi]%elem_of_cons & Hn).
          - congruence.
          - exists name'. split; [done|]. cbn.
            rewrite lookup_delete_ne; [done|]. intros <-. by eapply Hother. }
        exists σ', name'. rewrite Hrun. split_and!; try done.
        -- by right.
        -- cbn in Hn. rewrite lookup_delete_ne in Hn; [done|].
           intros <-. by eapply Hother.
      * eexists _, name. split; [reflexivity|]. cbn. split_and!; try done.
        -- left.
        -- by rewrite lookup_delete_eq.
        -- by rewrite last_snoc.
    + rewrite bool_decide_eq_false_2 by done. rewrite run_ret.
      destruct (IH Hnd σ) as (σ' & name' & Hrun & Hi & Hn & Hp & Hl & Hs' & Hsubs).
      { intros name' s' Hi. eapply Hin. by right. }
      { destruct Hbad as (name' & [Heq|Hi]%elem_of_cons & Hn); [congruence|eauto]. }
      exists σ', name'. rewrite Hrun. split_and!; try done. by right.
Qed.

Lemma cleanup_unfold σ :
  cleanup σ =
    for_ (map_to_list (publishers σ)) cleanup_publisher
      (WorkerExt (drop_empty (map_to_list (subscribers σ)) (subscribers σ))
                 (publishers σ) (publish_to_scheduler σ) (subs σ)
                 (batched_stream σ ++
                  (map_to_list (subscribers σ) ≫= notice "pubsub-remove-subscriber"))).
Proof.
  unfold cleanup. rewrite run_bind. unfold get_state at 1. cbv beta iota.
  rewrite run_bind, subscribers_loop.
  - cbv beta iota. rewrite run_bind. unfold get_state. cbv beta iota. done.
  - apply NoDup_fst_map_to_list.
  - intros name s Hi%elem_of_map_to_list. eauto.
Qed.

Lemma cleanup_returns σ :
  (∀ name, publishers σ !! name = Some ∅ → is_Some (publish_to_scheduler σ !! name)) →
  cleanup σ =
    (Returned tt,
     WorkerExt (drop_empty (map_to_list (subscribers σ)) (subscribers σ))
               (drop_empty (map_to_list (publishers σ)) (publishers σ))
               (drop_empty (map_to_list (publishers σ)) (publish_to_scheduler σ))
               (subs σ)
               (batched_stream σ ++
                (map_to_list (subscribers σ) ≫= notice "pubsub-remove-subscriber") ++
                (map_to_list (publishers σ) ≫= notice "pubsub-remove-publisher"))).
Proof.
  intros Hpts. rewrite cleanup_unfold, publishers_loop.
  - cbn. by rewrite <- app_assoc.
  - apply NoDup_fst_map_to_list.
  - intros name s Hi%elem_of_map_to_list. cbn. eauto.
  - intros name Hi%elem_of_map_to_list. cbn. eauto.
Qed.

(** X24.  When every topic whose set of publishers is empty has an entry in
    [publish_to_scheduler], the worker extension's [cleanup] returns.  It
    deletes exactly the entries of [subscribers] and of [publishers] whose
    set is empty, deletes from [publish_to_scheduler] the topics whose
    publisher entry it deleted, and touches no subscriber.  It sends one
    [pubsub-remove-subscriber] per deleted subscriber entry and then one
    [pubsub-remove-publisher] per deleted publisher entry. *)
Theorem worker_cleanup_effect (σ : t) :
  (∀ name, publishers σ !! name = Some ∅ → is_Some (publish_to_scheduler σ !! name)) →
  ∃ σ',
    cleanup σ = (Returned tt, σ') ∧
    (∀ name, subscribers σ' !! name =
             if decide (subscribers σ !! name = Some ∅) then None
             else subscribers σ !! name) ∧
    (∀ name, publishers σ' !! name =
             if decide (publishers σ !! name = Some ∅) then None
             else publishers σ !! name) ∧
    (∀ name, publish_to_scheduler σ' !! name =
             if decide (publishers σ !! name = Some ∅) then None
             else publish_to_scheduler σ !! name) ∧
    subs σ' = subs σ ∧
    batched_stream σ' =
      batched_stream σ ++
      (map_to_list (subscribers σ) ≫= notice "pubsub-remove-subscriber") ++
      (map_to_list (publishers σ) ≫= notice "pubsub-remove-publisher").
Proof.
  intros Hpts. eexists. split; [by apply cleanup_returns|]. cbn.
  split_and!; try done; intros name; apply lookup_drop_empty_items.
Qed.

Lemma worker_cleanup_effect_witness :
  let σ := WorkerExt {["s" := ∅]} {["t" := ∅]} {["t" := false]} ∅ [] in
  (∀ name, publishers σ !! name = Some ∅ → is_Some (publish_to_scheduler σ !! name)) ∧
  ∃ σ',
    cleanup σ = (Returned tt, σ') ∧
    batched_stream σ' = [ev_bare "pubsub-remove-subscriber" "s";
                         ev_bare "pubsub-remove-publisher" "t"].
Proof.
  cbv zeta.
  assert (Hpts : ∀ name,
            publishers (WorkerExt {["s" := ∅]} {["t" := ∅]} {["t" := false]} ∅ []) !! name
              = Some ∅ →
            is_Some (publish_to_scheduler
                       (WorkerExt {["s" := ∅]} {["t" := ∅]} {["t" := false]} ∅ []) !! name)).
  { intros name H. cbn [publishers] in H.
    apply lookup_singleton_Some in H as [<- _]. eexists. reflexivity. }
  split; [exact Hpts|].
  destruct (worker_cleanup_effect _ Hpts) as (σ' & Hrun & _ & _ & _ & _ & Hout).
  exists σ'. split; [exact Hrun|].
  etrans; [exact Hout|]. vm_compute. reflexivity.
Defined.

(** X25.  When some topic has an empty set of publishers and no entry in
    [publish_to_scheduler], the worker extension's [cleanup] raises
    [KeyError]: [del self.publish_to_scheduler[name]] does not get the
    default of the dictionary.  It stops at such a topic, whose entry in
    [publishers] is already deleted and whose [pubsub-remove-publisher]
    event is the last thing sent. *)
Theorem worker_cleanup_raises (name : string) (σ : t) :
  publishers σ !! name = Some ∅ →
  publish_to_scheduler σ !! name = None →
  ∃ σ' name',
    cleanup σ = (Raised KeyError, σ') ∧
    publishers σ !! name' = Some ∅ ∧
    publish_to_scheduler σ !! name' = None ∧
    publishers σ' !! name' = None ∧
    last (batched_stream σ') = Some (ev_bare "pubsub-remove-publisher" name').
Proof.
  intros Hp Hn. rewrite cleanup_unfold.
  match goal with |- context [for_ _ _ ?σ0] =>
    destruct (publishers_loop_raises (map_to_list (publishers σ))
                (NoDup_fst_map_to_list _) σ0)
      as (σ' & name' & Hrun & Hi & Hn' & Hp' & Hl & _)
  end.
  - intros name' s Hi%elem_of_map_to_list. cbn. eauto.
  - exists name. split; [by apply elem_of_map_to_list|done].
  - exists σ', name'. split_and!; try done. by apply elem_of_map_to_list.
Qed.

Lemma worker_cleanup_raises_witness :
  let σ := WorkerExt ∅ {["t" := ∅]} ∅ ∅ [] in
  publishers σ !! "t" = Some ∅ ∧ publish_to_scheduler σ !! "t" = None ∧
  ∃ σ',
    cleanup σ = (Raised KeyError, σ') ∧
    publishers σ' !! "t" = None ∧
    last (batched_stream σ') = Some (ev_bare "pubsub-remove-publisher" "t").
Proof.
  cbv zeta.
  assert (Hp0 : publishers (WorkerExt ∅ {["t" := ∅]} ∅ ∅ []) !! "t" = Some ∅).
  { reflexivity. }
  assert (Hn0 : publish_to_scheduler (WorkerExt ∅ {["t" := ∅]} ∅ ∅ []) !! "t" = None).
  { reflexivity. }
  split; [exact Hp0|]. split; [exact Hn0|].
  destruct (worker_cleanup_raises "t" _ Hp0 Hn0)
    as (σ' & name' & Hrun & Hp & _ & Hgone & Hlast).
  cbn [publishers] in Hp. apply lookup_singleton_Some in Hp as [<- _].
  exists σ'. split; [exact Hrun|]. split; [exact Hgone|exact Hlast].
Defined.

Lemma loop_nothing_empty {S} (body : string * gset nat → M S unit)
    (l : list (string * gset nat)) (σ : S) :
  (∀ e, e.2 ≠ ∅ → body e σ = (Returned tt, σ)) →
  (∀ e, e ∈ l → e.2 ≠ ∅) →
  for_ l body σ = (Returned tt, σ).
Proof.
  intros Hbody. induction l as [|e l IH]; intros Hl; [done|].
  cbn [for_]. rewrite run_bind, Hbody by (apply Hl; left).
  apply IH. intros e' He'. apply Hl. by right.
Qed.

(** X26.  After a [cleanup] of the worker extension that returned, a second
    one returns as well, changes nothing and sends nothing: the entries it
    would report are gone. *)
Theorem worker_cleanup_twice (σ : t) :
  (∀ name, publishers σ !! name = Some ∅ → is_Some (publish_to_scheduler σ !! name)) →
  ∃ σ', cleanup σ = (Returned tt, σ') ∧ cleanup σ' = (Returned tt, σ').
Proof.
  intros Hpts. eexists. split; [by apply cleanup_returns|].
  match goal with |- cleanup ?σ0 = _ => set (σ' := σ0) end.
  assert (Hs : ∀ e, e ∈ map_to_list (subscribers σ') → e.2 ≠ ∅).
  { intros [name s] Hi%elem_of_map_to_list Hs0. cbn in Hs0. subst s. cbn in Hi.
    rewrite lookup_drop_empty_items in Hi. by destruct (decide _). }
  assert (Hp : ∀ e, e ∈ map_to_list (publishers σ') → e.2 ≠ ∅).
  { intros [name s] Hi%elem_of_map_to_list Hs0. cbn in Hs0. subst s. cbn in Hi.
    rewrite lookup_drop_empty_items in Hi. by destruct (decide _). }
  unfold cleanup. rewrite run_bind. unfold get_state at 1. cbv beta iota.
  rewrite run_bind, loop_nothing_empty; [| |done].
  - cbv beta iota. rewrite run_bind. unfold get_state. cbv beta iota.
    apply loop_nothing_empty; [|done].
    intros e He. unfold cleanup_publisher. by rewrite bool_decide_eq_false_2.
  - intros e He. unfold cleanup_subscriber. by rewrite bool_decide_eq_false_2.
Qed.

Lemma worker_cleanup_twice_witness :
  let σ := WorkerExt {["s" := ∅]} {["t" := ∅]} {["t" := false]} ∅ [] in
  (∀ name, publishers σ !! name = Some ∅ → is_Some (publish_to_scheduler σ !! name)) ∧
  ∃ σ', cleanup σ = (Returned tt, σ') ∧ cleanup σ' = (Returned tt, σ').
Proof.
  cbv zeta.
  assert (Hpts : ∀ name,
            publishers (WorkerExt {["s" := ∅]} {["t" := ∅]} {["t" := false]} ∅ []) !! name
              = Some ∅ →
            is_Some (publish_to_scheduler
                       (WorkerExt {["s" := ∅]} {["t" := ∅]} {["t" := false]} ∅ []) !! name)).
  { intros name H. cbn [publishers] in H.
    apply lookup_singleton_Some in H as [<- _]. eexists. reflexivity. }
  split; [exact Hpts|].
  exact (worker_cleanup_twice _ Hpts).
Defined.

End WorkerExtras.
